(** * Registries and AI-action composition of the fury agent

    Shallow embedding of [server/fury/agent.py] (model registry,
    programmatic-action registry, AI-action and its registry) and of
    [chainfury/client.py] ([get_chain_from_id]).

    Python objects are modelled as follows.
    - JSON-like data (templates, payload values, model results) is the
      tagged tree [value]; a [dict] inside such a tree is an association
      list in insertion order whose keys are pairwise distinct ([wf_value]).
    - Flat string-keyed dictionaries whose order is never observed by the
      properties below (registry tables, counters, keyword arguments) are
      [gmap string _].
    - A function that may [raise] returns a [result]; a method that mutates
      [self] is a state transformer returning the new object state together
      with the [result]. *)

From stdpp Require Import base option list strings gmap fin_maps.
From Stdlib Require Import ZArith.

Set Warnings "-register-all".
Set Default Proof Using "Type".


(** ** Python values *)

Inductive value : Type :=
  | VNone
  | VBool (b : bool)
  | VInt (n : Z)
  | VStr (s : string)
  | VList (l : list value)
  | VDict (d : list (string * value)).

(** Python truthiness ([if not obj]). *)
Definition truthy (v : value) : bool :=
  match v with
  | VNone => false
  | VBool b => b
  | VInt n => negb (n =? 0)%Z
  | VStr s => negb (String.eqb s "")
  | VList l => match l with [] => false | _ => true end
  | VDict d => match d with [] => false | _ => true end
  end.

(** Exceptions: the Python class and its message. *)
Inductive exn : Type :=
  | Exception (msg : string)
  | ValueError (msg : string)
  | AssertionError (msg : string)
  | TypeError (msg : string)
  | KeyError (msg : string).

Inductive result (A : Type) : Type :=
  | Ok (a : A)
  | Raise (e : exn).
Arguments Ok {A} a.
Arguments Raise {A} e.

(** One step of an extraction path: a key at a mapping level, an index at a
    sequence level. *)
Inductive key : Type :=
  | KStr (s : string)
  | KIdx (i : Z).

(** ** Association-list dictionaries (insertion ordered) *)

Fixpoint dict_get (k : string) (d : list (string * value)) : option value :=
  match d with
  | [] => None
  | (k', v) :: d' => if String.eqb k k' then Some v else dict_get k d'
  end.

(** [d[k] = v]: an existing key keeps its position, a new key is appended. *)
Fixpoint dict_set (k : string) (v : value) (d : list (string * value))
  : list (string * value) :=
  match d with
  | [] => [(k, v)]
  | (k', v') :: d' =>
      if String.eqb k k' then (k', v) :: d' else (k', v') :: dict_set k v d'
  end.

(** Python sequence index: a negative index counts from the end. *)
Definition norm_index (i : Z) (len : nat) : option nat :=
  if (0 <=? i)%Z then
    if (i <? Z.of_nat len)%Z then Some (Z.to_nat i) else None
  else
    if (0 <=? Z.of_nat len + i)%Z then Some (Z.to_nat (Z.of_nat len + i)) else None.

(** [obj[k]]; [None] where Python finds nothing. *)
Definition get_item (obj : value) (k : key) : option value :=
  match obj, k with
  | VDict d, KStr s => dict_get s d
  | VList l, KIdx i => n ← norm_index i (length l); l !! n
  | _, _ => None
  end.

(** [obj[k] = v]; [None] where Python raises (index out of range, or an
    object that is not a container of the right kind). *)
Definition set_item (obj : value) (k : key) (v : value) : option value :=
  match obj, k with
  | VDict d, KStr s => Some (VDict (dict_set s v d))
  | VList l, KIdx i => n ← norm_index i (length l); Some (VList (<[n := v]> l))
  | _, _ => None
  end.

(** Modelled from the spec: [get_value_by_keys] of [fury.base] is not among
    the sources. It walks an extraction path through a nested structure,
    keys at mapping levels and indices at sequence levels, and reports a
    not-found result ([None]) rather than raising. *)
Fixpoint get_value_by_keys (obj : value) (keys : list key) : option value :=
  match keys with
  | [] => Some obj
  | k :: ks => c ← get_item obj k; get_value_by_keys c ks
  end.

(** Modelled from the spec: [put_value_by_keys] of [fury.base] is not among
    the sources. It writes [v] at the recorded path of the nested structure
    [obj], in place; the outcome is the structure after the write, [None]
    where the path cannot be walked. The root itself cannot be replaced. *)
Fixpoint put_value_by_keys (obj : value) (keys : list key) (v : value)
  : option value :=
  match keys with
  | [] => None
  | k :: ks =>
      match ks with
      | [] => set_item obj k v
      | _ :: _ =>
          c ← get_item obj k;
          c' ← put_value_by_keys c ks v;
          set_item obj k c'
      end
  end.

(** Well-formed values: the keys of every mapping are pairwise distinct, as
    in any Python [dict]. *)
Fixpoint wf_value (v : value) : Prop :=
  match v with
  | VList l => (fix all (l : list value) : Prop :=
                  match l with [] => True | x :: l' => wf_value x ∧ all l' end) l
  | VDict d => NoDup (d.*1) ∧
               (fix all (d : list (string * value)) : Prop :=
                  match d with [] => True | (_, x) :: d' => wf_value x ∧ all d' end) d
  | _ => True
  end.

(** ** Field descriptors, callables and models *)

(** Modelled from the spec: the class [Var] of [fury.base] is not among the
    sources. A field descriptor has a name, a type tag, a required flag and,
    for an output, an extraction path ([_loc]). *)
Module Var.
Record t : Type := mk {
  name : string;
  type : string;
  required : bool;
  loc : list key;
}.
End Var.

(** [Var(type="any", name=k, _loc=loc)]; the flag [required] is left at its
    default. *)
Definition Var_any (k : string) (loc : list key) : Var.t :=
  Var.mk k "any" false loc.

(** A Python function object: what introspection of its signature yields,
    and what calling it with keyword arguments does. *)
Record PyFunc : Type := {
  pf_vars : list Var.t;
  pf_call : gmap string value → result value;
}.

(** Modelled from the spec: [func_to_vars] of [fury.base] is not among the
    sources. It derives the field descriptors of a callable by introspecting
    its parameters. *)
Definition func_to_vars (fn : PyFunc) : list Var.t := pf_vars fn.

(** Modelled from the spec: the class [Model] of [fury.base] is not among the
    sources. Its attributes are the keyword arguments [ModelRegistry.register]
    builds it from. *)
Module Model.
Record t : Type := mk {
  collection_name : string;
  model_id : string;
  fn : PyFunc;
  description : string;
  vars : list Var.t;
  tags : list string;
}.
End Model.

(** The [fn] argument of an AI-action: a (JSON) value, which is a template
    when it is a [dict], or a function. *)
Inductive pyobj : Type :=
  | OValue (v : value)
  | OFunction (f : PyFunc).

Inductive source_kind : Type := JTYPE | FUNC.

Module AIAction.
Record t : Type := mk {
  node_id : string;
  model : Model.t;
  model_params : gmap string value;
  fn : pyobj;
  action_source : source_kind;
  fields : list Var.t;
  outputs : list (string * list key);
  (** [(raw, jinja2.Template(raw), keys)]; a compiled template is
      represented by its source text. *)
  templates : list (value * string * list key);
}.
End AIAction.

(** A copy of [base] followed by [.update(upd)]: the entries of [upd] win. *)
Definition dict_update (base upd : gmap string value) : gmap string value :=
  upd ∪ base.

(** [.update(d)] with the items of a [dict] value, in their order. *)
Definition dict_update_items (base : gmap string value)
    (d : list (string * value)) : gmap string value :=
  foldl (λ m kv, <[kv.1 := kv.2]> m) base d.

Section agent.
(** The template engine (the [jinja2] package and the helper of
    [fury.base] that lists the variables a template string refers to):
    [jinja_fields s] are the field descriptors of the placeholders of
    [s], empty when [s] holds no placeholder; [jinja_render s kw] is
    the rendering of the template [s] with the keyword arguments [kw]. *)
Variable jinja_fields : string → list Var.t.
Variable jinja_render : string → gmap string value → string.

(** [Model.__call__] of [fury.base]: the (result, error) pair a model
    gives for a parameter mapping. *)
Variable Model_call : Model.t → gmap string value → value * option exn.

Definition is_template (s : string) : bool :=
  match jinja_fields s with [] => false | _ :: _ => true end.

(** Modelled from the spec: [extract_jinja_indices] of [fury.base] is not
    among the sources. It scans a nested structure for placeholder
    occurrences and records, for each leaf that holds one, the nested path
    to the leaf and the variables it refers to. *)
Fixpoint extract_jinja_indices (data : value) (current_index : list key)
  : list (list key * list Var.t) :=
  match data with
  | VStr s =>
      if is_template s then [(current_index, jinja_fields s)] else []
  | VList l =>
      (fix go (l : list value) (i : nat) :=
         match l with
         | [] => []
         | x :: l' =>
             extract_jinja_indices x (current_index ++ [KIdx (Z.of_nat i)])
               ++ go l' (S i)
         end) l 0%nat
  | VDict d =>
      (fix go (d : list (string * value)) :=
         match d with
         | [] => []
         | (k, x) :: d' =>
             extract_jinja_indices x (current_index ++ [KStr k]) ++ go d'
         end) d
  | _ => []
  end.

(** The request the spec describes for template mode: the template with
    every placeholder leaf replaced by its rendered string, everything
    else as it is. *)
Fixpoint render_leaves (own : gmap string value) (v : value) : value :=
  match v with
  | VStr s => if is_template s then VStr (jinja_render s own) else VStr s
  | VList l => VList (map (render_leaves own) l)
  | VDict d => VDict (map (λ '(k, x), (k, render_leaves own x)) d)
  | _ => v
  end.

(** *** [AIAction.__init__] *)

(** The loop over [fields_with_locations]. *)
Fixpoint init_templates (fn : value) (fwl : list (list key * list Var.t))
    (fields : list Var.t) (templates : list (value * string * list key))
  : result (list Var.t * list (value * string * list key)) :=
  match fwl with
  | [] => Ok (fields, templates)
  | field :: rest =>
      let fields := fields ++ field.2 in
      match get_value_by_keys fn field.1 with
      | Some obj =>
          if truthy obj then
            match obj with
            | VStr s =>
                init_templates fn rest fields (templates ++ [(obj, s, field.1)])
            | _ => Raise (TypeError "Can't compile non template nodes")
            end
          else Raise (ValueError "Field not found in fn, but was extraced. There is a bug in get_value_by_keys function")
      | None => Raise (ValueError "Field not found in fn, but was extraced. There is a bug in get_value_by_keys function")
      end
  end.

Definition model_field_names (model : Model.t) : gset string :=
  list_to_set (Var.name <$> Model.vars model).

Definition AIAction_init (node_id : string) (model : Model.t)
    (model_params : gmap string value) (fn : pyobj)
    (outputs : list (string * list key)) : result AIAction.t :=
  let fields := model_field_names model in
  let mp_set := dom model_params in
  if negb (bool_decide (mp_set ⊆ fields)) then
    Raise (Exception "Model params not a subset of the model fields")
  else
    match fn with
    | OValue (VDict d) =>
        match init_templates (VDict d)
                (extract_jinja_indices (VDict d) []) [] [] with
        | Raise e => Raise e
        | Ok (fields, templates) =>
            Ok (AIAction.mk node_id model model_params fn JTYPE fields
                  outputs templates)
        end
    | OFunction f =>
        Ok (AIAction.mk node_id model model_params fn FUNC (func_to_vars f)
              outputs [])
    | OValue _ =>
        Raise (AssertionError "`fn` can either be a function or a string")
    end.

(** *** [AIAction.__call__] *)

(** The loop that moves the action's own fields from [data] to [_data]. *)
Fixpoint split_fields (node_id : string) (fields : list Var.t)
    (data _data : gmap string value)
  : result (gmap string value * gmap string value) :=
  match fields with
  | [] => Ok (data, _data)
  | f :: fs =>
      match data !! Var.name f with
      | None =>
          if Var.required f then
            Raise (Exception ("Field " +:+ Var.name f +:+ " is required in "
                                +:+ node_id +:+ " but not present"))
          else split_fields node_id fs data _data
      | Some v =>
          split_fields node_id fs (delete (Var.name f) data)
            (<[Var.name f := v]> _data)
      end
  end.

(** The loop over [self.templates] on the copy [fn_out]; [None] where
    [put_value_by_keys] cannot walk a path. *)
Fixpoint render_templates (templates : list (value * string * list key))
    (_data : gmap string value) (fn_out : value) : option value :=
  match templates with
  | [] => Some fn_out
  | (raw, t, keys) :: rest =>
      let value := jinja_render t _data in
      fn_out' ← put_value_by_keys fn_out keys (VStr value);
      render_templates rest _data fn_out'
  end.

(** What the two branches on [action_source] leave in [fn_out]: [inl] is
    the early return of function mode (empty string, error). *)
Definition produce_request (self : AIAction.t) (_data : gmap string value)
  : result (value * option exn + value) :=
  match AIAction.action_source self with
  | FUNC =>
      match AIAction.fn self with
      | OFunction f =>
          match pf_call f _data with
          | Raise e => Ok (inl (VStr "", Some e))
          | Ok (VDict d) => Ok (inr (VDict d))
          | Ok _ =>
              Ok (inl (VStr "",
                       Some (Exception ("AI Action preprocessor for "
                               +:+ AIAction.node_id self
                               +:+ " did not return a dict"))))
          end
      | OValue _ => Ok (inl (VStr "", Some (TypeError "object is not callable")))
      end
  | JTYPE =>
      match AIAction.fn self with
      | OValue fn =>
          (* fn_out = copy.deepcopy(self.fn): the writes below go to the
             copy, [AIAction.fn self] is read only. *)
          match render_templates (AIAction.templates self) _data fn with
          | Some fn_out => Ok (inr fn_out)
          | None => Raise (TypeError "put_value_by_keys: path not found")
          end
      | OFunction _ =>
          Raise (TypeError "put_value_by_keys: path not found")
      end
  end.

(** [model_final_params]: the static parameters, updated with what is left
    of the payload, updated with the produced request. *)
Definition model_final_params (self : AIAction.t)
    (data : gmap string value) (fn_out : list (string * value))
  : gmap string value :=
  dict_update_items (dict_update (AIAction.model_params self) data) fn_out.

Definition AIAction_call (self : AIAction.t) (data : gmap string value)
  : result (value * option exn) :=
  match split_fields (AIAction.node_id self) (AIAction.fields self) data ∅ with
  | Raise e => Raise e
  | Ok (data, _data) =>
      match produce_request self _data with
      | Raise e => Raise e
      | Ok (inl early) => Ok early
      | Ok (inr (VDict fn_out)) =>
          let '(out, err) :=
            Model_call (AIAction.model self)
              (model_final_params self data fn_out) in
          match err with
          | Some e => Ok (VStr "", Some e)
          | None => Ok (out, None)
          end
      | Ok (inr _) => Raise (TypeError "object is not iterable")
      end
  end.

End agent.

(** ** Nodes *)

(** What a node runs: a plain function or an AI-action (a callable
    object). *)
Inductive callable : Type :=
  | CFunction (f : PyFunc)
  | CAIAction (a : AIAction.t).

Inductive node_type : Type := PROGRAMATIC | AI | MODEL.

(** The [outputs] of a node. The programmatic registry and the AI registry
    with declared outputs store a list of field descriptors; the AI registry
    without declared outputs stores a list whose single element is the list
    [func_to_return_vars] gave. *)
Inductive node_outputs : Type :=
  | OutFields (l : list Var.t)
  | OutNested (l : list (list Var.t)).

(** Modelled from the spec: the class [Node] of [fury.base] is not among the
    sources. Its attributes are the keyword arguments the registries build
    it from: id, kind tag, callable, description, input fields, outputs. *)
Module Node.
Record t : Type := mk {
  id : string;
  type : node_type;
  fn : callable;
  description : string;
  fields : list Var.t;
  outputs : node_outputs;
}.
End Node.

(** ** State and exceptions

    A method is a function from the state before the call to the state
    after it and the [result]; a [raise] keeps what was written before
    it. *)

Definition M (S A : Type) : Type := S → S * result A.

Definition ret {S A} (a : A) : M S A := λ s, (s, Ok a).
Definition raise {S A} (e : exn) : M S A := λ s, (s, Raise e).
Definition bind {S A B} (m : M S A) (f : A → M S B) : M S B :=
  λ s, match m s with
       | (s', Ok a) => f a s'
       | (s', Raise e) => (s', Raise e)
       end.
Definition get_state {S} : M S S := λ s, (s, Ok s).
Definition modify {S} (f : S → S) : M S unit := λ s, (f s, Ok tt).

(** [try: m except <classes accepted by catch>: h]. *)
Definition try_except {S A} (m : M S A) (catch : exn → bool) (h : exn → M S A)
  : M S A :=
  λ s, match m s with
       | (s', Ok a) => (s', Ok a)
       | (s', Raise e) => if catch e then h e s' else (s', Raise e)
       end.

(** Run a method of a component of the state. *)
Definition zoom {S T A} (proj : S → T) (upd : T → S → S) (m : M T A) : M S A :=
  λ s, let '(t', r) := m (proj s) in (upd t' s, r).

Notation "'let*' x ':=' m 'in' k" := (bind m (λ x, k))
  (at level 10, x pattern, m at level 100, k at level 200).
Notation "m ';;' k" := (bind m (λ _, k))
  (at level 100, k at level 200, right associativity).

(** [for x in l: body x]. *)
Fixpoint for_each {S A} (l : list A) (body : A → M S unit) : M S unit :=
  match l with
  | [] => ret tt
  | x :: l' => body x ;; for_each l' body
  end.

Definition is_ValueError (e : exn) : bool :=
  match e with ValueError _ => true | _ => false end.

(** ** The registries *)

(** [index[tag] = index.get(tag, []) + [id]]. *)
Definition add_tag (id : string) (index : gmap string (list string))
    (tag : string) : gmap string (list string) :=
  <[tag := default [] (index !! tag) ++ [id]]> index.

(** [{x: () for x in returns}]: a name that comes again keeps its place. *)
Definition returns_to_outputs (returns : list string)
  : list (string * list key) :=
  foldl (λ d x, if bool_decide (x ∈ d.*1) then d else d ++ [(x, [])]) [] returns.

Module ModelRegistry.
Record t : Type := mk {
  models : gmap string Model.t;
  counter : gmap string nat;
  tags_to_models : gmap string (list string);
}.
Definition init : t := mk ∅ ∅ ∅.
Definition set_models (f : gmap string Model.t → gmap string Model.t)
    (self : t) : t :=
  mk (f (models self)) (counter self) (tags_to_models self).
Definition set_counter (f : gmap string nat → gmap string nat)
    (self : t) : t :=
  mk (models self) (f (counter self)) (tags_to_models self).
Definition set_tags_to_models
    (f : gmap string (list string) → gmap string (list string))
    (self : t) : t :=
  mk (models self) (counter self) (f (tags_to_models self)).
End ModelRegistry.

Module ProgramaticActionsRegistry.
Record t : Type := mk {
  nodes : gmap string Node.t;
  counter : gmap string nat;
  tags_to_nodes : gmap string (list string);
}.
Definition init : t := mk ∅ ∅ ∅.
Definition set_nodes (f : gmap string Node.t → gmap string Node.t)
    (self : t) : t :=
  mk (f (nodes self)) (counter self) (tags_to_nodes self).
Definition set_counter (f : gmap string nat → gmap string nat)
    (self : t) : t :=
  mk (nodes self) (f (counter self)) (tags_to_nodes self).
Definition set_tags_to_nodes
    (f : gmap string (list string) → gmap string (list string))
    (self : t) : t :=
  mk (nodes self) (counter self) (f (tags_to_nodes self)).
End ProgramaticActionsRegistry.

Module AIActionsRegistry.
Record t : Type := mk {
  nodes : gmap string Node.t;
  counter : gmap string nat;
  tags_to_nodes : gmap string (list string);
}.
Definition init : t := mk ∅ ∅ ∅.
Definition set_nodes (f : gmap string Node.t → gmap string Node.t)
    (self : t) : t :=
  mk (f (nodes self)) (counter self) (tags_to_nodes self).
Definition set_counter (f : gmap string nat → gmap string nat)
    (self : t) : t :=
  mk (nodes self) (f (counter self)) (tags_to_nodes self).
Definition set_tags_to_nodes
    (f : gmap string (list string) → gmap string (list string))
    (self : t) : t :=
  mk (nodes self) (counter self) (f (tags_to_nodes self)).
End AIActionsRegistry.

(** The module-level singletons [model_registry],
    [programatic_actions_registry] and [ai_actions_registry]. *)
Record World : Type := mkWorld {
  model_registry : ModelRegistry.t;
  programatic_actions_registry : ProgramaticActionsRegistry.t;
  ai_actions_registry : AIActionsRegistry.t;
}.

Definition on_model_registry {A} : M ModelRegistry.t A → M World A :=
  zoom model_registry
    (λ r w, mkWorld r (programatic_actions_registry w) (ai_actions_registry w)).
Definition on_programatic_actions_registry {A}
  : M ProgramaticActionsRegistry.t A → M World A :=
  zoom programatic_actions_registry
    (λ r w, mkWorld (model_registry w) r (ai_actions_registry w)).
Definition on_ai_actions_registry {A} : M AIActionsRegistry.t A → M World A :=
  zoom ai_actions_registry
    (λ r w, mkWorld (model_registry w) (programatic_actions_registry w) r).

Section registries.
Variable jinja_fields : string → list Var.t.

(** [func_to_return_vars] of [fury.base]: the output field descriptors of
    a callable for a caller-declared return-shape mapping. *)
Variable func_to_return_vars :
  callable → list (string * list key) → list Var.t.

(** [Model.to_dict] and [Node.to_dict] of [fury.base]. *)
Variable Model_to_dict : Model.t → value.
Variable Node_to_dict : Node.t → value.

(** *** [ModelRegistry] *)

Definition ModelRegistry_has (model_id : string) (self : ModelRegistry.t)
  : bool :=
  bool_decide (is_Some (ModelRegistry.models self !! model_id)).

Definition ModelRegistry_register (fn : PyFunc) (collection_name : string)
    (model_id : string) (description : string) (tags : list string)
  : M ModelRegistry.t unit :=
  let id := model_id in
  let* self := get_state in
  if bool_decide (is_Some (ModelRegistry.models self !! id)) then
    raise (Exception ("Model " +:+ model_id +:+ " already registered"))
  else
    modify (ModelRegistry.set_models
              (insert id (Model.mk collection_name model_id fn description
                            (func_to_vars fn) tags))) ;;
    for_each tags (λ tag,
      modify (ModelRegistry.set_tags_to_models (λ index, add_tag id index tag))).

Definition ModelRegistry_get_tags (self : ModelRegistry.t) : list string :=
  (map_to_list (ModelRegistry.tags_to_models self)).*1.

Definition ModelRegistry_get_models (tag : string) (self : ModelRegistry.t)
  : list value :=
  (λ kv, VDict [(kv.1, Model_to_dict kv.2)])
    <$> map_to_list (ModelRegistry.models self).

Definition ModelRegistry_get (model_id : string)
  : M ModelRegistry.t Model.t :=
  modify (ModelRegistry.set_counter (λ counter,
    <[model_id := (default 0 (counter !! model_id) + 1)%nat]> counter)) ;;
  let* self := get_state in
  match ModelRegistry.models self !! model_id with
  | None => raise (ValueError ("Model " +:+ model_id +:+ " not found"))
  | Some out => ret out
  end.

Definition ModelRegistry_get_count_for_model (model_id : string)
    (self : ModelRegistry.t) : nat :=
  default 0%nat (ModelRegistry.counter self !! model_id).

(** *** [ProgramaticActionsRegistry] *)

Definition ProgramaticActionsRegistry_register (fn : PyFunc)
    (node_id : string) (description : string) (returns : list string)
    (outputs : option (list (string * list key))) (tags : list string)
  : M ProgramaticActionsRegistry.t Node.t :=
  let* self := get_state in
  if bool_decide (is_Some (ProgramaticActionsRegistry.nodes self !! node_id)) then
    raise (Exception ("Node '" +:+ node_id +:+ "' already registered"))
  else
    let* outputs :=
      match outputs with
      | Some (o :: os) => ret (o :: os)
      | _ =>
          match returns with
          | [] => raise (AssertionError
                    "If outputs is not provided then returns must be provided")
          | _ => ret (returns_to_outputs returns)
          end
      end in
    let ops := func_to_return_vars (CFunction fn) outputs in
    let node := Node.mk node_id PROGRAMATIC (CFunction fn) description
                  (func_to_vars fn) (OutFields ops) in
    modify (ProgramaticActionsRegistry.set_nodes (insert node_id node)) ;;
    for_each tags (λ tag,
      modify (ProgramaticActionsRegistry.set_tags_to_nodes
                (λ index, add_tag node_id index tag))) ;;
    let* self := get_state in
    match ProgramaticActionsRegistry.nodes self !! node_id with
    | Some n => ret n
    | None => raise (KeyError node_id)
    end.

Definition ProgramaticActionsRegistry_get_tags
    (self : ProgramaticActionsRegistry.t) : list string :=
  (map_to_list (ProgramaticActionsRegistry.tags_to_nodes self)).*1.

Definition ProgramaticActionsRegistry_get_nodes (tag : string)
    (self : ProgramaticActionsRegistry.t) : list value :=
  (λ kv, VDict [(kv.1, Node_to_dict kv.2)])
    <$> map_to_list (ProgramaticActionsRegistry.nodes self).

Definition ProgramaticActionsRegistry_get (node_id : string)
  : M ProgramaticActionsRegistry.t Node.t :=
  modify (ProgramaticActionsRegistry.set_counter (λ counter,
    <[node_id := (default 0 (counter !! node_id) + 1)%nat]> counter)) ;;
  let* self := get_state in
  match ProgramaticActionsRegistry.nodes self !! node_id with
  | None => raise (ValueError ("p-node '" +:+ node_id +:+ "' not found"))
  | Some out => ret out
  end.

Definition ProgramaticActionsRegistry_get_count_for_nodes (node_id : string)
    (self : ProgramaticActionsRegistry.t) : nat :=
  default 0%nat (ProgramaticActionsRegistry.counter self !! node_id).

(** *** [AIActionsRegistry] *)

(** [AIAction(...)] inside a method: a failing construction raises. *)
Definition new_AIAction {S} (node_id : string) (model : Model.t)
    (model_params : gmap string value) (fn : pyobj)
    (outputs : list (string * list key)) : M S AIAction.t :=
  match AIAction_init jinja_fields node_id model model_params fn outputs with
  | Ok a => ret a
  | Raise e => raise e
  end.

Definition AIActionsRegistry_register (node_id : string) (model_id : string)
    (model_params : gmap string value) (fn : pyobj)
    (outputs : list (string * list key)) (description : string)
    (tags : list string) : M World Node.t :=
  let* model := on_model_registry (ModelRegistry_get model_id) in
  let* ai_action := new_AIAction node_id model model_params fn outputs in
  let output_field :=
    match outputs with
    | [] => OutNested
              [func_to_return_vars (CAIAction ai_action) [("model_output", [])]]
    | _ => OutFields ((λ kl, Var_any kl.1 kl.2) <$> outputs)
    end in
  let node := Node.mk node_id AI (CAIAction ai_action) description
                (AIAction.fields ai_action ++ Model.vars model) output_field in
  on_ai_actions_registry (
    modify (AIActionsRegistry.set_nodes (insert node_id node)) ;;
    for_each tags (λ tag,
      modify (AIActionsRegistry.set_tags_to_nodes
                (λ index, add_tag node_id index tag))) ;;
    let* self := get_state in
    match AIActionsRegistry.nodes self !! node_id with
    | Some n => ret n
    | None => raise (KeyError node_id)
    end).

Definition AIActionsRegistry_get_tags (self : AIActionsRegistry.t)
  : list string :=
  (map_to_list (AIActionsRegistry.tags_to_nodes self)).*1.

Definition AIActionsRegistry_get_nodes (tag : string)
    (self : AIActionsRegistry.t) : list value :=
  (λ kv, VDict [(kv.1, Node_to_dict kv.2)])
    <$> map_to_list (AIActionsRegistry.nodes self).

Definition AIActionsRegistry_get (node_id : string)
  : M AIActionsRegistry.t Node.t :=
  modify (AIActionsRegistry.set_counter (λ counter,
    <[node_id := (default 0 (counter !! node_id) + 1)%nat]> counter)) ;;
  let* self := get_state in
  match AIActionsRegistry.nodes self !! node_id with
  | None => raise (ValueError ("ai-node '" +:+ node_id +:+ "' not found"))
  | Some out => ret out
  end.

Definition AIActionsRegistry_get_count_for_nodes (node_id : string)
    (self : AIActionsRegistry.t) : nat :=
  default 0%nat (AIActionsRegistry.counter self !! node_id).

End registries.

(** ** The client: [chainfury/client.py] *)

(** The character [/]. *)
Definition slash : Ascii.ascii := Ascii.ascii_of_nat 47.

(** [s.rstrip("/")]. *)
Fixpoint rstrip_slash (s : string) : string :=
  match s with
  | EmptyString => EmptyString
  | String c s' =>
      match rstrip_slash s' with
      | EmptyString => if Ascii.eqb c slash then EmptyString else String c EmptyString
      | r => String c r
      end
  end.

(** [s.split("/")]. *)
Fixpoint split_slash (s : string) : list string :=
  match s with
  | EmptyString => [EmptyString]
  | String c s' =>
      if Ascii.eqb c slash then EmptyString :: split_slash s'
      else match split_slash s' with
           | [] => [String c EmptyString]
           | p :: ps => String c p :: ps
           end
  end.

Module Subway.
(** The session is represented by the token it sends. *)
Record t : Type := mk {
  _url : string;
  _session : string;
}.
(** [Subway.__init__]. *)
Definition init (_url : string) (_session : string) : t :=
  mk (rstrip_slash _url) _session.
(** [Subway.__getattr__], and [Subway.u] for a name that the normal
    attribute lookup does not find on a stub. *)
Definition getattr (self : t) (attr : string) : t :=
  init (_url self +:+ "/" +:+ attr) (_session self).
Definition u (self : t) (attr : string) : t := getattr self attr.
End Subway.

(** Modelled from the spec: the types of [chainfury.types] are not among the
    sources. The fetched structure is
    [{nodes, edges, sample, main_in, main_out}]; every node carries an
    inline body [cf_data] or a reference id [cf_id], every edge carries
    [source], [target], [sourceHandle], [targetHandle]. *)
Module FENode.
Record t : Type := mk {
  id : string;
  cf_id : string;
  cf_data : value;
}.
End FENode.

Module DagEdge.
Record t : Type := mk {
  source : string;
  target : string;
  sourceHandle : string;
  targetHandle : string;
}.
End DagEdge.

Module Dag.
Record t : Type := mk {
  nodes : list FENode.t;
  edges : list DagEdge.t;
  sample : list (string * value);
  main_in : string;
  main_out : string;
}.
End Dag.

(** Modelled from the spec: the validation done by the constructors of
    [chainfury.types]. An absent (or null) field takes the empty default, a
    field of another type is a validation error. *)
Definition field_str (d : list (string * value)) (k : string) : result string :=
  match dict_get k d with
  | None | Some VNone => Ok EmptyString
  | Some (VStr s) => Ok s
  | Some _ => Raise (ValueError ("validation error for " +:+ k))
  end.

Definition field_dict (d : list (string * value)) (k : string)
  : result (list (string * value)) :=
  match dict_get k d with
  | None | Some VNone => Ok []
  | Some (VDict x) => Ok x
  | Some _ => Raise (ValueError ("validation error for " +:+ k))
  end.

Definition field_list (d : list (string * value)) (k : string)
  : result (list value) :=
  match dict_get k d with
  | None | Some VNone => Ok []
  | Some (VList x) => Ok x
  | Some _ => Raise (ValueError ("validation error for " +:+ k))
  end.

Definition result_bind {A B} (r : result A) (f : A → result B) : result B :=
  match r with Ok a => f a | Raise e => Raise e end.

Fixpoint result_map {A B} (f : A → result B) (l : list A) : result (list B) :=
  match l with
  | [] => Ok []
  | x :: l' =>
      result_bind (f x) (λ y, result_bind (result_map f l') (λ ys, Ok (y :: ys)))
  end.

Definition FENode_parse (v : value) : result FENode.t :=
  match v with
  | VDict d =>
      result_bind (field_str d "id") (λ id,
      result_bind (field_str d "cf_id") (λ cf_id,
      Ok (FENode.mk id cf_id (default VNone (dict_get "cf_data" d)))))
  | _ => Raise (ValueError "validation error for nodes")
  end.

Definition DagEdge_parse (v : value) : result DagEdge.t :=
  match v with
  | VDict d =>
      result_bind (field_str d "source") (λ source,
      result_bind (field_str d "target") (λ target,
      result_bind (field_str d "sourceHandle") (λ sourceHandle,
      result_bind (field_str d "targetHandle") (λ targetHandle,
      Ok (DagEdge.mk source target sourceHandle targetHandle)))))
  | _ => Raise (ValueError "validation error for edges")
  end.

(** Modelled from the spec: the constructor of [Dag] applied to the items of
    the fetched [dag] mapping. *)
Definition Dag_parse (d : list (string * value)) : result Dag.t :=
  result_bind (field_list d "nodes") (λ ns,
  result_bind (result_map FENode_parse ns) (λ nodes,
  result_bind (field_list d "edges") (λ es,
  result_bind (result_map DagEdge_parse es) (λ edges,
  result_bind (field_dict d "sample") (λ sample,
  result_bind (field_str d "main_in") (λ main_in,
  result_bind (field_str d "main_out") (λ main_out,
  Ok (Dag.mk nodes edges sample main_in main_out)))))))).

(** A request to the remote service: method and url. *)
Definition request : Type := string * string.

(** The state the client works on: the registries of the process and the
    requests sent so far. *)
Record Client : Type := mkClient {
  world : World;
  requests : list request;
}.

Definition on_world {A} : M World A → M Client A :=
  zoom world (λ w c, mkClient w (requests c)).

Definition lift_result {S A} (r : result A) : M S A :=
  match r with Ok a => ret a | Raise e => raise e end.

Definition str_truthy (s : string) : bool := negb (String.eqb s EmptyString).

Section client.
(** The environment variables [CF_URL] and [CF_TOKEN] (empty when
    unset). *)
Variable CF_URL CF_TOKEN : string.

(** The remote service: what [Subway.__call__] returns (body, is_error)
    for a request, given the requests sent before it. *)
Variable remote : list request → request → value * bool.

(** [Node.from_dict], [Edge.from_dict] and the constructor of [Chain], of
    [chainfury.base]. *)
Variable Node_from_dict : value → result Node.t.
Variable Edge : Type.
Variable Edge_from_dict : DagEdge.t → result Edge.
Variable Chain : Type.
Variable Chain_init :
  list Node.t → list Edge → list (string * value) → string → string →
  result Chain.

(** [Subway.__call__] with the default arguments: a [get] of the url. *)
Definition Subway_call (self : Subway.t) : M Client (value * bool) :=
  λ c, let req : request := ("get", Subway._url self) in
       (mkClient (world c) (requests c ++ [req]), Ok (remote (requests c) req)).

(** The body of [get_client], for a prefix whose segments the normal
    attribute lookup does not find on a stub; the cache in front of it
    holds what it returned. *)
Definition get_client (prefix url token : string) : result Subway.t :=
  let url := if str_truthy url then url else CF_URL in
  if negb (str_truthy url) then
    Raise (ValueError "No url provided, please set CF_URL environment variable or pass url as argument")
  else
    let token := if str_truthy token then token else CF_TOKEN in
    if negb (str_truthy token) then
      Raise (ValueError "No token provided, please set CF_TOKEN environment variable or pass token as argument")
    else
      Ok (foldl Subway.getattr (Subway.init url token) (split_slash prefix)).

(** The three lookups that follow an unresolved [cf_action]: the AI
    registry, the programmatic registry, the remote service. *)
Definition lookup_ai (cf_id : string) : M Client (option Node.t) :=
  try_except
    (let* n := on_world (on_ai_actions_registry (AIActionsRegistry_get cf_id)) in
     ret (Some n))
    is_ValueError (λ _, ret None).

Definition lookup_programatic (cf_id : string) : M Client (option Node.t) :=
  try_except
    (let* n := on_world (on_programatic_actions_registry
                           (ProgramaticActionsRegistry_get cf_id)) in
     ret (Some n))
    is_ValueError (λ _, ret None).

Definition lookup_remote (stub : Subway.t) (cf_id : string)
  : M Client Node.t :=
  try_except
    (let* r :=
       Subway_call (Subway.u (Subway.getattr (Subway.getattr stub "fury") "actions") cf_id) in
     let '(action, err) := r in
     if err : bool then
       raise (ValueError ("Action " +:+ cf_id +:+ " not loaded"))
     else lift_result (Node_from_dict action))
    (λ _, true)
    (λ _, raise (ValueError ("Action " +:+ cf_id +:+ " not found"))).

Definition set_id (id : string) (n : Node.t) : Node.t :=
  Node.mk id (Node.type n) (Node.fn n) (Node.description n) (Node.fields n)
    (Node.outputs n).

(** The loop over [dag.nodes]; [actions_map] and [nodes] are its local
    variables. Whatever resolves a node is a [Node] here, so the conversion
    of other objects with [Node.from_dict] does not apply. The nodes are
    followed as values: the id is written on a copy, which shows the
    errors, the lookups and the requests of the loop, not what the write
    does to an object that a registry or [actions_map] holds too. That is
    followed by [resolve_node_objects] below. *)
Fixpoint resolve_nodes (stub : Subway.t) (dag_nodes : list FENode.t)
    (actions_map : gmap string Node.t) (nodes : list Node.t)
  : M Client (list Node.t) :=
  match dag_nodes with
  | [] => ret nodes
  | node :: rest =>
      let cf_id := FENode.cf_id node in
      let cf_data := FENode.cf_data node in
      if negb (str_truthy cf_id) && negb (truthy cf_data) then
        raise (ValueError ("Action " +:+ FENode.id node +:+ " has no cf_id or cf_data"))
      else
        let* cf_action :=
          if truthy cf_data then
            let* n := lift_result (Node_from_dict cf_data) in ret (Some n)
          else ret (actions_map !! cf_id) in
        let* cf_action :=
          match cf_action with
          | Some n => ret (Some n)
          | None => lookup_ai cf_id
          end in
        let* cf_action :=
          match cf_action with
          | Some n => ret (Some n)
          | None => lookup_programatic cf_id
          end in
        let* r :=
          match cf_action with
          | Some n => ret (n, actions_map)
          | None =>
              let* n := lookup_remote stub cf_id in
              ret (n, <[cf_id := n]> actions_map)
          end in
        let '(cf_action, actions_map) := r in
        resolve_nodes stub rest actions_map
          (nodes ++ [set_id (FENode.id node) cf_action])
  end.

(** The loop over [dag.edges]. *)
Fixpoint build_edges (dag_edges : list DagEdge.t) (edges : list Edge)
  : result (list Edge) :=
  match dag_edges with
  | [] => Ok edges
  | edge :: rest =>
      if negb (str_truthy (DagEdge.source edge) && str_truthy (DagEdge.target edge)
               && str_truthy (DagEdge.sourceHandle edge)
               && str_truthy (DagEdge.targetHandle edge)) then
        Raise (ValueError "Invalid edge")
      else
        result_bind (Edge_from_dict edge) (λ e, build_edges rest (edges ++ [e]))
  end.

Definition get_chain_from_id (id : string) : M Client Chain :=
  let* stub := lift_result (get_client "api/v1" "" "") in
  let* r := Subway_call (Subway.u (Subway.getattr stub "chatbot") id) in
  let '(chain, err) := r in
  if err : bool then
    raise (ValueError ("Could not get chain with id " +:+ id))
  else
    let* dag :=
      match get_item chain (KStr "dag") with
      | Some (VDict d) => lift_result (Dag_parse d)
      | Some _ => raise (TypeError "argument after ** must be a mapping")
      | None => raise (KeyError "dag")
      end in
    if negb (truthy (VDict (Dag.sample dag))) then
      raise (ValueError "Dag has no sample")
    else if negb (str_truthy (Dag.main_in dag)) then
      raise (ValueError "Dag has no main_in")
    else if negb (str_truthy (Dag.main_out dag)) then
      raise (ValueError "Dag has no main_out")
    else
      let* nodes := resolve_nodes stub (Dag.nodes dag) ∅ [] in
      let* edges := lift_result (build_edges (Dag.edges dag) []) in
      lift_result (Chain_init nodes edges (Dag.sample dag) (Dag.main_in dag)
                     (Dag.main_out dag)).

End client.

(** ** A small instance of the external parts, for the examples

    A template engine that knows [{{ name }}] only, a model that answers
    what its function answers, and field descriptors that carry a name and a
    path. *)

Inductive segment : Type :=
  | Lit (c : Ascii.ascii)
  | Hole (name : string).

Inductive scan_state : Type :=
  | Outside
  | Opening
  | Inside (acc : string)
  | Closing (acc : string).

Definition lbrace : Ascii.ascii := Ascii.ascii_of_nat 123.
Definition rbrace : Ascii.ascii := Ascii.ascii_of_nat 125.
Definition space : Ascii.ascii := Ascii.ascii_of_nat 32.

Fixpoint scan (st : scan_state) (s : string) : list segment :=
  match s with
  | EmptyString =>
      match st with Opening => [Lit lbrace] | _ => [] end
  | String c s' =>
      match st with
      | Outside =>
          if Ascii.eqb c lbrace then scan Opening s' else Lit c :: scan Outside s'
      | Opening =>
          if Ascii.eqb c lbrace then scan (Inside EmptyString) s'
          else Lit lbrace :: Lit c :: scan Outside s'
      | Inside acc =>
          if Ascii.eqb c rbrace then scan (Closing acc) s'
          else if Ascii.eqb c space then scan (Inside acc) s'
          else scan (Inside (acc +:+ String c EmptyString)) s'
      | Closing acc =>
          if Ascii.eqb c rbrace then Hole acc :: scan Outside s'
          else scan (Inside (acc +:+ String rbrace (String c EmptyString))) s'
      end
  end.

Fixpoint holes (l : list segment) : list string :=
  match l with
  | [] => []
  | Lit _ :: l' => holes l'
  | Hole n :: l' => n :: holes l'
  end.

(** The placeholders of a template, each name once for the template, as
    required fields: an invocation without one of them is reported by the
    field loop of the call. *)
Definition simple_fields (s : string) : list Var.t :=
  (λ n, Var.mk n "string" true []) <$> remove_dups (holes (scan Outside s)).

Fixpoint fill (kw : gmap string value) (l : list segment) : string :=
  match l with
  | [] => EmptyString
  | Lit c :: l' => String c (fill kw l')
  | Hole n :: l' =>
      match kw !! n with
      | Some (VStr v) => v +:+ fill kw l'
      | _ => fill kw l'
      end
  end.

Definition simple_render (s : string) (kw : gmap string value) : string :=
  fill kw (scan Outside s).

Definition simple_return_vars (c : callable) (returns : list (string * list key))
  : list Var.t :=
  (λ kl, Var_any kl.1 kl.2) <$> returns.

(** A model is called with the merged parameters as keyword arguments; an
    exception of the function becomes the error of the pair. *)
Definition simple_Model_call (m : Model.t) (params : gmap string value)
  : value * option exn :=
  match pf_call (Model.fn m) params with
  | Ok out => (out, None)
  | Raise e => (VStr "traceback", Some e)
  end.

Definition var_text : Var.t := Var.mk "text" "string" true [].

(** The model [echo] of the scenarios: one field [say], and the function
    answers with what it was told to say. *)
Definition echo_fn : PyFunc :=
  {| pf_vars := [Var.mk "say" "string" false []];
     pf_call := λ kw, Ok (VDict [("said", default VNone (kw !! "say"))]) |}.

Definition echo : Model.t :=
  Model.mk "demo" "echo" echo_fn "echoes" (func_to_vars echo_fn) [].

(** A model whose backend fails after it produced a partial answer. *)
Definition flaky : Model.t :=
  Model.mk "demo" "flaky" echo_fn "fails" (func_to_vars echo_fn) [].

Definition flaky_Model_call (m : Model.t) (params : gmap string value)
  : value * option exn :=
  (VStr "partial answer", Some (Exception "backend down")).

(** ** Statements about the registries and the AI-action *)

(** Two successive lookups of [id] in state [s] both give [e], and each
    adds one to the count of [id]. *)
Definition get_twice {S E : Type} (get : string → M S E)
    (count : string → S → nat) (s : S) (id : string) (e : E) : Prop :=
  ∃ s1 s2,
    get id s = (s1, Ok e) ∧ get id s1 = (s2, Ok e) ∧
    count id s1 = (count id s + 1)%nat ∧ count id s2 = (count id s1 + 1)%nat ∧
    count id s2 = (count id s + 2)%nat.

(** A lookup of [id] in state [s] raises [ValueError]. *)
Definition get_not_found {S E : Type} (get : string → M S E) (s : S)
    (id : string) : Prop :=
  ∃ s1 msg, get id s = (s1, Raise (ValueError msg)).

(** A lookup of [id] in state [s] raises [ValueError], and the state it
    leaves counts one more lookup of [id] than [s]. *)
Definition failed_get_counts {S E : Type} (get : string → M S E)
    (count : string → S → nat) (s : S) (id : string) : Prop :=
  ∃ s1 msg,
    get id s = (s1, Raise (ValueError msg)) ∧
    count id s1 = (count id s + 1)%nat ∧ s1 ≠ s.

(** The list [l] has one single-key entry for every id of the table. *)
Definition lists_every_id {E : Type} (entries : gmap string E) (l : list value)
  : Prop :=
  length l = size entries ∧
  ∀ id, is_Some (entries !! id) ↔ ∃ v, VDict [(id, v)] ∈ l.

(** A process in which the model [echo] is registered, and then the
    AI-action [greet] under the tag [chat]. *)
Definition world0 : World :=
  mkWorld ModelRegistry.init ProgramaticActionsRegistry.init
    AIActionsRegistry.init.

Definition world1 : World :=
  (on_model_registry (ModelRegistry_register echo_fn "demo" "echo" "echoes" [])
     world0).1.

Definition greet_template : pyobj :=
  OValue (VDict [("say", VStr "{{text}}")]).

Definition world2 : World :=
  (AIActionsRegistry_register simple_fields simple_return_vars
     "greet" "echo" ∅ greet_template [] "first" ["chat"] world1).1.

(** Every key of [model_params] is the name of a field of the model. *)
Definition params_subset (model_params : gmap string value) (model : Model.t)
  : Prop :=
  ∀ k, is_Some (model_params !! k) → k ∈ Var.name <$> Model.vars model.

Definition not_a_subset : exn :=
  Exception "Model params not a subset of the model fields".


Section call.
Variable jinja_render : string → gmap string value → string.
Variable Model_call : Model.t → gmap string value → value * option exn.

(** The invocation of [self] with [payload] gets as far as the call of
    the model: the field loop leaves [data] and [_data], and the request
    [fn_out] is produced. *)
Definition reaches_model (self : AIAction.t) (payload : gmap string value)
    (data _data : gmap string value) (fn_out : list (string * value)) : Prop :=
  split_fields (AIAction.node_id self) (AIAction.fields self) payload ∅
    = Ok (data, _data) ∧
  produce_request jinja_render self _data = Ok (inr (VDict fn_out)).

(** What C6 claims of one invocation: the pair of the model comes back as
    it is. *)
Definition propagates_model_pair (self : AIAction.t)
    (payload : gmap string value) : Prop :=
  ∀ data _data fn_out out e,
    reaches_model self payload data _data fn_out →
    Model_call (AIAction.model self) (model_final_params self data fn_out)
      = (out, Some e) →
    AIAction_call jinja_render Model_call self payload = Ok (out, Some e).

(** What C2 claims of one invocation: a mapping from every declared output
    name to the value at its path in the raw result, or the raw result
    under [model_output] when no output is declared. *)
Definition returns_declared_outputs (self : AIAction.t)
    (payload : gmap string value) : Prop :=
  ∀ data _data fn_out out,
    reaches_model self payload data _data fn_out →
    Model_call (AIAction.model self) (model_final_params self data fn_out)
      = (out, None) →
    match AIAction.outputs self with
    | [] =>
        AIAction_call jinja_render Model_call self payload
        = Ok (VDict [("model_output", out)], None)
    | outputs =>
        ∃ res,
          AIAction_call jinja_render Model_call self payload
          = Ok (VDict res, None) ∧
          ∀ k loc, (k, loc) ∈ outputs →
                   dict_get k res = get_value_by_keys out loc
    end.
End call.

(** ** Actions of the examples *)

(** The AI-action [greet] over the model [echo]: the template says the text
    of the payload. *)
Definition greet_action : AIAction.t :=
  AIAction.mk "greet" echo ∅ greet_template JTYPE
    [Var.mk "text" "string" true []] []
    [(VStr "{{text}}", "{{text}}", [KStr "say"])].

(** The same action, declaring the output [reply] at the path [said] of the
    answer of the model. *)
Definition reply_action : AIAction.t :=
  AIAction.mk "reply" echo ∅ greet_template JTYPE
    [Var.mk "text" "string" true []] [("reply", [KStr "said"])]
    [(VStr "{{text}}", "{{text}}", [KStr "say"])].

(** The same action over the failing model, with a static parameter. *)
Definition flaky_action : AIAction.t :=
  AIAction.mk "greet" flaky ∅ greet_template JTYPE
    [Var.mk "text" "string" true []] []
    [(VStr "{{text}}", "{{text}}", [KStr "say"])].

Definition hi_payload : gmap string value := {["text" := VStr "hi"]}.

(** An action with a static parameter [say] and a static parameter [tone],
    called with a payload that overrides [tone] and also carries [say]. *)
Definition tone_model : Model.t :=
  Model.mk "demo" "tone" echo_fn "echoes"
    [Var.mk "say" "string" false []; Var.mk "tone" "string" false []] [].

Definition tone_action : AIAction.t :=
  AIAction.mk "greet" tone_model
    {["say" := VStr "static"; "tone" := VStr "flat"]} greet_template JTYPE
    [Var.mk "text" "string" true []] []
    [(VStr "{{text}}", "{{text}}", [KStr "say"])].

Definition tone_payload : gmap string value :=
  {["text" := VStr "hi"; "tone" := VStr "warm"; "say" := VStr "payload"]}.

(** The node that the registration of [reply_action] gives. *)
Definition reply_node : Node.t :=
  Node.mk "reply" AI (CAIAction reply_action) "replies"
    (AIAction.fields reply_action ++ Model.vars echo)
    (OutFields [Var_any "reply" [KStr "said"]]).

Definition world_reply : World :=
  (AIActionsRegistry_register simple_fields simple_return_vars
     "reply" "echo" ∅ greet_template [("reply", [KStr "said"])] "replies" []
     world1).1.

(** ** Fetched chain definitions *)

(** The fetched mapping [d] lacks the field [k]: the key is absent, or its
    value is null or empty. *)
Definition lacks (d : list (string * value)) (k : string) : Prop :=
  dict_get k d = None ∨ dict_get k d = Some VNone ∨
  dict_get k d = Some (VStr "") ∨ dict_get k d = Some (VDict []).

(** A service that answers every request with a chain definition that has
    no [main_out]. *)
Definition no_main_out : value :=
  VDict [("name", VStr "funny-bot-1");
         ("dag", VDict [("nodes", VList [VDict [("id", VStr "n1"); ("cf_id", VStr "greet")]]);
                        ("edges", VList []);
                        ("sample", VDict [("n1/model", VStr "gpt-3.5-turbo")]);
                        ("main_in", VStr "n1/animal")])].

Definition remote_no_main_out (sent : list request) (req : request)
  : value * bool :=
  (no_main_out, false).

Definition no_Node_from_dict (v : value) : result Node.t :=
  Raise (ValueError "not a node").

Definition client0 : Client := mkClient world2 [].

(** ** Placeholder leaves of a template *)

Section leaves.
Variable jinja_fields : string → list Var.t.

Fixpoint leaves_items (f : value → list (list key * string))
    (l : list value) (i : nat) : list (list key * string) :=
  match l with
  | [] => []
  | x :: l' =>
      map (λ ps, (KIdx (Z.of_nat i) :: ps.1, ps.2)) (f x)
        ++ leaves_items f l' (S i)
  end.

Fixpoint leaves_entries (f : value → list (list key * string))
    (d : list (string * value)) : list (list key * string) :=
  match d with
  | [] => []
  | kx :: d' =>
      map (λ ps, (KStr kx.1 :: ps.1, ps.2)) (f kx.2) ++ leaves_entries f d'
  end.

(** The placeholder leaves of a value, in the order of the scan: the path
    from the root and the template string at the leaf. *)
Fixpoint leaves (v : value) : list (list key * string) :=
  match v with
  | VStr s => if is_template jinja_fields s then [([], s)] else []
  | VList l => leaves_items leaves l 0
  | VDict d => leaves_entries leaves d
  | _ => []
  end.
End leaves.

(** Writing at a path, the root included: [put_value_by_keys] for a path
    that may be empty. *)
Fixpoint put_at (obj : value) (keys : list key) (v : value) : option value :=
  match keys with
  | [] => Some v
  | k :: ks => c ← get_item obj k; c' ← put_at c ks v; set_item obj k c'
  end.

(** All placeholder leaves written one after the other. *)
Fixpoint put_all (render : string → string) (ls : list (list key * string))
    (obj : value) : option value :=
  match ls with
  | [] => Some obj
  | ps :: ls' => obj' ← put_at obj ps.1 (VStr (render ps.2)); put_all render ls' obj'
  end.

(** What is read at the path of a placeholder leaf is the template string
    of the leaf. *)
Definition reads_leaf (v : value) (ps : list key * string) : Prop :=
  get_value_by_keys v ps.1 = Some (VStr ps.2).

(** A template in which the variable [x] is referred to by two leaves. *)
Definition twice_template : pyobj :=
  OValue (VDict [("a", VStr "{{x}}"); ("b", VList [VStr "{{x}}!"])]).

Definition twice_action : AIAction.t :=
  AIAction.mk "twice" echo ∅ twice_template JTYPE
    [Var.mk "x" "string" true []; Var.mk "x" "string" true []] []
    [(VStr "{{x}}", "{{x}}", [KStr "a"]);
     (VStr "{{x}}!", "{{x}}!", [KStr "b"; KIdx 0])].

Definition x_payload : gmap string value := {["x" := VStr "hi"]}.

(** ** Registries of the examples *)

(** A plain function of one parameter, registered as the programmatic action
    [shout]. *)
Definition shout_fn : PyFunc :=
  {| pf_vars := [Var.mk "text" "string" true []];
     pf_call := λ kw, Ok (VDict [("loud", default VNone (kw !! "text"))]) |}.

Definition world3 : World :=
  (on_programatic_actions_registry
     (ProgramaticActionsRegistry_register simple_return_vars shout_fn "shout"
        "says it loud" ["loud"] None ["text"]) world2).1.

Definition shout_node : Node.t :=
  Node.mk "shout" PROGRAMATIC (CFunction shout_fn) "says it loud"
    (func_to_vars shout_fn) (OutFields [Var_any "loud" []]).

Definition greet_node : Node.t :=
  Node.mk "greet" AI (CAIAction greet_action) "first"
    (AIAction.fields greet_action ++ Model.vars echo)
    (OutNested [[Var_any "model_output" []]]).

(** A service that answers with a complete chain definition: one node that
    refers to the registered AI-action [greet]. *)
Definition complete_chain : value :=
  VDict [("name", VStr "funny-bot-1");
         ("dag", VDict [("nodes", VList [VDict [("id", VStr "n1"); ("cf_id", VStr "greet")]]);
                        ("edges", VList []);
                        ("sample", VDict [("n1/model", VStr "gpt-3.5-turbo")]);
                        ("main_in", VStr "n1/text");
                        ("main_out", VStr "n1/model_output")])].

Definition remote_complete (sent : list request) (req : request)
  : value * bool :=
  (complete_chain, false).


(** ** Further statements about the registries *)

(** The tag index after the loop over [tags] of a registration of [id]. *)
Definition add_tags (id : string) (index : gmap string (list string))
    (tags : list string) : gmap string (list string) :=
  foldl (add_tag id) index tags.

(** How often [x] comes in [l]. *)
Definition occurrences (x : string) (l : list string) : nat :=
  length (filter (λ y, y = x) l).

(** Lookups one after the other, whatever each of them gives (a caller
    that catches the not-found error, as [get_chain_from_id] does). *)
Definition ModelRegistry_gets (ids : list string) (self : ModelRegistry.t)
  : ModelRegistry.t :=
  foldl (λ s id, (ModelRegistry_get id s).1) self ids.

Definition ProgramaticActionsRegistry_gets (ids : list string)
    (self : ProgramaticActionsRegistry.t) : ProgramaticActionsRegistry.t :=
  foldl (λ s id, (ProgramaticActionsRegistry_get id s).1) self ids.

Definition AIActionsRegistry_gets (ids : list string)
    (self : AIActionsRegistry.t) : AIActionsRegistry.t :=
  foldl (λ s id, (AIActionsRegistry_get id s).1) self ids.

(** The return-shape mapping a programmatic registration works with: the
    declared [outputs] when there are some, else one entry with the empty
    path for each name of [returns]; none when both are empty. *)
Definition declared_outputs (returns : list string)
    (outputs : option (list (string * list key)))
  : option (list (string * list key)) :=
  match outputs with
  | Some (o :: os) => Some (o :: os)
  | _ => match returns with
         | [] => None
         | _ => Some (returns_to_outputs returns)
         end
  end.

(** ** Further statements about the AI-action *)

(** The payload passes the field loop of an invocation: every required
    field is in the payload, and its name is not the name of a field listed
    before it. *)
Definition fields_accepted (fields : list Var.t) (payload : gmap string value)
  : Prop :=
  ∀ i f, fields !! i = Some f → Var.required f = true →
         is_Some (payload !! Var.name f) ∧
         Var.name f ∉ Var.name <$> take i fields.

Definition missing_field (node_id : string) (f : Var.t) : exn :=
  Exception ("Field " +:+ Var.name f +:+ " is required in " +:+ node_id
               +:+ " but not present").



(** ** Further statements about the client *)


Fixpoint has_slash (s : string) : bool :=
  match s with
  | EmptyString => false
  | String c s' => Ascii.eqb c slash || has_slash s'
  end.


(** The segments, each after a slash. *)
Fixpoint path_of (segments : list string) : string :=
  match segments with
  | [] => EmptyString
  | p :: ps => String slash (p +:+ path_of ps)
  end.

(** A prefix without empty segment: no slash at either end, no two slashes
    in a row, and not empty. *)
Definition clean_prefix (prefix : string) : Prop :=
  Forall (λ p, p ≠ EmptyString) (split_slash prefix).

(** What [x or y] gives for two strings. *)
Definition str_or (x y : string) : string := if str_truthy x then x else y.

(** The state of the client after a lookup of [cf_id] in the AI-action
    registry, after one in the programmatic registry, and after a request
    was sent. *)
Definition count_ai (cf_id : string) (c : Client) : Client :=
  mkClient
    (mkWorld (model_registry (world c)) (programatic_actions_registry (world c))
       (AIActionsRegistry.set_counter
          (λ counter, <[cf_id := (default 0 (counter !! cf_id) + 1)%nat]> counter)
          (ai_actions_registry (world c))))
    (requests c).

Definition count_programatic (cf_id : string) (c : Client) : Client :=
  mkClient
    (mkWorld (model_registry (world c))
       (ProgramaticActionsRegistry.set_counter
          (λ counter, <[cf_id := (default 0 (counter !! cf_id) + 1)%nat]> counter)
          (programatic_actions_registry (world c)))
       (ai_actions_registry (world c)))
    (requests c).

Definition sent (req : request) (c : Client) : Client :=
  mkClient (world c) (requests c ++ [req]).

(** The request that asks the service for the action [cf_id], and the one
    that asks for the chain [id]. *)
Definition action_request (stub : Subway.t) (cf_id : string) : request :=
  ("get", Subway._url (Subway.u (Subway.getattr (Subway.getattr stub "fury") "actions") cf_id)).

Definition chain_request (stub : Subway.t) (id : string) : request :=
  ("get", Subway._url (Subway.u (Subway.getattr stub "chatbot") id)).

Definition action_not_found (cf_id : string) : exn :=
  ValueError ("Action " +:+ cf_id +:+ " not found").

(** An edge of a fetched dag with its four fields filled in. *)
Definition valid_edge (edge : DagEdge.t) : bool :=
  str_truthy (DagEdge.source edge) && str_truthy (DagEdge.target edge)
  && str_truthy (DagEdge.sourceHandle edge)
  && str_truthy (DagEdge.targetHandle edge).

(** ** Dags of the examples *)

Definition stub0 : Subway.t := Subway.mk "http://localhost:8000/api/v1" "token".

Definition client3 : Client := mkClient world3 [].

Definition node_greet : FENode.t := FENode.mk "n1" "greet" VNone.
Definition node_far1 : FENode.t := FENode.mk "n3" "far" VNone.
Definition node_far2 : FENode.t := FENode.mk "n4" "far" VNone.

(** A service that knows the action [far], and a service that is down. *)
Definition remote_far (sent : list request) (req : request) : value * bool :=
  (VDict [("id", VStr "far")], false).

Definition remote_down (sent : list request) (req : request) : value * bool :=
  (VStr "Internal Server Error", true).

Definition far_node : Node.t :=
  Node.mk "far" PROGRAMATIC (CFunction shout_fn) "from the service"
    (func_to_vars shout_fn) (OutFields []).

Definition far_Node_from_dict (v : value) : result Node.t :=
  match v with
  | VDict _ => Ok far_node
  | _ => Raise (ValueError "not a node")
  end.

(** A chain definition whose single node comes with its body. *)
Definition inline_dag_items : list (string * value) :=
  [("nodes", VList [VDict [("id", VStr "n1");
                           ("cf_data", VDict [("id", VStr "far")])]]);
   ("edges", VList []);
   ("sample", VDict [("n1/text", VStr "hi")]);
   ("main_in", VStr "n1/text");
   ("main_out", VStr "n1/loud")].

Definition inline_chain : value :=
  VDict [("name", VStr "inline"); ("dag", VDict inline_dag_items)].

Definition inline_dag : Dag.t :=
  Dag.mk [FENode.mk "n1" "" (VDict [("id", VStr "far")])] []
    [("n1/text", VStr "hi")] "n1/text" "n1/loud".

Definition remote_inline (sent : list request) (req : request) : value * bool :=
  (inline_chain, false).

(** ** Publishing a chain: [create_new_chain] *)

(** [obj[k]] for a string [k]: a mapping without the key raises [KeyError],
    anything that is not a mapping raises [TypeError]. *)
Definition subscript (obj : value) (k : string) : result value :=
  match obj with
  | VDict d =>
      match dict_get k d with
      | Some v => Ok v
      | None => Raise (KeyError k)
      end
  | _ => Raise (TypeError "indices must be integers or the object is not subscriptable")
  end.

Fixpoint chars (s : string) : list value :=
  match s with
  | EmptyString => []
  | String c s' => VStr (String c EmptyString) :: chars s'
  end.

(** What a [for] loop goes through: the members of a list, the keys of a
    mapping, the characters of a string. *)
Definition iterate (v : value) : result (list value) :=
  match v with
  | VList l => Ok l
  | VDict d => Ok ((λ kx, VStr kx.1) <$> d)
  | VStr s => Ok (chars s)
  | _ => Raise (TypeError "object is not iterable")
  end.

(** The wrapper of the node number [i] of a published dag, before its
    [cf_id] or [cf_data] is set. *)
Definition node_data (i : nat) (id : value) : list (string * value) :=
  let at_i := VDict [("x", VInt (Z.of_nat i * 100)); ("y", VInt (Z.of_nat i * 100))] in
  [("id", id); ("position", at_i); ("type", VStr "FuryEngineNode");
   ("width", VInt 100); ("height", VInt 100); ("selected", VBool false);
   ("positionAbsolute", at_i); ("dragging", VBool false)].

(** The body of the request that creates the action of a node. *)
Definition action_json (node : value) : result value :=
  result_bind (subscript node "name") (λ name,
  result_bind (subscript node "fn") (λ fn,
  result_bind (subscript fn "model") (λ model,
  result_bind (subscript model "id") (λ model_id,
  result_bind (subscript fn "model_params") (λ model_params,
  result_bind (subscript fn "fn") (λ fn_fn,
  result_bind (subscript node "outputs") (λ outputs,
  Ok (VDict [("name", name); ("description", VStr "");
             ("fn", VDict [("model_id", model_id);
                           ("model_params", model_params); ("fn", fn_fn)]);
             ("outputs", outputs)])))))))).

Section publish.
Variable CF_URL CF_TOKEN : string.

(** The remote service, for a request with a json body ([None] when the
    body is empty and not sent). *)
Variable remote_json : list request → request → option value → value * bool.

(** The text of a value that is not a string, as an f-string gives it. *)
Variable repr : value → string.

Definition format_value (v : value) : string :=
  match v with
  | VStr s => s
  | _ => repr v
  end.

(** [Subway.__call__] with a method, a trailing path and a json body. *)
Definition Subway_request (self : Subway.t) (method trailing : string)
    (json : value) : M Client (value * bool) :=
  λ c, let req : request := (method, Subway._url self +:+ trailing) in
       (mkClient (world c) (requests c ++ [req]),
        Ok (remote_json (requests c) req (if truthy json then Some json else None))).

(** The loop over the nodes of the chain; [i] counts them and [dag_nodes]
    collects their wrappers. *)
Fixpoint publish_nodes (stub : Subway.t) (create_actions : bool)
    (nodes : list value) (i : nat) (dag_nodes : list value)
  : M Client (list value) :=
  match nodes with
  | [] => ret dag_nodes
  | node :: rest =>
      let* id := lift_result (subscript node "id") in
      let _node_data := node_data i id in
      let* _node_data :=
        if create_actions then
          let* json := lift_result (action_json node) in
          let* r := Subway_request
                      (Subway.getattr (Subway.getattr stub "fury") "actions")
                      "post" "/" json in
          let '(out, err) := r in
          if err : bool then raise (ValueError "Could not create node")
          else
            let* out_id := lift_result (subscript out "id") in
            ret (dict_set "cf_id" out_id _node_data)
        else ret (dict_set "cf_data" node _node_data) in
      publish_nodes stub create_actions rest (S i)
        (dag_nodes ++ [VDict _node_data])
  end.

(** The body of the loop over the edges: the edge with its synthetic id. *)
Definition edge_with_id (e : value) : result value :=
  result_bind (subscript e "source") (λ source,
  result_bind (subscript e "sourceHandle") (λ sourceHandle,
  result_bind (subscript e "target") (λ target,
  result_bind (subscript e "targetHandle") (λ targetHandle,
  match e with
  | VDict d =>
      Ok (VDict (dict_set "id"
                   (VStr (format_value source +:+ "/" +:+ format_value sourceHandle
                            +:+ "-" +:+ format_value target
                            +:+ format_value targetHandle)) d))
  | _ => Raise (TypeError "object does not support item assignment")
  end)))).

(** The loop over [chain_dict["edges"]]: the edges of a list are the
    mappings the loop writes to. *)
Definition with_edge_ids (chain_dict : list (string * value))
  : result (list (string * value)) :=
  result_bind (subscript (VDict chain_dict) "edges") (λ edges,
  match edges with
  | VList l =>
      result_bind (result_map edge_with_id l) (λ l',
      Ok (dict_set "edges" (VList l') chain_dict))
  | _ =>
      result_bind (iterate edges) (λ items,
      result_bind (result_map edge_with_id items) (λ _, Ok chain_dict))
  end).

(** [create_new_chain], from the mapping [chain.to_dict()] gives. *)
Definition create_new_chain (name : string) (chain_dict : value)
    (create_actions : bool) : M Client value :=
  let* stub := lift_result (get_client CF_URL CF_TOKEN "api/v1" "" "") in
  let* nodes_v := lift_result (subscript chain_dict "nodes") in
  let* nodes := lift_result (iterate nodes_v) in
  let* dag_nodes := publish_nodes stub create_actions nodes 0 [] in
  match chain_dict with
  | VDict cd =>
      let* cd := lift_result (with_edge_ids (dict_set "nodes" (VList dag_nodes) cd)) in
      let data := VDict [("name", VStr name); ("dag", VDict cd);
                         ("engine", VStr "fury")] in
      let* r := Subway_request (Subway.getattr stub "chatbot") "post" "/" data in
      let '(out, err) := r in
      if err : bool then raise (ValueError "Could not create chain")
      else ret out
  | _ => raise (TypeError "object does not support item assignment")
  end.

End publish.

(** The two requests of a publication: the creation of an action, and the
    creation of the chain. *)
Definition action_post (stub : Subway.t) : request :=
  ("post", Subway._url (Subway.getattr (Subway.getattr stub "fury") "actions") +:+ "/").

Definition chain_post (stub : Subway.t) : request :=
  ("post", Subway._url (Subway.getattr stub "chatbot") +:+ "/").

(** The wrapper of a node that is published with its body. *)
Definition inline_node (i : nat) (id node : value) : value :=
  VDict (node_data i id ++ [("cf_data", node)]).

Fixpoint inline_nodes (i : nat) (nodes : list value) (ids : list value)
  : list value :=
  match nodes, ids with
  | node :: nodes', id :: ids' => inline_node i id node :: inline_nodes (S i) nodes' ids'
  | _, _ => []
  end.

(** A service that creates what it is asked for, one that refuses, and a
    chain of one node and one edge, as [Chain.to_dict] gives it. *)
Definition service_creates (sent : list request) (req : request)
    (body : option value) : value * bool :=
  (VDict [("id", VStr "made")], false).

Definition service_refuses (sent : list request) (req : request)
    (body : option value) : value * bool :=
  (VStr "Bad Request", true).

Definition no_repr (v : value) : string := "<value>".

Definition node_dict : value :=
  VDict [("id", VStr "n1"); ("name", VStr "greet");
         ("fn", VDict [("model", VDict [("id", VStr "tone")]);
                       ("model_params", VDict []);
                       ("fn", VDict [("text", VStr "Hi")])]);
         ("outputs", VList [])].

Definition edge_dict : value :=
  VDict [("source", VStr "n1"); ("sourceHandle", VStr "out");
         ("target", VStr "n2"); ("targetHandle", VStr "in")].

Definition chain_dict0 : list (string * value) :=
  [("nodes", VList [node_dict]); ("edges", VList [edge_dict]);
   ("main_in", VStr "text")].

(** ** Node objects

    [cf_action.id = node.id] writes to the node object itself, and the same
    object can be held in several places: by a registry, by [actions_map],
    and by the list of nodes of the chain, more than once. The objects a
    load reaches are the ones the two action registries hold, one under
    each id, and the ones [Node.from_dict] makes during the load. Here the
    loop over [dag.nodes] is followed with references to these objects. *)
Inductive node_ref : Type :=
  | InAIRegistry (id : string)
  | InProgramaticRegistry (id : string)
  | FromDict (i : nat).

#[global] Instance node_ref_eq_dec : EqDecision node_ref.
Proof. solve_decision. Defined.

(** The client, and the objects made by [Node.from_dict] so far. *)
Record Objects : Type := mkObjects {
  the_client : Client;
  made : list Node.t;
}.

Definition on_client {A} : M Client A → M Objects A :=
  zoom the_client (λ c o, mkObjects c (made o)).

(** The object behind a reference, as it is now. *)
Definition deref (r : node_ref) (o : Objects) : option Node.t :=
  match r with
  | InAIRegistry id =>
      AIActionsRegistry.nodes (ai_actions_registry (world (the_client o))) !! id
  | InProgramaticRegistry id =>
      ProgramaticActionsRegistry.nodes
        (programatic_actions_registry (world (the_client o))) !! id
  | FromDict i => made o !! i
  end.

(** A new object. *)
Definition Node_new (n : Node.t) : M Objects node_ref :=
  λ o, (mkObjects (the_client o) (made o ++ [n]), Ok (FromDict (length (made o)))).

(** [obj.id = id], for the object behind [r]. *)
Definition write_id (r : node_ref) (id : string) (o : Objects) : Objects :=
  let c := the_client o in
  let w := world c in
  match r with
  | InAIRegistry k =>
      mkObjects
        (mkClient
           (mkWorld (model_registry w) (programatic_actions_registry w)
              (AIActionsRegistry.set_nodes (alter (set_id id) k)
                 (ai_actions_registry w)))
           (requests c))
        (made o)
  | InProgramaticRegistry k =>
      mkObjects
        (mkClient
           (mkWorld (model_registry w)
              (ProgramaticActionsRegistry.set_nodes (alter (set_id id) k)
                 (programatic_actions_registry w))
              (ai_actions_registry w))
           (requests c))
        (made o)
  | FromDict i => mkObjects c (alter (set_id id) i (made o))
  end.

Section objects.
Variable remote : list request → request → value * bool.
Variable Node_from_dict : value → result Node.t.

(** The loop over [dag.nodes] of [get_chain_from_id], on references:
    [actions_map] and [nodes] hold the objects themselves. *)
Fixpoint resolve_node_objects (stub : Subway.t) (dag_nodes : list FENode.t)
    (actions_map : gmap string node_ref) (nodes : list node_ref)
  : M Objects (list node_ref) :=
  match dag_nodes with
  | [] => ret nodes
  | node :: rest =>
      let cf_id := FENode.cf_id node in
      let cf_data := FENode.cf_data node in
      if negb (str_truthy cf_id) && negb (truthy cf_data) then
        raise (ValueError ("Action " +:+ FENode.id node +:+ " has no cf_id or cf_data"))
      else
        let* cf_action :=
          if truthy cf_data then
            let* n := lift_result (Node_from_dict cf_data) in
            let* r := Node_new n in
            ret (Some r)
          else ret (actions_map !! cf_id) in
        let* cf_action :=
          match cf_action with
          | Some r => ret (Some r)
          | None =>
              let* found := on_client (lookup_ai cf_id) in
              ret (match found with
                   | Some _ => Some (InAIRegistry cf_id)
                   | None => None
                   end)
          end in
        let* cf_action :=
          match cf_action with
          | Some r => ret (Some r)
          | None =>
              let* found := on_client (lookup_programatic cf_id) in
              ret (match found with
                   | Some _ => Some (InProgramaticRegistry cf_id)
                   | None => None
                   end)
          end in
        let* r :=
          match cf_action with
          | Some r => ret (r, actions_map)
          | None =>
              let* n := on_client (lookup_remote remote Node_from_dict stub cf_id) in
              let* r := Node_new n in
              ret (r, <[cf_id := r]> actions_map)
          end in
        let '(cf_action, actions_map) := r in
        modify (write_id cf_action (FENode.id node)) ;;
        resolve_node_objects stub rest actions_map (nodes ++ [cf_action])
  end.

End objects.

(** The objects after a lookup in a registry, after a request, and after
    [Node.from_dict] made a node. *)
Definition counted_ai (cf_id : string) (o : Objects) : Objects :=
  mkObjects (count_ai cf_id (the_client o)) (made o).

Definition counted_programatic (cf_id : string) (o : Objects) : Objects :=
  mkObjects (count_programatic cf_id (the_client o)) (made o).

Definition sent_by (req : request) (o : Objects) : Objects :=
  mkObjects (sent req (the_client o)) (made o).

Definition with_new (n : Node.t) (o : Objects) : Objects :=
  mkObjects (the_client o) (made o ++ [n]).

(** What the loop finds for an id before it asks the service: the object
    in [actions_map], else the one of the AI-action registry, else the one
    of the programmatic registry. *)
Definition resolution (actions_map : gmap string node_ref) (o : Objects)
    (cf_id : string) : option node_ref :=
  match actions_map !! cf_id with
  | Some r => Some r
  | None =>
      match deref (InAIRegistry cf_id) o with
      | Some _ => Some (InAIRegistry cf_id)
      | None =>
          match deref (InProgramaticRegistry cf_id) o with
          | Some _ => Some (InProgramaticRegistry cf_id)
          | None => None
          end
      end
  end.

(** A node without its id. *)
Definition unnamed (n : Node.t) : Node.t := set_id "" n.

(** From [o] to [o'] no object has changed but for its id, the registries
    hold the same ids, tags and models, their counters have not gone down,
    and nothing made or sent is lost. *)
Definition changes_ids_only (o o' : Objects) : Prop :=
  let w := world (the_client o) in
  let w' := world (the_client o') in
  model_registry w' = model_registry w ∧
  (∀ k, unnamed <$> AIActionsRegistry.nodes (ai_actions_registry w') !! k
        = unnamed <$> AIActionsRegistry.nodes (ai_actions_registry w) !! k) ∧
  AIActionsRegistry.tags_to_nodes (ai_actions_registry w')
  = AIActionsRegistry.tags_to_nodes (ai_actions_registry w) ∧
  (∀ k, (AIActionsRegistry_get_count_for_nodes k (ai_actions_registry w)
         ≤ AIActionsRegistry_get_count_for_nodes k (ai_actions_registry w'))%nat) ∧
  (∀ k, unnamed <$> ProgramaticActionsRegistry.nodes
                      (programatic_actions_registry w') !! k
        = unnamed <$> ProgramaticActionsRegistry.nodes
                        (programatic_actions_registry w) !! k) ∧
  ProgramaticActionsRegistry.tags_to_nodes (programatic_actions_registry w')
  = ProgramaticActionsRegistry.tags_to_nodes (programatic_actions_registry w) ∧
  (∀ k, (ProgramaticActionsRegistry_get_count_for_nodes k
           (programatic_actions_registry w)
         ≤ ProgramaticActionsRegistry_get_count_for_nodes k
             (programatic_actions_registry w'))%nat) ∧
  (∃ more, requests (the_client o') = requests (the_client o) ++ more) ∧
  (∃ more, unnamed <$> made o' = (unnamed <$> made o) ++ more).

Section turn.
Variable remote : list request → request → value * bool.
Variable Node_from_dict : value → result Node.t.

(** What one turn of the loop finds for a node, before it writes the id:
    the object, and [actions_map] as it is then. *)
Definition turn (stub : Subway.t) (node : FENode.t)
    (actions_map : gmap string node_ref) (o : Objects)
  : Objects * result (node_ref * gmap string node_ref) :=
  let cf_id := FENode.cf_id node in
  if negb (str_truthy cf_id) && negb (truthy (FENode.cf_data node)) then
    (o, Raise (ValueError ("Action " +:+ FENode.id node
                             +:+ " has no cf_id or cf_data")))
  else if truthy (FENode.cf_data node) then
    match Node_from_dict (FENode.cf_data node) with
    | Ok n => (with_new n o, Ok (FromDict (length (made o)), actions_map))
    | Raise e => (o, Raise e)
    end
  else
    match actions_map !! cf_id with
    | Some r => (o, Ok (r, actions_map))
    | None =>
        match deref (InAIRegistry cf_id) o with
        | Some _ => (counted_ai cf_id o, Ok (InAIRegistry cf_id, actions_map))
        | None =>
            match deref (InProgramaticRegistry cf_id) o with
            | Some _ =>
                (counted_programatic cf_id (counted_ai cf_id o),
                 Ok (InProgramaticRegistry cf_id, actions_map))
            | None =>
                let o3 := sent_by (action_request stub cf_id)
                            (counted_programatic cf_id (counted_ai cf_id o)) in
                match remote (requests (the_client o))
                        (action_request stub cf_id) with
                | (action, false) =>
                    match Node_from_dict action with
                    | Ok n =>
                        (with_new n o3,
                         Ok (FromDict (length (made o)),
                             <[cf_id := FromDict (length (made o))]> actions_map))
                    | Raise _ => (o3, Raise (action_not_found cf_id))
                    end
                | (_, true) => (o3, Raise (action_not_found cf_id))
                end
            end
        end
    end.

End turn.

(** A dag of three nodes: one for the registered AI-action [greet], two for
    the action [far] that the service has. *)
Definition objects3 : Objects := mkObjects client3 [].

Definition dag3 : list FENode.t := [node_greet; node_far1; node_far2].

Definition loaded3 : Objects :=
  (resolve_node_objects remote_far far_Node_from_dict stub0 dag3 ∅ [] objects3).1.

(** ** The last clause of C3

    What C3 claims of one invocation for a key that only the payload and
    the static parameters have: the model gets the value of the payload. *)
Definition payload_wins_over_static
    (jinja_render : string → gmap string value → string)
    (self : AIAction.t) (payload : gmap string value) : Prop :=
  ∀ data _data fn_out k v,
    reaches_model jinja_render self payload data _data fn_out →
    payload !! k = Some v →
    is_Some (AIAction.model_params self !! k) →
    dict_get k fn_out = None →
    model_final_params self data fn_out !! k = Some v.

(** A model with the fields [say], [tone] and [text], and an action over it
    with a static value for each of them, whose template takes the field
    [text] of the payload. *)
Definition wide_fn : PyFunc :=
  {| pf_vars := [Var.mk "say" "string" false []; Var.mk "tone" "string" false [];
                 Var.mk "text" "string" false []];
     pf_call := λ kw, Ok (VDict [("said", default VNone (kw !! "say"))]) |}.

Definition wide_model : Model.t :=
  Model.mk "demo" "wide" wide_fn "echoes" (func_to_vars wide_fn) [].

Definition static_params : gmap string value :=
  {["say" := VStr "static"; "tone" := VStr "flat"; "text" := VStr "static"]}.

Definition static_action : AIAction.t :=
  AIAction.mk "greet" wide_model static_params greet_template JTYPE
    [Var.mk "text" "string" true []] []
    [(VStr "{{text}}", "{{text}}", [KStr "say"])].

(** ** [get_client] as its callers reach it

    [get_client] is wrapped in [lru_cache(maxsize=1)], and its loop over
    the segments of the prefix goes through [getattr], which asks the
    normal attribute lookup before it calls [Subway.__getattr__]. The
    definition [get_client] above is the body of the function for a prefix
    whose segments the normal lookup does not find. Here the cache and the
    lookup are followed. *)

(** The arguments of a call as they are written, the positional ones and
    the keywords. The cache compares calls by them: [get_client()] and
    [get_client("api/v1")] are two different calls. *)
Record call : Type := mkCall {
  args : list string;
  kwds : list (string * string);
}.

#[global] Instance call_eq_dec : EqDecision call.
Proof. solve_decision. Defined.

(** The parameters of [get_client] with their defaults. *)
Definition parameters : list (string * string) :=
  [("prefix", "api/v1"); ("url", ""); ("token", "")].

(** The keywords of a call, after the positional arguments took their
    parameters. *)
Fixpoint bind_keywords (kwds : list (string * string))
    (bound : gmap string string) : result (gmap string string) :=
  match kwds with
  | [] => Ok bound
  | (name, v) :: rest =>
      if bool_decide (name ∈ parameters.*1) then
        match bound !! name with
        | Some _ => Raise (TypeError "got multiple values for argument")
        | None => bind_keywords rest (<[name := v]> bound)
        end
      else Raise (TypeError "got an unexpected keyword argument")
  end.

(** The values of [prefix], [url] and [token] in a call. *)
Definition bind_arguments (c : call) : result (string * string * string) :=
  let positional : gmap string string :=
    list_to_map (zip parameters.*1 (args c)) in
  result_bind (bind_keywords (kwds c) positional) (λ bound,
  if decide (length parameters < length (args c))%nat then
    Raise (TypeError "takes from 0 to 3 positional arguments")
  else
    let defaults : gmap string string := list_to_map parameters in
    let value_of name := default (default "" (defaults !! name)) (bound !! name) in
    Ok (value_of "prefix", value_of "url", value_of "token")).

(** What an attribute access can give: a stub, the url of a stub, its
    session (the token it sends), or another object. *)
Inductive attribute_value (Object : Type) : Type :=
  | Stub (s : Subway.t)
  | Str (s : string)
  | Session (token : string)
  | Other (x : Object).

Arguments Stub {Object} s.
Arguments Str {Object} s.
Arguments Session {Object} token.
Arguments Other {Object} x.

Section cached.
(** The Python objects that are neither stubs nor their urls and
    sessions: bound methods, classes and the like. *)
Variable Object : Type.

(** The attributes that the normal lookup finds in the class of a stub
    ([u], [__call__], [__class__] and so on, and those of [object]). *)
Variable class_attribute : Subway.t → string → option Object.

(** [getattr] on something that is not a stub. *)
Variable Object_getattr :
  attribute_value Object → string → result (attribute_value Object).

(** The normal attribute lookup on a stub: the two attributes of the
    instance, then the class, which has neither name. *)
Definition Subway_getattribute (self : Subway.t) (attr : string)
  : option (attribute_value Object) :=
  if String.eqb attr "_url" then Some (Str (Subway._url self))
  else if String.eqb attr "_session" then Some (Session (Subway._session self))
  else Other <$> class_attribute self attr.

(** [getattr(obj, attr)]: [__getattr__] is called when the normal lookup
    finds nothing. *)
Definition py_getattr (obj : attribute_value Object) (attr : string)
  : result (attribute_value Object) :=
  match obj with
  | Stub self =>
      match Subway_getattribute self attr with
      | Some v => Ok v
      | None => Ok (Stub (Subway.getattr self attr))
      end
  | _ => Object_getattr obj attr
  end.

(** [for p in path: sub = getattr(sub, p)]. *)
Fixpoint getattr_path (sub : attribute_value Object) (path : list string)
  : result (attribute_value Object) :=
  match path with
  | [] => Ok sub
  | p :: rest => result_bind (py_getattr sub p) (λ sub', getattr_path sub' rest)
  end.

(** The body of [get_client], with the environment as it is when the body
    runs. *)
Definition get_client_body (CF_URL CF_TOKEN prefix url token : string)
  : result (attribute_value Object) :=
  let url := if str_truthy url then url else CF_URL in
  if negb (str_truthy url) then
    Raise (ValueError "No url provided, please set CF_URL environment variable or pass url as argument")
  else
    let token := if str_truthy token then token else CF_TOKEN in
    if negb (str_truthy token) then
      Raise (ValueError "No token provided, please set CF_TOKEN environment variable or pass token as argument")
    else
      getattr_path (Stub (Subway.init url token)) (split_slash prefix).

(** The cache of [lru_cache(maxsize=1)]: the last call that returned, and
    what it returned. *)
Definition Cache : Type := option (call * attribute_value Object).

(** [get_client] behind its cache. A call that is in the cache is answered
    from it; another one runs the body, and is put in the cache in the
    place of what was there when the body returns. An exception leaves the
    cache as it is. *)
Definition get_client_cached (CF_URL CF_TOKEN : string) (c : call)
  : M Cache (attribute_value Object) :=
  λ cache,
    let run :=
      match result_bind (bind_arguments c) (λ '(prefix, url, token),
              get_client_body CF_URL CF_TOKEN prefix url token) with
      | Ok v => (Some (c, v), Ok v)
      | Raise e => (cache, Raise e)
      end in
    match cache with
    | Some (c0, v) => if decide (c0 = c) then (cache, Ok v) else run
    | None => run
    end.

(** A segment of a prefix that the normal lookup finds on no stub. *)
Definition ordinary (p : string) : Prop :=
  ∀ self, Subway_getattribute self p = None.

End cached.

(** An instance for the examples: the class has the method [u] only, and
    the other objects have no attributes. *)
Definition u_only (self : Subway.t) (attr : string) : option unit :=
  if String.eqb attr "u" then Some tt else None.

Definition no_attribute (obj : attribute_value unit) (attr : string)
  : result (attribute_value unit) :=
  Raise (Exception ("AttributeError: " +:+ attr)).

(** The call [get_client()], and the call [get_client(url="http://h//")]. *)
Definition call_plain : call := mkCall [] [].

Definition call_url : call := mkCall [] [("url", "http://h//")].

(** The call [get_client("_url")]. *)
Definition call_private : call := mkCall ["_url"] [].

(** The client of [get_client()] when the environment has the url
    [http://localhost:8000//] and a token. *)
Definition local_stub : Subway.t :=
  Subway.mk "http://localhost:8000/api/v1" "env-token".

Definition local_client : attribute_value unit := Stub local_stub.

(** * Properties *)

(** ** Lookups in the registries *)

(** What the three [get] methods have in common: the counter is written
    first, the table is read afterwards. *)
Lemma ModelRegistry_get_eq (model_id : string) (self : ModelRegistry.t) :
  ModelRegistry_get model_id self =
  (ModelRegistry.set_counter
     (λ counter, <[model_id := (default 0 (counter !! model_id) + 1)%nat]> counter) self,
   match ModelRegistry.models self !! model_id with
   | Some out => Ok out
   | None => Raise (ValueError ("Model " +:+ model_id +:+ " not found"))
   end).
Proof.
  unfold ModelRegistry_get, bind, modify, get_state, ret, raise; simpl.
  by destruct (ModelRegistry.models self !! model_id).
Qed.

Lemma ProgramaticActionsRegistry_get_eq (node_id : string)
    (self : ProgramaticActionsRegistry.t) :
  ProgramaticActionsRegistry_get node_id self =
  (ProgramaticActionsRegistry.set_counter
     (λ counter, <[node_id := (default 0 (counter !! node_id) + 1)%nat]> counter) self,
   match ProgramaticActionsRegistry.nodes self !! node_id with
   | Some out => Ok out
   | None => Raise (ValueError ("p-node '" +:+ node_id +:+ "' not found"))
   end).
Proof.
  unfold ProgramaticActionsRegistry_get, bind, modify, get_state, ret, raise; simpl.
  by destruct (ProgramaticActionsRegistry.nodes self !! node_id).
Qed.

Lemma AIActionsRegistry_get_eq (node_id : string) (self : AIActionsRegistry.t) :
  AIActionsRegistry_get node_id self =
  (AIActionsRegistry.set_counter
     (λ counter, <[node_id := (default 0 (counter !! node_id) + 1)%nat]> counter) self,
   match AIActionsRegistry.nodes self !! node_id with
   | Some out => Ok out
   | None => Raise (ValueError ("ai-node '" +:+ node_id +:+ "' not found"))
   end).
Proof.
  unfold AIActionsRegistry_get, bind, modify, get_state, ret, raise; simpl.
  by destruct (AIActionsRegistry.nodes self !! node_id).
Qed.

Lemma ModelRegistry_get_twice (self : ModelRegistry.t) (id : string) (m : Model.t) :
  ModelRegistry.models self !! id = Some m →
  get_twice ModelRegistry_get ModelRegistry_get_count_for_model self id m.
Proof.
  intros Hm. unfold get_twice. setoid_rewrite ModelRegistry_get_eq.
  eexists _, _. split; [by rewrite Hm|]. split; [simpl; by rewrite Hm|].
  unfold ModelRegistry_get_count_for_model; simpl.
  rewrite !lookup_insert_eq; simpl. lia.
Qed.

Lemma ProgramaticActionsRegistry_get_twice (self : ProgramaticActionsRegistry.t)
    (id : string) (n : Node.t) :
  ProgramaticActionsRegistry.nodes self !! id = Some n →
  get_twice ProgramaticActionsRegistry_get
    ProgramaticActionsRegistry_get_count_for_nodes self id n.
Proof.
  intros Hn. unfold get_twice. setoid_rewrite ProgramaticActionsRegistry_get_eq.
  eexists _, _. split; [by rewrite Hn|]. split; [simpl; by rewrite Hn|].
  unfold ProgramaticActionsRegistry_get_count_for_nodes; simpl.
  rewrite !lookup_insert_eq; simpl. lia.
Qed.

Lemma AIActionsRegistry_get_twice (self : AIActionsRegistry.t) (id : string)
    (n : Node.t) :
  AIActionsRegistry.nodes self !! id = Some n →
  get_twice AIActionsRegistry_get AIActionsRegistry_get_count_for_nodes self id n.
Proof.
  intros Hn. unfold get_twice. setoid_rewrite AIActionsRegistry_get_eq.
  eexists _, _. split; [by rewrite Hn|]. split; [simpl; by rewrite Hn|].
  unfold AIActionsRegistry_get_count_for_nodes; simpl.
  rewrite !lookup_insert_eq; simpl. lia.
Qed.

Lemma ModelRegistry_failed_get (self : ModelRegistry.t) (id : string) :
  ModelRegistry.models self !! id = None →
  failed_get_counts ModelRegistry_get ModelRegistry_get_count_for_model self id.
Proof.
  intros Hm. eexists _, _. rewrite ModelRegistry_get_eq, Hm.
  split; [reflexivity|].
  assert (ModelRegistry_get_count_for_model id
            (ModelRegistry.set_counter
               (λ counter, <[id := (default 0 (counter !! id) + 1)%nat]> counter) self)
          = (ModelRegistry_get_count_for_model id self + 1)%nat) as Hc.
  { unfold ModelRegistry_get_count_for_model; simpl. by rewrite lookup_insert_eq. }
  split; [exact Hc|]. intros Heq. rewrite Heq in Hc. lia.
Qed.

Lemma ProgramaticActionsRegistry_failed_get (self : ProgramaticActionsRegistry.t)
    (id : string) :
  ProgramaticActionsRegistry.nodes self !! id = None →
  failed_get_counts ProgramaticActionsRegistry_get
    ProgramaticActionsRegistry_get_count_for_nodes self id.
Proof.
  intros Hm. eexists _, _. rewrite ProgramaticActionsRegistry_get_eq, Hm.
  split; [reflexivity|].
  assert (ProgramaticActionsRegistry_get_count_for_nodes id
            (ProgramaticActionsRegistry.set_counter
               (λ counter, <[id := (default 0 (counter !! id) + 1)%nat]> counter) self)
          = (ProgramaticActionsRegistry_get_count_for_nodes id self + 1)%nat) as Hc.
  { unfold ProgramaticActionsRegistry_get_count_for_nodes; simpl.
    by rewrite lookup_insert_eq. }
  split; [exact Hc|]. intros Heq. rewrite Heq in Hc. lia.
Qed.

Lemma AIActionsRegistry_failed_get (self : AIActionsRegistry.t) (id : string) :
  AIActionsRegistry.nodes self !! id = None →
  failed_get_counts AIActionsRegistry_get AIActionsRegistry_get_count_for_nodes
    self id.
Proof.
  intros Hm. eexists _, _. rewrite AIActionsRegistry_get_eq, Hm.
  split; [reflexivity|].
  assert (AIActionsRegistry_get_count_for_nodes id
            (AIActionsRegistry.set_counter
               (λ counter, <[id := (default 0 (counter !! id) + 1)%nat]> counter) self)
          = (AIActionsRegistry_get_count_for_nodes id self + 1)%nat) as Hc.
  { unfold AIActionsRegistry_get_count_for_nodes; simpl.
    by rewrite lookup_insert_eq. }
  split; [exact Hc|]. intros Heq. rewrite Heq in Hc. lia.
Qed.

Lemma failed_get_not_found {S E : Type} (get : string → M S E)
    (count : string → S → nat) (s : S) (id : string) :
  failed_get_counts get count s id → get_not_found get s id.
Proof. intros (s1 & msg & Hg & _). by exists s1, msg. Qed.

(** C7: in each of the three registries, two successive [get]s of a
    registered id return the same entity and each adds exactly one to the
    usage counter of that id (two in total); a [get] of an id that is not
    registered raises the not-found error ([ValueError]). *)
Theorem get_twice_same_entity_counts_two
    (mr : ModelRegistry.t) (pr : ProgramaticActionsRegistry.t)
    (ar : AIActionsRegistry.t) (model_id p_id a_id : string)
    (m : Model.t) (p a : Node.t) :
  ModelRegistry.models mr !! model_id = Some m →
  ProgramaticActionsRegistry.nodes pr !! p_id = Some p →
  AIActionsRegistry.nodes ar !! a_id = Some a →
  (get_twice ModelRegistry_get ModelRegistry_get_count_for_model mr model_id m ∧
   get_twice ProgramaticActionsRegistry_get
     ProgramaticActionsRegistry_get_count_for_nodes pr p_id p ∧
   get_twice AIActionsRegistry_get AIActionsRegistry_get_count_for_nodes ar a_id a) ∧
  (∀ absent,
     (ModelRegistry.models mr !! absent = None →
      get_not_found ModelRegistry_get mr absent) ∧
     (ProgramaticActionsRegistry.nodes pr !! absent = None →
      get_not_found ProgramaticActionsRegistry_get pr absent) ∧
     (AIActionsRegistry.nodes ar !! absent = None →
      get_not_found AIActionsRegistry_get ar absent)).
Proof.
  intros Hm Hp Ha. split.
  - split_and!.
    + by apply ModelRegistry_get_twice.
    + by apply ProgramaticActionsRegistry_get_twice.
    + by apply AIActionsRegistry_get_twice.
  - intros absent. split_and!; intros Habs.
    + eapply failed_get_not_found. by apply ModelRegistry_failed_get.
    + eapply failed_get_not_found. by apply ProgramaticActionsRegistry_failed_get.
    + eapply failed_get_not_found. by apply AIActionsRegistry_failed_get.
Qed.

Lemma get_twice_same_entity_counts_two_witness :
  get_twice ModelRegistry_get ModelRegistry_get_count_for_model
    (model_registry world3) "echo" echo ∧
  get_twice ProgramaticActionsRegistry_get
    ProgramaticActionsRegistry_get_count_for_nodes
    (programatic_actions_registry world3) "shout" shout_node ∧
  get_twice AIActionsRegistry_get AIActionsRegistry_get_count_for_nodes
    (ai_actions_registry world3) "greet" greet_node.
Proof.
  apply (get_twice_same_entity_counts_two (model_registry world3)
           (programatic_actions_registry world3) (ai_actions_registry world3)
           "echo" "shout" "greet" echo shout_node greet_node).
  - vm_compute. reflexivity.
  - vm_compute. reflexivity.
  - vm_compute. reflexivity.
Defined.

(** C10: in each of the three registries, a [get] of an id that is not
    registered raises the not-found error and all the same adds one to the
    usage counter of that id: the counter counts attempts, and a failed
    lookup does not leave the registry as it was. *)
Theorem failed_get_still_counts
    (mr : ModelRegistry.t) (pr : ProgramaticActionsRegistry.t)
    (ar : AIActionsRegistry.t) (id : string) :
  ModelRegistry.models mr !! id = None →
  ProgramaticActionsRegistry.nodes pr !! id = None →
  AIActionsRegistry.nodes ar !! id = None →
  failed_get_counts ModelRegistry_get ModelRegistry_get_count_for_model mr id ∧
  failed_get_counts ProgramaticActionsRegistry_get
    ProgramaticActionsRegistry_get_count_for_nodes pr id ∧
  failed_get_counts AIActionsRegistry_get AIActionsRegistry_get_count_for_nodes
    ar id.
Proof.
  intros Hm Hp Ha. split_and!.
  - by apply ModelRegistry_failed_get.
  - by apply ProgramaticActionsRegistry_failed_get.
  - by apply AIActionsRegistry_failed_get.
Qed.

Lemma failed_get_still_counts_witness :
  failed_get_counts ModelRegistry_get ModelRegistry_get_count_for_model
    (model_registry world3) "nope" ∧
  failed_get_counts ProgramaticActionsRegistry_get
    ProgramaticActionsRegistry_get_count_for_nodes
    (programatic_actions_registry world3) "nope" ∧
  failed_get_counts AIActionsRegistry_get AIActionsRegistry_get_count_for_nodes
    (ai_actions_registry world3) "nope".
Proof.
  apply (failed_get_still_counts (model_registry world3)
           (programatic_actions_registry world3) (ai_actions_registry world3)
           "nope").
  - vm_compute. reflexivity.
  - vm_compute. reflexivity.
  - vm_compute. reflexivity.
Defined.

(** ** Enumeration *)

Lemma entries_list_every_id {E : Type} (to_dict : E → value)
    (entries : gmap string E) :
  lists_every_id entries
    ((λ kv, VDict [(kv.1, to_dict kv.2)]) <$> map_to_list entries).
Proof.
  split.
  - by rewrite length_fmap, length_map_to_list.
  - intros id. split.
    + intros [e He]. exists (to_dict e).
      apply list_elem_of_fmap. exists (id, e). split; [done|].
      by apply elem_of_map_to_list.
    + intros [v Hv]. apply list_elem_of_fmap in Hv as ([k e] & Heq & Hin).
      simpl in Heq. injection Heq as -> _.
      apply elem_of_map_to_list in Hin. by exists e.
Qed.

(** C9: the enumeration of each registry ([get_models] of the model
    registry, [get_nodes] of the two action registries) gives the same list
    for every tag argument, and that list has one entry for every registered
    id: the tag is ignored, the tag index is not consulted. *)
Theorem enumeration_ignores_tag
    (Model_to_dict : Model.t → value) (Node_to_dict : Node.t → value)
    (mr : ModelRegistry.t) (pr : ProgramaticActionsRegistry.t)
    (ar : AIActionsRegistry.t) (tag : string) :
  (ModelRegistry_get_models Model_to_dict tag mr
   = ModelRegistry_get_models Model_to_dict "" mr ∧
   lists_every_id (ModelRegistry.models mr)
     (ModelRegistry_get_models Model_to_dict tag mr)) ∧
  (ProgramaticActionsRegistry_get_nodes Node_to_dict tag pr
   = ProgramaticActionsRegistry_get_nodes Node_to_dict "" pr ∧
   lists_every_id (ProgramaticActionsRegistry.nodes pr)
     (ProgramaticActionsRegistry_get_nodes Node_to_dict tag pr)) ∧
  (AIActionsRegistry_get_nodes Node_to_dict tag ar
   = AIActionsRegistry_get_nodes Node_to_dict "" ar ∧
   lists_every_id (AIActionsRegistry.nodes ar)
     (AIActionsRegistry_get_nodes Node_to_dict tag ar)).
Proof.
  split_and!; try reflexivity; apply entries_list_every_id.
Qed.

(** ** Registration of an id that is already registered *)

(** The model registry rejects it and keeps its state. *)
Lemma ModelRegistry_register_duplicate (fn : PyFunc)
    (collection_name model_id description : string) (tags : list string)
    (self : ModelRegistry.t) :
  is_Some (ModelRegistry.models self !! model_id) →
  ModelRegistry_register fn collection_name model_id description tags self
  = (self, Raise (Exception ("Model " +:+ model_id +:+ " already registered"))).
Proof.
  intros Hin. unfold ModelRegistry_register, bind, get_state; simpl.
  by rewrite bool_decide_eq_true_2.
Qed.

(** The programmatic-action registry rejects it and keeps its state. *)
Lemma ProgramaticActionsRegistry_register_duplicate
    (func_to_return_vars : callable → list (string * list key) → list Var.t)
    (fn : PyFunc) (node_id description : string) (returns : list string)
    (outputs : option (list (string * list key))) (tags : list string)
    (self : ProgramaticActionsRegistry.t) :
  is_Some (ProgramaticActionsRegistry.nodes self !! node_id) →
  ProgramaticActionsRegistry_register func_to_return_vars fn node_id description
    returns outputs tags self
  = (self, Raise (Exception ("Node '" +:+ node_id +:+ "' already registered"))).
Proof.
  intros Hin. unfold ProgramaticActionsRegistry_register, bind, get_state; simpl.
  by rewrite bool_decide_eq_true_2.
Qed.

(** C4, at the input where the code departs from it: [greet] is registered
    in the AI-action registry, and registering [greet] again does not
    fail. The call returns a node, the entry of [greet] is replaced by that
    node, and the tag index lists [greet] a second time. *)
Theorem AIActionsRegistry_register_again_overwrites :
  (Node.description <$> AIActionsRegistry.nodes (ai_actions_registry world2) !! "greet")
    = Some "first" ∧
  AIActionsRegistry.tags_to_nodes (ai_actions_registry world2) !! "chat"
    = Some ["greet"] ∧
  match AIActionsRegistry_register simple_fields simple_return_vars
          "greet" "echo" ∅ greet_template [] "second" ["chat"] world2 with
  | (w, Ok n) =>
      Node.description n = "second" ∧
      (Node.description <$> AIActionsRegistry.nodes (ai_actions_registry w) !! "greet")
        = Some "second" ∧
      AIActionsRegistry.tags_to_nodes (ai_actions_registry w) !! "chat"
        = Some ["greet"; "greet"]
  | (_, Raise _) => False
  end.
Proof. vm_compute. repeat split. Qed.

(** ** Construction of an AI-action *)

Lemma params_subset_dom (model_params : gmap string value) (model : Model.t) :
  params_subset model_params model ↔ dom model_params ⊆ model_field_names model.
Proof.
  unfold params_subset, model_field_names. split.
  - intros H k Hk. apply elem_of_dom in Hk.
    apply (elem_of_list_to_set (C:=gset string)). auto.
  - intros H k Hk. apply (elem_of_list_to_set (C:=gset string)), H.
    by apply elem_of_dom.
Qed.

Lemma init_templates_raises (fn : value) (fwl : list (list key * list Var.t))
    (fields : list Var.t) (templates : list (value * string * list key)) (e : exn) :
  init_templates fn fwl fields templates = Raise e → e ≠ not_a_subset.
Proof.
  revert fields templates. induction fwl as [|field rest IH]; intros fields templates.
  - discriminate.
  - simpl. destruct (get_value_by_keys fn field.1) as [obj|]; [|by intros [= <-]].
    destruct (truthy obj); [|by intros [= <-]].
    destruct obj; try by intros [= <-].
    apply IH.
Qed.

(** C5: the construction of an AI-action fails on the check of
    [model_params] when some key of [model_params] is not the name of a
    field of the wrapped model, and it does not fail on that check when
    every key is. *)
Theorem model_params_checked_at_construction
    (jinja_fields : string → list Var.t) (node_id : string) (model : Model.t)
    (model_params : gmap string value) (fn : pyobj)
    (outputs : list (string * list key)) :
  (¬ params_subset model_params model →
   AIAction_init jinja_fields node_id model model_params fn outputs
   = Raise not_a_subset) ∧
  (params_subset model_params model →
   AIAction_init jinja_fields node_id model model_params fn outputs
   ≠ Raise not_a_subset).
Proof.
  rewrite params_subset_dom. unfold AIAction_init. split; intros H.
  - by rewrite bool_decide_eq_false_2.
  - rewrite bool_decide_eq_true_2 by done. simpl.
    destruct fn as [v|f]; [|done]. destruct v; try done.
    destruct (init_templates _ _ _ _) as [[fs ts]|e] eqn:Hinit; [done|].
    apply init_templates_raises in Hinit. congruence.
Qed.

(** ** Invocation of an AI-action *)

Section call_facts.
Variable jinja_render : string → gmap string value → string.
Variable Model_call : Model.t → gmap string value → value * option exn.

Lemma AIAction_call_reaches_model (self : AIAction.t)
    (payload data _data : gmap string value) (fn_out : list (string * value)) :
  reaches_model jinja_render self payload data _data fn_out →
  AIAction_call jinja_render Model_call self payload =
  match Model_call (AIAction.model self) (model_final_params self data fn_out) with
  | (_, Some e) => Ok (VStr "", Some e)
  | (out, None) => Ok (out, None)
  end.
Proof.
  intros [Hs Hp]. unfold AIAction_call. rewrite Hs, Hp.
  by destruct (Model_call _ _) as [out [e|]].
Qed.

End call_facts.

Section call_theorems.
Variable jinja_render : string → gmap string value → string.
Variable Model_call : Model.t → gmap string value → value * option exn.

(** C6, as the code has it: when the model answers with an error, the
    AI-action returns that error unchanged, and the empty string in the
    place of the result of the model. *)
Theorem model_error_returned_with_empty_result (self : AIAction.t)
    (payload data _data : gmap string value) (fn_out : list (string * value))
    (out : value) (e : exn) :
  reaches_model jinja_render self payload data _data fn_out →
  Model_call (AIAction.model self) (model_final_params self data fn_out)
    = (out, Some e) →
  AIAction_call jinja_render Model_call self payload = Ok (VStr "", Some e).
Proof.
  intros Hr Hm.
  by rewrite (AIAction_call_reaches_model _ _ _ _ _ _ _ Hr), Hm.
Qed.

(** The raw result of a model that answers without error is what the
    AI-action returns, whatever outputs it declares. *)
Lemma AIAction_call_returns_raw (self : AIAction.t)
    (payload data _data : gmap string value) (fn_out : list (string * value))
    (out : value) :
  reaches_model jinja_render self payload data _data fn_out →
  Model_call (AIAction.model self) (model_final_params self data fn_out)
    = (out, None) →
  AIAction_call jinja_render Model_call self payload = Ok (out, None).
Proof.
  intros Hr Hm.
  by rewrite (AIAction_call_reaches_model _ _ _ _ _ _ _ Hr), Hm.
Qed.
End call_theorems.

(** [greet] is what the constructor builds from its template. *)
Lemma greet_action_built :
  AIAction_init simple_fields "greet" echo ∅ greet_template [] = Ok greet_action.
Proof. reflexivity. Qed.

Lemma greet_reaches_model (render : string → gmap string value → string) :
  reaches_model render greet_action hi_payload ∅ hi_payload
    [("say", VStr (render "{{text}}" hi_payload))].
Proof. split; reflexivity. Qed.

Lemma flaky_reaches_model :
  reaches_model simple_render flaky_action hi_payload ∅ hi_payload
    [("say", VStr "hi")].
Proof. split; reflexivity. Qed.

Lemma reply_reaches_model :
  reaches_model simple_render reply_action hi_payload ∅ hi_payload
    [("say", VStr "hi")].
Proof. split; reflexivity. Qed.

(** C6 fails as stated: the model of [flaky_action] answers with a partial
    result and an error, and the action does not return that pair. *)
Lemma model_pair_not_propagated :
  ¬ propagates_model_pair simple_render flaky_Model_call flaky_action hi_payload.
Proof.
  intros H.
  specialize (H ∅ hi_payload [("say", VStr "hi")] (VStr "partial answer")
                (Exception "backend down") flaky_reaches_model eq_refl).
  vm_compute in H. discriminate H.
Qed.

Lemma model_error_returned_with_empty_result_witness :
  AIAction_call simple_render flaky_Model_call flaky_action hi_payload
  = Ok (VStr "", Some (Exception "backend down")).
Proof.
  exact (model_error_returned_with_empty_result simple_render flaky_Model_call
           flaky_action hi_payload ∅ hi_payload [("say", VStr "hi")]
           (VStr "partial answer") (Exception "backend down")
           flaky_reaches_model eq_refl).
Defined.

(** C2 fails as stated: [reply_action] declares the output [reply], the
    model answers without error, and what the action returns is the raw
    answer, with no entry [reply]. *)
Lemma declared_outputs_not_extracted :
  ¬ returns_declared_outputs simple_render simple_Model_call reply_action hi_payload.
Proof.
  intros H.
  specialize (H ∅ hi_payload [("say", VStr "hi")] (VDict [("said", VStr "hi")])
                reply_reaches_model eq_refl).
  simpl in H. destruct H as (res & Hcall & Hres).
  specialize (Hres "reply" [KStr "said"] ltac:(by apply list_elem_of_singleton)).
  vm_compute in Hcall. injection Hcall as <-.
  vm_compute in Hres. discriminate Hres.
Qed.

(** ** What registration of an AI-action records *)

Lemma AIAction_init_outputs (jinja_fields : string → list Var.t)
    (node_id : string) (model : Model.t) (model_params : gmap string value)
    (fn : pyobj) (outputs : list (string * list key)) (a : AIAction.t) :
  AIAction_init jinja_fields node_id model model_params fn outputs = Ok a →
  AIAction.outputs a = outputs ∧ AIAction.model a = model ∧
  AIAction.model_params a = model_params ∧ AIAction.fn a = fn.
Proof.
  unfold AIAction_init. case_bool_decide; simpl; [|discriminate].
  destruct fn as [v|f].
  - destruct v; try discriminate.
    destruct (init_templates _ _ _ _) as [[fs ts]|e]; [|discriminate].
    by intros [= <-].
  - by intros [= <-].
Qed.

(** The loop over the tags writes the tag index only. *)
Lemma AIActionsRegistry_tag_loop (node_id : string) (tags : list string)
    (self : AIActionsRegistry.t) :
  ∃ index,
    for_each tags (λ tag,
      modify (AIActionsRegistry.set_tags_to_nodes
                (λ index, add_tag node_id index tag))) self
    = (AIActionsRegistry.mk (AIActionsRegistry.nodes self)
         (AIActionsRegistry.counter self) index, Ok tt).
Proof.
  revert self. induction tags as [|tag tags IH]; intros self.
  - exists (AIActionsRegistry.tags_to_nodes self). by destruct self.
  - simpl. unfold bind at 1. unfold modify at 1.
    destruct (IH (AIActionsRegistry.set_tags_to_nodes
                    (λ index, add_tag node_id index tag) self)) as [index Hindex].
    exists index. by rewrite Hindex.
Qed.

Lemma AIActionsRegistry_register_inv
    (jinja_fields : string → list Var.t)
    (func_to_return_vars : callable → list (string * list key) → list Var.t)
    (node_id model_id : string) (model_params : gmap string value) (fn : pyobj)
    (outputs : list (string * list key)) (description : string)
    (tags : list string) (w w' : World) (n : Node.t) :
  AIActionsRegistry_register jinja_fields func_to_return_vars node_id model_id
    model_params fn outputs description tags w = (w', Ok n) →
  ∃ model a,
    ModelRegistry.models (model_registry w) !! model_id = Some model ∧
    AIAction_init jinja_fields node_id model model_params fn outputs = Ok a ∧
    n = Node.mk node_id AI (CAIAction a) description
          (AIAction.fields a ++ Model.vars model)
          match outputs with
          | [] => OutNested
                    [func_to_return_vars (CAIAction a) [("model_output", [])]]
          | _ => OutFields ((λ kl, Var_any kl.1 kl.2) <$> outputs)
          end.
Proof.
  unfold AIActionsRegistry_register.
  unfold bind at 1. unfold on_model_registry, zoom.
  rewrite ModelRegistry_get_eq.
  destruct (ModelRegistry.models (model_registry w) !! model_id) as [model|];
    [|discriminate].
  unfold bind at 1. unfold new_AIAction.
  destruct (AIAction_init jinja_fields node_id model model_params fn outputs)
    as [a|e] eqn:Hinit; [|discriminate].
  unfold ret at 1. unfold on_ai_actions_registry, zoom.
  unfold bind at 1. unfold modify at 1.
  unfold bind at 1.
  match goal with
  | |- context [for_each tags ?body ?s] =>
      destruct (AIActionsRegistry_tag_loop node_id tags s) as [index ->]
  end.
  unfold bind, get_state; simpl. rewrite lookup_insert_eq.
  intros [= <- <-]. by exists model, a.
Qed.

(** C2, as the code has it: the declared outputs of an AI-action are
    recorded by the registration, as the output field descriptors of the
    node (one descriptor of type [any] with the name and the extraction path
    of each declared output, or, when none is declared, the descriptors
    derived for the single default name [model_output] with the empty
    path); the invocation of the action itself returns the raw result of
    the model, with no error, whatever outputs are declared. *)
Theorem raw_result_returned_outputs_recorded
    (jinja_fields : string → list Var.t)
    (jinja_render : string → gmap string value → string)
    (Model_call : Model.t → gmap string value → value * option exn)
    (func_to_return_vars : callable → list (string * list key) → list Var.t)
    (node_id model_id : string) (model_params : gmap string value) (fn : pyobj)
    (outputs : list (string * list key)) (description : string)
    (tags : list string) (w w' : World) (n : Node.t) :
  AIActionsRegistry_register jinja_fields func_to_return_vars node_id model_id
    model_params fn outputs description tags w = (w', Ok n) →
  ∃ a,
    Node.fn n = CAIAction a ∧ AIAction.outputs a = outputs ∧
    Node.outputs n =
      match outputs with
      | [] => OutNested
                [func_to_return_vars (CAIAction a) [("model_output", [])]]
      | _ => OutFields ((λ kl, Var_any kl.1 kl.2) <$> outputs)
      end ∧
    ∀ payload data _data fn_out out,
      reaches_model jinja_render a payload data _data fn_out →
      Model_call (AIAction.model a) (model_final_params a data fn_out)
        = (out, None) →
      AIAction_call jinja_render Model_call a payload = Ok (out, None).
Proof.
  intros Hreg.
  apply AIActionsRegistry_register_inv in Hreg as (model & a & _ & Hinit & ->).
  exists a. split_and!; try done.
  - by apply AIAction_init_outputs in Hinit as (-> & _).
  - intros payload data _data fn_out out. apply AIAction_call_returns_raw.
Qed.

Lemma reply_registered :
  AIActionsRegistry_register simple_fields simple_return_vars
    "reply" "echo" ∅ greet_template [("reply", [KStr "said"])] "replies" []
    world1 = (world_reply, Ok reply_node).
Proof. vm_compute. reflexivity. Qed.

Lemma raw_result_returned_outputs_recorded_witness :
  ∃ a,
    AIAction.outputs a = [("reply", [KStr "said"])] ∧
    AIAction_call simple_render simple_Model_call a hi_payload
    = Ok (VDict [("said", VStr "hi")], None).
Proof.
  destruct (raw_result_returned_outputs_recorded simple_fields simple_render
              simple_Model_call simple_return_vars
              "reply" "echo" ∅ greet_template [("reply", [KStr "said"])]
              "replies" [] world1 world_reply reply_node reply_registered)
    as (a & Hfn & Hout & _ & Hcall).
  exists a. split; [exact Hout|].
  injection Hfn as <-.
  exact (Hcall hi_payload ∅ hi_payload [("say", VStr "hi")]
           (VDict [("said", VStr "hi")]) reply_reaches_model eq_refl).
Defined.

(** The AI-action registry does not look at its table before it writes:
    with a registered model and a good construction the call returns the
    node and stores it under [node_id], whether [node_id] was registered or
    not. *)
Lemma AIActionsRegistry_register_replaces
    (jinja_fields : string → list Var.t)
    (func_to_return_vars : callable → list (string * list key) → list Var.t)
    (node_id model_id : string) (model_params : gmap string value) (fn : pyobj)
    (outputs : list (string * list key)) (description : string)
    (tags : list string) (w : World) (model : Model.t) (a : AIAction.t) :
  ModelRegistry.models (model_registry w) !! model_id = Some model →
  AIAction_init jinja_fields node_id model model_params fn outputs = Ok a →
  ∃ w' n,
    AIActionsRegistry_register jinja_fields func_to_return_vars node_id model_id
      model_params fn outputs description tags w = (w', Ok n) ∧
    Node.id n = node_id ∧ Node.description n = description ∧
    AIActionsRegistry.nodes (ai_actions_registry w') !! node_id = Some n.
Proof.
  intros Hmodel Hinit. unfold AIActionsRegistry_register.
  unfold bind at 1. unfold on_model_registry, zoom.
  rewrite ModelRegistry_get_eq, Hmodel.
  unfold bind at 1. unfold new_AIAction. rewrite Hinit.
  unfold ret at 1. unfold on_ai_actions_registry, zoom.
  unfold bind at 1. unfold modify at 1.
  unfold bind at 1.
  match goal with
  | |- context [for_each tags ?body ?s] =>
      destruct (AIActionsRegistry_tag_loop node_id tags s) as [index ->]
  end.
  unfold bind, get_state; simpl. rewrite lookup_insert_eq.
  eexists _, _. split; [reflexivity|]. simpl. by rewrite lookup_insert_eq.
Qed.

(** ** The parameters passed to the model *)

Lemma dict_get_None (k : string) (d : list (string * value)) :
  dict_get k d = None ↔ k ∉ d.*1.
Proof.
  induction d as [|[k' v] d IH]; simpl.
  - split; [intros _; apply not_elem_of_nil|done].
  - rewrite not_elem_of_cons. destruct (String.eqb_spec k k') as [->|Hne].
    + split; [discriminate|]. by intros [? _].
    + rewrite IH. tauto.
Qed.

Lemma dict_update_items_lookup (base : gmap string value)
    (d : list (string * value)) (k : string) :
  NoDup d.*1 →
  dict_update_items base d !! k =
  match dict_get k d with Some v => Some v | None => base !! k end.
Proof.
  revert base. induction d as [|[k' v] d IH]; intros base Hnd; [done|].
  simpl in Hnd. apply NoDup_cons in Hnd as [Hk' Hnd].
  unfold dict_update_items in *. simpl. rewrite (IH _ Hnd).
  destruct (String.eqb_spec k k') as [->|Hne].
  - apply dict_get_None in Hk'. by rewrite Hk', lookup_insert_eq.
  - by rewrite lookup_insert_ne.
Qed.

Lemma bool_decide_elem_of_cons_ne (k x : string) (l : list string) :
  k ≠ x → bool_decide (k ∈ x :: l) = bool_decide (k ∈ l).
Proof.
  intros Hne. apply bool_decide_ext. rewrite elem_of_cons.
  split; [by intros [?|?]|by right].
Qed.

(** The field loop: what is left in [data] are the entries of the payload
    whose key is not the name of a field of the action, and [_data] gets
    the entries whose key is one. *)
Lemma split_fields_lookup (node_id : string) (fields : list Var.t)
    (payload acc data _data : gmap string value) :
  split_fields node_id fields payload acc = Ok (data, _data) →
  ∀ k,
    data !! k
    = (if bool_decide (k ∈ Var.name <$> fields) then None else payload !! k) ∧
    _data !! k
    = match (if bool_decide (k ∈ Var.name <$> fields) then payload !! k else None) with
      | Some v => Some v
      | None => acc !! k
      end.
Proof.
  revert payload acc.
  induction fields as [|f fs IH]; intros payload acc Hs k; simpl in Hs.
  - injection Hs as <- <-. by rewrite bool_decide_eq_false_2 by apply not_elem_of_nil.
  - rewrite fmap_cons.
    destruct (payload !! Var.name f) as [v|] eqn:Hf.
    + destruct (IH _ _ Hs k) as [-> ->].
      destruct (decide (k = Var.name f)) as [->|Hne].
      * rewrite (bool_decide_eq_true_2 (_ ∈ _ :: _)) by apply list_elem_of_here.
        rewrite Hf, lookup_delete_eq, lookup_insert_eq.
        split; by case_bool_decide.
      * rewrite lookup_delete_ne, lookup_insert_ne by done.
        by rewrite (bool_decide_elem_of_cons_ne _ _ _ Hne).
    + destruct (Var.required f); [discriminate|].
      destruct (IH _ _ Hs k) as [-> ->].
      destruct (decide (k = Var.name f)) as [->|Hne].
      * rewrite (bool_decide_eq_true_2 (_ ∈ _ :: _)) by apply list_elem_of_here.
        rewrite Hf. split; by case_bool_decide.
      * by rewrite (bool_decide_elem_of_cons_ne _ _ _ Hne).
Qed.

(** C3, as the code has it: the model is called with the static parameters
    of the action, updated with the entries of the payload whose key is not
    the name of a field of the action, updated with the produced request.
    So a key of the produced request goes to the model with the value it
    has there, over the payload and the static parameters. A key that is
    not in the produced request and is not the name of a field of the
    action goes with the value of the payload when the payload has it. A
    key that is not in the produced request and is the name of a field of
    the action goes with its static value, if there is one, whatever the
    payload holds for it. *)
Theorem model_params_merge_order
    (jinja_render : string → gmap string value → string)
    (Model_call : Model.t → gmap string value → value * option exn)
    (self : AIAction.t) (payload data _data : gmap string value)
    (fn_out : list (string * value)) :
  reaches_model jinja_render self payload data _data fn_out →
  NoDup fn_out.*1 →
  AIAction_call jinja_render Model_call self payload =
    match Model_call (AIAction.model self)
            (dict_update_items
               (dict_update (AIAction.model_params self) data) fn_out) with
    | (_, Some e) => Ok (VStr "", Some e)
    | (out, None) => Ok (out, None)
    end ∧
  (∀ k, data !! k
        = if bool_decide (k ∈ Var.name <$> AIAction.fields self) then None
          else payload !! k) ∧
  (∀ k,
     dict_update_items (dict_update (AIAction.model_params self) data) fn_out !! k
     = match dict_get k fn_out with
       | Some v => Some v
       | None =>
           match data !! k with
           | Some v => Some v
           | None => AIAction.model_params self !! k
           end
       end) ∧
  (∀ k v, dict_get k fn_out = None →
          k ∉ Var.name <$> AIAction.fields self →
          payload !! k = Some v →
          model_final_params self data fn_out !! k = Some v) ∧
  (∀ k, dict_get k fn_out = None →
        k ∈ Var.name <$> AIAction.fields self →
        model_final_params self data fn_out !! k
        = AIAction.model_params self !! k).
Proof.
  intros Hr Hnd.
  assert (∀ k, data !! k
               = if bool_decide (k ∈ Var.name <$> AIAction.fields self)
                 then None else payload !! k) as Hdata.
  { intros k. destruct Hr as [Hs _].
    by destruct (split_fields_lookup _ _ _ _ _ _ Hs k) as [-> _]. }
  assert (∀ k,
            dict_update_items (dict_update (AIAction.model_params self) data)
              fn_out !! k
            = match dict_get k fn_out with
              | Some v => Some v
              | None =>
                  match data !! k with
                  | Some v => Some v
                  | None => AIAction.model_params self !! k
                  end
              end) as Hmerge.
  { intros k. rewrite dict_update_items_lookup by done.
    destruct (dict_get k fn_out); [done|].
    unfold dict_update. rewrite lookup_union.
    by destruct (data !! k), (AIAction.model_params self !! k). }
  split_and!; try done.
  - apply (AIAction_call_reaches_model _ _ _ _ _ _ _ Hr).
  - intros k v Hout Hown Hk. unfold model_final_params.
    rewrite Hmerge, Hout, Hdata. by rewrite bool_decide_eq_false_2, Hk.
  - intros k Hout Hown. unfold model_final_params.
    rewrite Hmerge, Hout, Hdata. by rewrite bool_decide_eq_true_2.
Qed.

Lemma tone_reaches_model :
  reaches_model simple_render tone_action tone_payload
    {["tone" := VStr "warm"; "say" := VStr "payload"]} hi_payload
    [("say", VStr "hi")].
Proof. split; vm_compute; reflexivity. Qed.

(** [static_action] is what the constructor builds: its static parameters
    are names of fields of the model. *)
Lemma static_action_built :
  AIAction_init simple_fields "greet" wide_model static_params greet_template []
  = Ok static_action.
Proof. vm_compute. reflexivity. Qed.

Lemma static_reaches_model :
  reaches_model simple_render static_action tone_payload
    {["tone" := VStr "warm"; "say" := VStr "payload"]} hi_payload
    [("say", VStr "hi")].
Proof. split; vm_compute; reflexivity. Qed.

Lemma model_params_merge_order_witness :
  let params :=
    dict_update_items
      (dict_update (AIAction.model_params static_action)
         {["tone" := VStr "warm"; "say" := VStr "payload"]})
      [("say", VStr "hi")] in
  params !! "say" = Some (VStr "hi") ∧ params !! "tone" = Some (VStr "warm") ∧
  params !! "text" = Some (VStr "static").
Proof.
  destruct (model_params_merge_order simple_render simple_Model_call
              static_action tone_payload _ _ _ static_reaches_model
              ltac:(apply NoDup_singleton)) as (_ & _ & Hk & _ & _).
  split; [exact (Hk "say")|]. split; [exact (Hk "tone")|exact (Hk "text")].
Defined.

(** C3 fails as stated: [static_action] is called with a payload that has
    [text], the name of its own field, for which it also has a static
    value. The key is not in the produced request, and the model gets the
    static value, not the one of the payload. *)
Lemma own_field_payload_value_dropped :
  ¬ payload_wins_over_static simple_render static_action tone_payload.
Proof.
  intros H.
  specialize (H _ _ _ "text" (VStr "hi") static_reaches_model eq_refl
                ltac:(by eexists) eq_refl).
  vm_compute in H. discriminate H.
Qed.

(** ** Fetched chain definitions *)

Lemma Dag_parse_lacks (d : list (string * value)) (dag : Dag.t) :
  Dag_parse d = Ok dag →
  (lacks d "sample" → Dag.sample dag = []) ∧
  (lacks d "main_in" → Dag.main_in dag = "") ∧
  (lacks d "main_out" → Dag.main_out dag = "").
Proof.
  unfold Dag_parse, result_bind.
  destruct (field_list d "nodes") as [ns|]; [|discriminate].
  destruct (result_map FENode_parse ns) as [nodes|]; [|discriminate].
  destruct (field_list d "edges") as [es|]; [|discriminate].
  destruct (result_map DagEdge_parse es) as [edges|]; [|discriminate].
  destruct (field_dict d "sample") as [sample|] eqn:Hs; [|discriminate].
  destruct (field_str d "main_in") as [main_in|] eqn:Hi; [|discriminate].
  destruct (field_str d "main_out") as [main_out|] eqn:Ho; [|discriminate].
  intros [= <-]; simpl.
  unfold field_dict in Hs. unfold field_str in Hi, Ho.
  split_and!; intros [H|[H|[H|H]]]; rewrite H in *; congruence.
Qed.

(** C8: a fetched chain definition whose dag lacks [sample], [main_in] or
    [main_out] is rejected with an error, and all that has happened by then
    is the fetch of the definition itself: the registries are as they were
    (no lookup, whose count they would hold) and no request for an action
    was sent. *)
Theorem incomplete_dag_rejected
    (CF_URL CF_TOKEN : string) (remote : list request → request → value * bool)
    (Node_from_dict : value → result Node.t)
    (Edge : Type) (Edge_from_dict : DagEdge.t → result Edge)
    (Chain : Type)
    (Chain_init : list Node.t → list Edge → list (string * value) → string →
                  string → result Chain)
    (id : string) (c : Client) (stub : Subway.t) (chain : value)
    (d : list (string * value)) :
  get_client CF_URL CF_TOKEN "api/v1" "" "" = Ok stub →
  remote (requests c)
    ("get", Subway._url (Subway.u (Subway.getattr stub "chatbot") id))
  = (chain, false) →
  get_item chain (KStr "dag") = Some (VDict d) →
  lacks d "sample" ∨ lacks d "main_in" ∨ lacks d "main_out" →
  ∃ e,
    get_chain_from_id CF_URL CF_TOKEN remote Node_from_dict Edge Edge_from_dict
      Chain Chain_init id c
    = (mkClient (world c)
         (requests c
            ++ [("get", Subway._url (Subway.u (Subway.getattr stub "chatbot") id))]),
       Raise e).
Proof.
  intros Hclient Hfetch Hdag Hlacks.
  unfold get_chain_from_id. rewrite Hclient.
  unfold bind at 1. unfold lift_result at 1, ret at 1.
  unfold bind at 1. unfold Subway_call at 1. rewrite Hfetch.
  rewrite Hdag. unfold bind at 1.
  destruct (Dag_parse d) as [dag|e] eqn:Hparse; simpl; [|by exists e].
  destruct (Dag_parse_lacks _ _ Hparse) as (Hs & Hi & Ho).
  destruct (Dag.sample dag) as [|kv sample] eqn:Hsample; simpl;
    [by eexists|].
  destruct (str_truthy (Dag.main_in dag)) eqn:Hin; simpl; [|by eexists].
  destruct (str_truthy (Dag.main_out dag)) eqn:Hout; simpl; [|by eexists].
  destruct Hlacks as [H|[H|H]].
  - apply Hs in H. congruence.
  - apply Hi in H. by rewrite H in Hin.
  - apply Ho in H. by rewrite H in Hout.
Qed.

Lemma incomplete_dag_rejected_witness :
  ∃ e,
    get_chain_from_id "http://localhost:8000" "token" remote_no_main_out
      no_Node_from_dict unit (λ _, Ok tt) unit (λ _ _ _ _ _, Ok tt)
      "l6lnksln" client0
    = (mkClient world2 [("get", "http://localhost:8000/api/v1/chatbot/l6lnksln")],
       Raise e).
Proof.
  exact (incomplete_dag_rejected "http://localhost:8000" "token"
           remote_no_main_out no_Node_from_dict unit (λ _, Ok tt) unit
           (λ _ _ _ _ _, Ok tt) "l6lnksln" client0
           (Subway.mk "http://localhost:8000/api/v1" "token") no_main_out
           [("nodes", VList [VDict [("id", VStr "n1"); ("cf_id", VStr "greet")]]);
            ("edges", VList []);
            ("sample", VDict [("n1/model", VStr "gpt-3.5-turbo")]);
            ("main_in", VStr "n1/animal")]
           eq_refl eq_refl eq_refl
           (or_intror (or_intror (or_introl eq_refl)))).
Defined.

(** A complete definition, for comparison, is resolved against the
    registries: the lookup of its node is counted by the AI-action
    registry. *)
Lemma complete_dag_looks_up :
  AIActionsRegistry_get_count_for_nodes "greet" (ai_actions_registry world2)
    = 0%nat ∧
  match get_chain_from_id "http://localhost:8000" "token" remote_complete
          no_Node_from_dict unit (λ _, Ok tt) unit (λ _ _ _ _ _, Ok tt)
          "l6lnksln" client0 with
  | (c, Ok _) =>
      AIActionsRegistry_get_count_for_nodes "greet"
        (ai_actions_registry (world c)) = 1%nat
  | (_, Raise _) => False
  end.
Proof. vm_compute. split; reflexivity. Qed.

(** ** Rendering of a template *)

(** Induction on values, with the hypothesis for the members of a list and
    of a mapping. *)
Lemma value_ind_nested (P : value → Prop) :
  P VNone → (∀ b, P (VBool b)) → (∀ n, P (VInt n)) → (∀ s, P (VStr s)) →
  (∀ l, Forall P l → P (VList l)) →
  (∀ d, Forall (λ kx, P kx.2) d → P (VDict d)) →
  ∀ v, P v.
Proof.
  intros HN HB HI HS HL HD.
  fix IH 1. intros [| b | n | s | l | d].
  - exact HN.
  - apply HB.
  - apply HI.
  - apply HS.
  - apply HL. induction l as [|x l IHl]; constructor; [apply IH|exact IHl].
  - apply HD. induction d as [|[k x] d IHd]; constructor; [apply IH|exact IHd].
Qed.

Lemma wf_value_list (l : list value) :
  wf_value (VList l) ↔ Forall wf_value l.
Proof.
  simpl. induction l as [|x l IH]; [by split|].
  rewrite Forall_cons. by rewrite <- IH.
Qed.

Lemma wf_value_dict (d : list (string * value)) :
  wf_value (VDict d) ↔ NoDup d.*1 ∧ Forall (λ kx, wf_value kx.2) d.
Proof.
  simpl. apply and_iff_compat_l.
  induction d as [|[k x] d IH]; [by split|].
  rewrite Forall_cons. by rewrite <- IH.
Qed.

(** *** Reading and writing one level *)

Lemma norm_index_nat (i len : nat) :
  (i < len)%nat → norm_index (Z.of_nat i) len = Some i.
Proof.
  intros Hlt. unfold norm_index.
  rewrite (proj2 (Z.leb_le _ _)) by lia.
  rewrite (proj2 (Z.ltb_lt _ _)) by lia.
  by rewrite Nat2Z.id.
Qed.

Lemma dict_get_app_r (k : string) (d1 d2 : list (string * value)) :
  k ∉ d1.*1 → dict_get k (d1 ++ d2) = dict_get k d2.
Proof.
  induction d1 as [|[k' v] d1 IH]; [done|]. simpl.
  rewrite not_elem_of_cons. intros [Hne Hnin].
  destruct (String.eqb_spec k k'); [done|]. by apply IH.
Qed.

Lemma dict_set_app_r (k : string) (v : value) (d1 d2 : list (string * value)) :
  k ∉ d1.*1 → dict_set k v (d1 ++ d2) = d1 ++ dict_set k v d2.
Proof.
  induction d1 as [|[k' v'] d1 IH]; [done|]. simpl.
  rewrite not_elem_of_cons. intros [Hne Hnin].
  destruct (String.eqb_spec k k'); [done|]. by rewrite IH.
Qed.

Lemma dict_get_here (k : string) (v : value) (d : list (string * value)) :
  dict_get k ((k, v) :: d) = Some v.
Proof. simpl. by rewrite String.eqb_refl. Qed.

Lemma dict_set_here (k : string) (v v' : value) (d : list (string * value)) :
  dict_set k v' ((k, v) :: d) = (k, v') :: d.
Proof. simpl. by rewrite String.eqb_refl. Qed.

Lemma dict_get_set (k : string) (v : value) (d : list (string * value)) :
  dict_get k (dict_set k v d) = Some v.
Proof.
  induction d as [|[k' v'] d IH]; simpl.
  - by rewrite String.eqb_refl.
  - destruct (String.eqb_spec k k') as [->|Hne]; simpl.
    + by rewrite String.eqb_refl.
    + by destruct (String.eqb_spec k k').
Qed.

Lemma dict_set_set (k : string) (v v' : value) (d : list (string * value)) :
  dict_set k v' (dict_set k v d) = dict_set k v' d.
Proof.
  induction d as [|[k0 v0] d IH]; simpl.
  - by rewrite String.eqb_refl.
  - destruct (String.eqb_spec k k0) as [->|Hne]; simpl.
    + by rewrite String.eqb_refl.
    + destruct (String.eqb_spec k k0); [done|]. by rewrite IH.
Qed.

Lemma dict_set_id (k : string) (v : value) (d : list (string * value)) :
  dict_get k d = Some v → dict_set k v d = d.
Proof.
  induction d as [|[k0 v0] d IH]; simpl; [done|].
  destruct (String.eqb_spec k k0) as [->|Hne].
  - by intros [= ->].
  - intros H. by rewrite IH.
Qed.

(** Writing where something was read succeeds. *)
Lemma set_item_is_Some (obj : value) (k : key) (c v : value) :
  get_item obj k = Some c → is_Some (set_item obj k v).
Proof.
  destruct obj, k; simpl; try done.
  destruct (norm_index i (length l)); simpl; [eauto|done].
Qed.

(** Reading what was written. *)
Lemma get_item_set_item (obj obj' : value) (k : key) (c v : value) :
  get_item obj k = Some c → set_item obj k v = Some obj' →
  get_item obj' k = Some v.
Proof.
  destruct obj, k; simpl; try done.
  - destruct (norm_index i (length l)) as [n|] eqn:Hn; simpl; [|done].
    intros Hl [= <-]. simpl. rewrite length_insert, Hn. simpl.
    apply list_lookup_insert_eq. by eapply lookup_lt_Some.
  - intros _ [= <-]. simpl. apply dict_get_set.
Qed.

(** A second write at the same place overrides the first. *)
Lemma set_item_set_item (obj obj' : value) (k : key) (v v' : value) :
  set_item obj k v = Some obj' → set_item obj' k v' = set_item obj k v'.
Proof.
  destruct obj, k; simpl; try done.
  - destruct (norm_index i (length l)) as [n|] eqn:Hn; simpl; [|done].
    intros [= <-]. simpl. rewrite length_insert, Hn. simpl.
    by rewrite list_insert_insert_eq.
  - intros [= <-]. simpl. by rewrite dict_set_set.
Qed.

(** Writing back what was read changes nothing. *)
Lemma set_item_id (obj : value) (k : key) (c : value) :
  get_item obj k = Some c → set_item obj k c = Some obj.
Proof.
  destruct obj, k; simpl; try done.
  - destruct (norm_index i (length l)) as [n|]; simpl; [|done].
    intros Hl. by rewrite list_insert_id.
  - intros Hd. by rewrite dict_set_id.
Qed.

(** *** Writing below one level *)

Section put_all.
Variable render : string → string.

Lemma put_all_app (l1 l2 : list (list key * string)) (obj : value) :
  put_all render (l1 ++ l2) obj
  = put_all render l1 obj ≫= put_all render l2.
Proof.
  revert obj. induction l1 as [|ps l1 IH]; intros obj; [done|]. simpl.
  destruct (put_at obj ps.1 (VStr (render ps.2))) as [obj'|]; simpl; [|done].
  apply IH.
Qed.

(** The writes below the member [k] of [obj] amount to one write of the
    member, after the writes were done on the member itself. *)
Lemma put_all_under (k : key) (ls : list (list key * string))
    (obj c c' : value) :
  get_item obj k = Some c →
  put_all render ls c = Some c' →
  put_all render (map (λ ps, (k :: ps.1, ps.2)) ls) obj = set_item obj k c'.
Proof.
  revert obj c. induction ls as [|ps ls IH]; intros obj c Hget Hput.
  - injection Hput as <-. simpl. symmetry. by apply set_item_id.
  - simpl in *. rewrite Hget. simpl.
    destruct (put_at c ps.1 (VStr (render ps.2))) as [c1|]; [|done].
    simpl in *.
    destruct (set_item_is_Some obj k c c1 Hget) as [obj1 Hset].
    rewrite Hset. simpl.
    rewrite (IH obj1 c1); [|by eapply get_item_set_item|done].
    by eapply set_item_set_item.
Qed.

Variable rendered : value → value.
Variable leaves_of : value → list (list key * string).

Lemma put_all_items (l pre : list value) :
  Forall (λ x, put_all render (leaves_of x) x = Some (rendered x)) l →
  put_all render (leaves_items leaves_of l (length pre)) (VList (pre ++ l))
  = Some (VList (pre ++ map rendered l)).
Proof.
  revert pre. induction l as [|x l IH]; intros pre Hall; [done|].
  apply Forall_cons in Hall as [Hx Hall]. simpl.
  rewrite put_all_app.
  rewrite (put_all_under _ _ _ x (rendered x)); [|simpl|done].
  - simpl. rewrite norm_index_nat by (rewrite length_app; simpl; lia).
    simpl. rewrite insert_app_r_alt, Nat.sub_diag by done. simpl.
    specialize (IH (pre ++ [rendered x]) Hall).
    rewrite length_app, Nat.add_1_r, <- !app_assoc in IH. exact IH.
  - rewrite norm_index_nat by (rewrite length_app; simpl; lia).
    simpl. by rewrite list_lookup_middle.
Qed.

Lemma put_all_entries (d pre : list (string * value)) :
  NoDup (pre ++ d).*1 →
  Forall (λ kx, put_all render (leaves_of kx.2) kx.2 = Some (rendered kx.2)) d →
  put_all render (leaves_entries leaves_of d) (VDict (pre ++ d))
  = Some (VDict (pre ++ map (λ '(k, x), (k, rendered x)) d)).
Proof.
  revert pre. induction d as [|[k x] d IH]; intros pre Hnd Hall; [done|].
  apply Forall_cons in Hall as [Hx Hall]. simpl in *.
  assert (k ∉ pre.*1) as Hk.
  { rewrite fmap_app in Hnd. apply NoDup_app in Hnd as (_ & Hdis & _).
    intros Hin. apply (Hdis _ Hin). simpl. apply list_elem_of_here. }
  rewrite put_all_app.
  rewrite (put_all_under _ _ _ x (rendered x)); [|simpl|done].
  - simpl. rewrite dict_set_app_r, dict_set_here by done.
    specialize (IH (pre ++ [(k, rendered x)])).
    rewrite <- !app_assoc in IH. apply IH; [|done].
    rewrite !fmap_app in *. simpl in *. exact Hnd.
  - by rewrite dict_get_app_r, dict_get_here.
Qed.
End put_all.

Section rendering.
Variable jinja_fields : string → list Var.t.
Variable jinja_render : string → gmap string value → string.
Variable _data : gmap string value.

(** Writing every placeholder leaf of a value, one after the other, gives
    the value with its placeholder leaves rendered. *)
Lemma put_all_leaves (v : value) :
  wf_value v →
  put_all (λ s, jinja_render s _data) (leaves jinja_fields v) v
  = Some (render_leaves jinja_fields jinja_render _data v).
Proof.
  induction v as [| b | n | s | l IH | d IH] using value_ind_nested;
    intros Hwf; try done.
  - simpl. by destruct (is_template jinja_fields s).
  - apply wf_value_list in Hwf.
    apply (put_all_items _ (render_leaves jinja_fields jinja_render _data)
             (leaves jinja_fields) l []).
    eapply Forall_impl; [apply Forall_and; split; [exact IH|exact Hwf]|].
    simpl. intros x [Hx Hw]. by apply Hx.
  - apply wf_value_dict in Hwf as [Hnd Hwf].
    apply (put_all_entries _ (render_leaves jinja_fields jinja_render _data)
             (leaves jinja_fields) d []); [done|].
    eapply Forall_impl; [apply Forall_and; split; [exact IH|exact Hwf]|].
    simpl. intros x [Hx Hw]. by apply Hx.
Qed.
End rendering.

(** *** The scan of the constructor and the loop of the call *)

Section scan.
Variable jinja_fields : string → list Var.t.

(** The scan records the placeholder leaves, each with its fields. *)
Lemma extract_jinja_indices_leaves (v : value) (cur : list key) :
  extract_jinja_indices jinja_fields v cur
  = map (λ ps, (cur ++ ps.1, jinja_fields ps.2)) (leaves jinja_fields v).
Proof.
  revert cur.
  induction v as [| b | n | s | l IH | d IH] using value_ind_nested;
    intros cur; try done.
  - simpl. destruct (is_template jinja_fields s); [|done].
    simpl. by rewrite app_nil_r.
  - simpl. generalize 0%nat as i.
    induction IH as [|x l Hx _ IHl]; intros i; [done|].
    simpl. rewrite map_app, map_map, Hx, IHl. simpl.
    f_equal. apply map_ext. intros [p s]. simpl. by rewrite <- app_assoc.
  - simpl. induction IH as [|[k x] d Hx _ IHd]; [done|].
    simpl in *. rewrite map_app, map_map, Hx, IHd. simpl.
    f_equal. apply map_ext. intros [p s]. simpl. by rewrite <- app_assoc.
Qed.

Lemma reads_leaf_under (k : key) (obj c : value)
    (ls : list (list key * string)) :
  get_item obj k = Some c →
  Forall (reads_leaf c) ls →
  Forall (reads_leaf obj) (map (λ ps, (k :: ps.1, ps.2)) ls).
Proof.
  intros Hget Hall. apply Forall_forall. intros ps Hin.
  apply list_elem_of_In, in_map_iff in Hin as ([p s] & <- & Hin).
  apply list_elem_of_In in Hin.
  unfold reads_leaf. simpl. rewrite Hget. simpl.
  by apply (proj1 (Forall_forall _ _) Hall (p, s)).
Qed.

Lemma reads_leaf_items (l pre : list value) :
  Forall (λ x, Forall (reads_leaf x) (leaves jinja_fields x)) l →
  Forall (reads_leaf (VList (pre ++ l)))
    (leaves_items (leaves jinja_fields) l (length pre)).
Proof.
  revert pre. induction l as [|x l IH]; intros pre Hall; [constructor|].
  apply Forall_cons in Hall as [Hx Hall]. simpl.
  apply Forall_app. split.
  - apply (reads_leaf_under _ _ x); [|done]. simpl.
    rewrite norm_index_nat by (rewrite length_app; simpl; lia).
    simpl. by rewrite list_lookup_middle.
  - specialize (IH (pre ++ [x]) Hall).
    by rewrite length_app, Nat.add_1_r, <- app_assoc in IH.
Qed.

Lemma reads_leaf_entries (d pre : list (string * value)) :
  NoDup (pre ++ d).*1 →
  Forall (λ kx, Forall (reads_leaf kx.2) (leaves jinja_fields kx.2)) d →
  Forall (reads_leaf (VDict (pre ++ d)))
    (leaves_entries (leaves jinja_fields) d).
Proof.
  revert pre. induction d as [|[k x] d IH]; intros pre Hnd Hall; [constructor|].
  apply Forall_cons in Hall as [Hx Hall]. simpl in *.
  assert (k ∉ pre.*1) as Hk.
  { rewrite fmap_app in Hnd. apply NoDup_app in Hnd as (_ & Hdis & _).
    intros Hin. apply (Hdis _ Hin). simpl. apply list_elem_of_here. }
  apply Forall_app. split.
  - apply (reads_leaf_under _ _ x); [|done]. simpl.
    by rewrite dict_get_app_r, dict_get_here.
  - specialize (IH (pre ++ [(k, x)])). rewrite <- app_assoc in IH.
    by apply IH.
Qed.

Lemma reads_leaf_leaves (v : value) :
  wf_value v → Forall (reads_leaf v) (leaves jinja_fields v).
Proof.
  induction v as [| b | n | s | l IH | d IH] using value_ind_nested;
    intros Hwf; try by constructor.
  - simpl. destruct (is_template jinja_fields s); by repeat constructor.
  - apply wf_value_list in Hwf.
    apply (reads_leaf_items l []).
    eapply Forall_impl; [apply Forall_and; split; [exact IH|exact Hwf]|].
    simpl. intros x [Hx Hw]. by apply Hx.
  - apply wf_value_dict in Hwf as [Hnd Hwf].
    apply (reads_leaf_entries d []); [done|].
    eapply Forall_impl; [apply Forall_and; split; [exact IH|exact Hwf]|].
    simpl. intros x [Hx Hw]. by apply Hx.
Qed.

(** The path of a placeholder leaf of a mapping starts with a key of the
    mapping. *)
Lemma leaves_entries_nonempty (f : value → list (list key * string))
    (d : list (string * value)) :
  Forall (λ ps, ps.1 ≠ []) (leaves_entries f d).
Proof.
  induction d as [|[k x] d IH]; [constructor|]. simpl.
  apply Forall_app. split; [|done].
  apply Forall_forall. intros ps Hin.
  by apply list_elem_of_In, in_map_iff in Hin as ([p s] & <- & _).
Qed.

(** The loop of the constructor: when it ends well, the fields are those
    of the placeholder leaves, in order, and there is one template for
    every placeholder leaf. *)
Lemma init_templates_leaves (fn : value) (ls : list (list key * string))
    (fields fields' : list Var.t)
    (templates templates' : list (value * string * list key)) :
  Forall (reads_leaf fn) ls →
  init_templates fn (map (λ ps, (ps.1, jinja_fields ps.2)) ls) fields templates
  = Ok (fields', templates') →
  fields' = fields ++ concat (map (λ ps, jinja_fields ps.2) ls) ∧
  templates' = templates ++ map (λ ps, (VStr ps.2, ps.2, ps.1)) ls.
Proof.
  revert fields templates.
  induction ls as [|[p s] ls IH]; intros fields templates Hall.
  - simpl. intros [= <- <-]. by rewrite !app_nil_r.
  - apply Forall_cons in Hall as [Hps Hall]. unfold reads_leaf in Hps.
    simpl in *. rewrite Hps. simpl.
    destruct (String.eqb s ""); simpl; [discriminate|].
    intros Hinit. destruct (IH _ _ Hall Hinit) as [-> ->].
    by rewrite <- !app_assoc.
Qed.
End scan.

Section loop.
Variable jinja_render : string → gmap string value → string.
Variable _data : gmap string value.

Lemma put_value_by_keys_put_at (keys : list key) (obj v res : value) :
  keys ≠ [] →
  put_at obj keys v = Some res → put_value_by_keys obj keys v = Some res.
Proof.
  revert obj res. induction keys as [|k ks IH]; intros obj res Hne; [done|].
  destruct ks as [|k' ks].
  - simpl. destruct (get_item obj k); simpl; [tauto|intros [=]].
  - change (put_value_by_keys obj (k :: k' :: ks) v)
      with (get_item obj k ≫= λ c,
              put_value_by_keys c (k' :: ks) v ≫= set_item obj k).
    change (put_at obj (k :: k' :: ks) v)
      with (get_item obj k ≫= λ c, put_at c (k' :: ks) v ≫= set_item obj k).
    destruct (get_item obj k) as [c|]; cbn [mbind option_bind];
      [|intros [=]].
    destruct (put_at c (k' :: ks) v) as [c'|] eqn:Hc; [|intros [=]].
    by rewrite (IH c c').
Qed.

(** The loop of the call does the writes of [put_all]. *)
Lemma render_templates_put_all (ls : list (list key * string))
    (obj res : value) :
  Forall (λ ps, ps.1 ≠ []) ls →
  put_all (λ s, jinja_render s _data) ls obj = Some res →
  render_templates jinja_render
    (map (λ ps, (VStr ps.2, ps.2, ps.1)) ls) _data obj = Some res.
Proof.
  revert obj. induction ls as [|[p s] ls IH]; intros obj Hne Hput; [done|].
  apply Forall_cons in Hne as [Hp Hne]. simpl in *.
  destruct (put_at obj p (VStr (jinja_render s _data))) as [obj'|] eqn:Hobj;
    [|done].
  rewrite (put_value_by_keys_put_at _ _ _ _ Hp Hobj). simpl.
  by apply IH.
Qed.
End loop.

(** *** The request of template mode *)

(** What the constructor stores for a well-formed template: one template
    for every placeholder leaf, and the fields of the leaves in order. *)
Lemma AIAction_init_template (jinja_fields : string → list Var.t)
    (node_id : string) (model : Model.t) (model_params : gmap string value)
    (d : list (string * value)) (outputs : list (string * list key))
    (a : AIAction.t) :
  wf_value (VDict d) →
  AIAction_init jinja_fields node_id model model_params (OValue (VDict d)) outputs
  = Ok a →
  a = AIAction.mk node_id model model_params (OValue (VDict d)) JTYPE
        (concat (map (λ ps, jinja_fields ps.2) (leaves jinja_fields (VDict d))))
        outputs
        (map (λ ps, (VStr ps.2, ps.2, ps.1)) (leaves jinja_fields (VDict d))).
Proof.
  intros Hwf. unfold AIAction_init.
  case_bool_decide; simpl negb; cbv iota; [|discriminate].
  rewrite (extract_jinja_indices_leaves jinja_fields (VDict d) []).
  destruct (init_templates _ _ _ _) as [[fs ts]|e] eqn:Hinit; [|discriminate].
  apply (init_templates_leaves jinja_fields (VDict d)) in Hinit as [-> ->];
    [|by apply reads_leaf_leaves].
  by intros [= <-].
Qed.

(** Template mode, after the field loop: the request produced for the
    model is the template with every placeholder leaf replaced by its
    rendered string, and nothing else changed. *)
Theorem template_request_rendered
    (jinja_fields : string → list Var.t)
    (jinja_render : string → gmap string value → string)
    (node_id : string) (model : Model.t) (model_params : gmap string value)
    (d : list (string * value)) (outputs : list (string * list key))
    (a : AIAction.t) (_data : gmap string value) :
  wf_value (VDict d) →
  AIAction_init jinja_fields node_id model model_params (OValue (VDict d)) outputs
  = Ok a →
  produce_request jinja_render a _data
  = Ok (inr (render_leaves jinja_fields jinja_render _data (VDict d))).
Proof.
  intros Hwf Hinit.
  rewrite (AIAction_init_template _ _ _ _ _ _ _ Hwf Hinit).
  unfold produce_request. simpl AIAction.action_source.
  cbv iota. simpl AIAction.fn. cbv iota. simpl AIAction.templates.
  rewrite (render_templates_put_all jinja_render _data _ _
             (render_leaves jinja_fields jinja_render _data (VDict d))); [done| |].
  - apply leaves_entries_nonempty.
  - by apply (put_all_leaves jinja_fields jinja_render _data (VDict d)).
Qed.

(** The field loop ends well when the payload has every field and no name
    comes twice among the fields. *)
Lemma split_fields_distinct (node_id : string) (fields : list Var.t)
    (payload acc : gmap string value) :
  NoDup (Var.name <$> fields) →
  (∀ f, f ∈ fields → is_Some (payload !! Var.name f)) →
  ∃ data _data, split_fields node_id fields payload acc = Ok (data, _data).
Proof.
  revert payload acc. induction fields as [|f fs IH]; intros payload acc Hnd Hall.
  - by eexists _, _.
  - rewrite fmap_cons in Hnd. apply NoDup_cons in Hnd as [Hf Hnd]. simpl.
    destruct (Hall f (list_elem_of_here _ _)) as [v ->].
    apply IH; [done|]. intros g Hg.
    rewrite lookup_delete_ne; [apply Hall; by apply list_elem_of_further|].
    intros Heq. apply Hf. rewrite Heq. by apply list_elem_of_fmap_2.
Qed.

(** Template mode, for an action whose fields have pairwise distinct names:
    with a payload that has every field, the invocation gets to the model
    with the request that is the template with its placeholder leaves
    rendered from the own fields of the payload. *)
Theorem template_rendered_for_distinct_fields
    (jinja_fields : string → list Var.t)
    (jinja_render : string → gmap string value → string)
    (node_id : string) (model : Model.t) (model_params : gmap string value)
    (d : list (string * value)) (outputs : list (string * list key))
    (a : AIAction.t) (payload : gmap string value) :
  wf_value (VDict d) →
  AIAction_init jinja_fields node_id model model_params (OValue (VDict d)) outputs
  = Ok a →
  NoDup (Var.name <$> AIAction.fields a) →
  (∀ f, f ∈ AIAction.fields a → is_Some (payload !! Var.name f)) →
  ∃ data _data,
    reaches_model jinja_render a payload data _data
      (map (λ '(k, x), (k, render_leaves jinja_fields jinja_render _data x)) d) ∧
    (∀ k, _data !! k
          = if bool_decide (k ∈ Var.name <$> AIAction.fields a)
            then payload !! k else None).
Proof.
  intros Hwf Hinit Hnd Hall.
  destruct (split_fields_distinct (AIAction.node_id a) _ payload ∅ Hnd Hall)
    as (data & _data & Hs).
  exists data, _data. split; [split; [done|]|].
  - apply (template_request_rendered jinja_fields jinja_render _ _ _ _ _ _
             _data Hwf Hinit).
  - intros k. destruct (split_fields_lookup _ _ _ _ _ _ Hs k) as [_ ->].
    case_bool_decide; [|done]. by destruct (payload !! k).
Qed.

Lemma template_rendered_for_distinct_fields_witness :
  ∃ data _data,
    reaches_model simple_render greet_action hi_payload data _data
      (map (λ '(k, x), (k, render_leaves simple_fields simple_render _data x))
         [("say", VStr "{{text}}")]) ∧
    (∀ k, _data !! k
          = if bool_decide (k ∈ Var.name <$> AIAction.fields greet_action)
            then hi_payload !! k else None).
Proof.
  apply (template_rendered_for_distinct_fields simple_fields simple_render
           "greet" echo ∅ [("say", VStr "{{text}}")] [] greet_action hi_payload).
  - split; [apply NoDup_singleton|done].
  - reflexivity.
  - apply NoDup_singleton.
  - intros f Hf. apply list_elem_of_singleton in Hf as ->. by eexists.
Defined.

(** C1, at the input where the code departs from it: the template
    [twice_template] refers to the variable [x] from two leaves, and the
    payload supplies [x]. The constructor lists the field [x] once for each
    leaf; the field loop of the call moves [x] out of the payload at the
    first of them and reports it as not present at the second. The request
    the claim describes, which the rendering loop would produce from the own
    fields, is never produced. *)
Theorem repeated_variable_reported_missing :
  AIAction_init simple_fields "twice" echo ∅ twice_template [] = Ok twice_action ∧
  (∀ f, f ∈ AIAction.fields twice_action → is_Some (x_payload !! Var.name f)) ∧
  AIAction_call simple_render simple_Model_call twice_action x_payload
  = Raise (Exception "Field x is required in twice but not present") ∧
  produce_request simple_render twice_action x_payload
  = Ok (inr (VDict [("a", VStr "hi"); ("b", VList [VStr "hi!"])])).
Proof.
  split_and!; try reflexivity.
  intros f Hf. simpl in Hf.
  apply elem_of_cons in Hf as [->|Hf]; [by eexists|].
  apply list_elem_of_singleton in Hf as ->. by eexists.
Qed.

(** *** A field listed twice *)

Lemma split_fields_app (node_id : string) (l1 l2 : list Var.t)
    (payload acc : gmap string value) :
  split_fields node_id (l1 ++ l2) payload acc
  = match split_fields node_id l1 payload acc with
    | Ok (data, _data) => split_fields node_id l2 data _data
    | Raise e => Raise e
    end.
Proof.
  revert payload acc. induction l1 as [|f l1 IH]; intros payload acc; [done|].
  simpl. destruct (payload !! Var.name f); [apply IH|].
  destruct (Var.required f); [done|apply IH].
Qed.

(** An action whose field list names a required field a second time
    rejects every payload: at the second occurrence the name is no longer
    in what is left of the payload, whether the payload had it or not. *)
Theorem repeated_required_field_rejected
    (jinja_render : string → gmap string value → string)
    (Model_call : Model.t → gmap string value → value * option exn)
    (a : AIAction.t) (l1 l2 : list Var.t) (f : Var.t)
    (payload : gmap string value) :
  AIAction.fields a = l1 ++ f :: l2 →
  Var.required f = true →
  Var.name f ∈ Var.name <$> l1 →
  ∃ e, AIAction_call jinja_render Model_call a payload = Raise e.
Proof.
  intros Hfields Hreq Hin. unfold AIAction_call.
  rewrite Hfields, split_fields_app.
  destruct (split_fields (AIAction.node_id a) l1 payload ∅)
    as [[data _data]|e] eqn:Hs; [|by exists e].
  destruct (split_fields_lookup _ _ _ _ _ _ Hs (Var.name f)) as [Hdata _].
  rewrite bool_decide_eq_true_2 in Hdata by done.
  simpl. rewrite Hdata, Hreq. by eexists.
Qed.

Lemma repeated_required_field_rejected_witness :
  ∃ e, AIAction_call simple_render simple_Model_call twice_action x_payload
       = Raise e.
Proof.
  apply (repeated_required_field_rejected simple_render simple_Model_call
           twice_action [Var.mk "x" "string" true []] []
           (Var.mk "x" "string" true []) x_payload).
  - reflexivity.
  - reflexivity.
  - apply list_elem_of_here.
Defined.

(** With any template engine: a template in which two placeholder leaves
    refer to a variable of the same name, required at the second, gives an
    action that rejects every payload. *)
Theorem shared_required_variable_rejected
    (jinja_fields : string → list Var.t)
    (jinja_render : string → gmap string value → string)
    (Model_call : Model.t → gmap string value → value * option exn)
    (node_id : string) (model : Model.t) (model_params : gmap string value)
    (d : list (string * value)) (outputs : list (string * list key))
    (a : AIAction.t) (l1 l2 l3 : list (list key * string))
    (ps1 ps2 : list key * string) (f1 f2 : Var.t)
    (payload : gmap string value) :
  wf_value (VDict d) →
  AIAction_init jinja_fields node_id model model_params (OValue (VDict d)) outputs
  = Ok a →
  leaves jinja_fields (VDict d) = l1 ++ ps1 :: l2 ++ ps2 :: l3 →
  f1 ∈ jinja_fields ps1.2 → f2 ∈ jinja_fields ps2.2 →
  Var.name f1 = Var.name f2 → Var.required f2 = true →
  ∃ e, AIAction_call jinja_render Model_call a payload = Raise e.
Proof.
  intros Hwf Hinit Hleaves Hf1 Hf2 Hname Hreq.
  apply list_elem_of_split in Hf2 as (pre & post & Hsplit).
  apply (repeated_required_field_rejected jinja_render Model_call a
           (concat (map (λ ps, jinja_fields ps.2) l1) ++ jinja_fields ps1.2
              ++ concat (map (λ ps, jinja_fields ps.2) l2) ++ pre)
           (post ++ concat (map (λ ps, jinja_fields ps.2) l3)) f2 payload);
    [|done|].
  - rewrite (AIAction_init_template _ _ _ _ _ _ _ Hwf Hinit).
    cbn [AIAction.fields]. rewrite Hleaves.
    rewrite map_app, concat_app. simpl. rewrite map_app, concat_app. simpl.
    rewrite Hsplit. by rewrite <- !app_assoc.
  - rewrite <- Hname. apply list_elem_of_fmap_2.
    apply elem_of_app. right. apply elem_of_app. by left.
Qed.

Lemma shared_required_variable_rejected_witness :
  ∃ e, AIAction_call simple_render simple_Model_call twice_action x_payload
       = Raise e.
Proof.
  apply (shared_required_variable_rejected simple_fields simple_render
           simple_Model_call "twice" echo ∅
           [("a", VStr "{{x}}"); ("b", VList [VStr "{{x}}!"])] [] twice_action
           [] [] [] ([KStr "a"], "{{x}}") ([KStr "b"; KIdx 0], "{{x}}!")
           (Var.mk "x" "string" true []) (Var.mk "x" "string" true [])
           x_payload).
  - split; [|done]. simpl. apply NoDup_cons_2; [|apply NoDup_singleton].
    intros H%list_elem_of_singleton. discriminate H.
  - reflexivity.
  - reflexivity.
  - apply list_elem_of_here.
  - apply list_elem_of_here.
  - reflexivity.
  - reflexivity.
Defined.


(** * Further properties of the registries *)

(** ** The tag index *)

Lemma add_tag_lookup (id tag t : string) (index : gmap string (list string)) :
  add_tag id index t !! tag
  = if decide (t = tag) then Some (default [] (index !! tag) ++ [id])
    else index !! tag.
Proof.
  unfold add_tag. case_decide as Ht.
  - subst. by rewrite lookup_insert_eq.
  - by rewrite lookup_insert_ne.
Qed.

Lemma occurrences_cons (x y : string) (l : list string) :
  occurrences x (y :: l)
  = if decide (y = x) then S (occurrences x l) else occurrences x l.
Proof. unfold occurrences. rewrite filter_cons. by case_decide. Qed.

Lemma occurrences_not_elem_of (x : string) (l : list string) :
  x ∉ l → occurrences x l = 0%nat.
Proof.
  induction l as [|y l IH]; [done|].
  rewrite not_elem_of_cons, occurrences_cons. intros [Hne Hnin].
  rewrite decide_False by done. by apply IH.
Qed.

(** Every occurrence of a tag among [tags] appends the id once to the list
    of that tag; the lists of other tags are as they were. *)
Lemma add_tags_lookup (ident tag : string) (tags : list string)
    (index : gmap string (list string)) :
  add_tags ident index tags !! tag
  = if decide (tag ∈ tags)
    then Some (default [] (index !! tag)
                 ++ replicate (occurrences tag tags) ident)
    else index !! tag.
Proof.
  unfold add_tags. revert index.
  induction tags as [|t tags IH]; intros index.
  - case_decide as H; [by apply elem_of_nil in H|done].
  - cbn [foldl]. rewrite IH, add_tag_lookup, occurrences_cons.
    destruct (decide (t = tag)) as [->|Hne].
    + rewrite (decide_True (P := tag ∈ tag :: tags)) by apply list_elem_of_here.
      case_decide as Hin; simpl.
      * by rewrite <- app_assoc.
      * by rewrite occurrences_not_elem_of.
    + case_decide as Hin.
      * by rewrite decide_True by (by apply list_elem_of_further).
      * rewrite decide_False; [done|].
        intros [?|?]%elem_of_cons; congruence.
Qed.

Lemma ModelRegistry_tag_loop (id : string) (tags : list string)
    (self : ModelRegistry.t) :
  for_each tags (λ tag,
    modify (ModelRegistry.set_tags_to_models (λ index, add_tag id index tag))) self
  = (ModelRegistry.mk (ModelRegistry.models self) (ModelRegistry.counter self)
       (add_tags id (ModelRegistry.tags_to_models self) tags), Ok tt).
Proof.
  unfold add_tags. revert self. induction tags as [|tag tags IH]; intros self.
  - by destruct self.
  - simpl. unfold bind at 1. unfold modify at 1. by rewrite IH.
Qed.

Lemma ProgramaticActionsRegistry_tag_loop (id : string) (tags : list string)
    (self : ProgramaticActionsRegistry.t) :
  for_each tags (λ tag,
    modify (ProgramaticActionsRegistry.set_tags_to_nodes
              (λ index, add_tag id index tag))) self
  = (ProgramaticActionsRegistry.mk (ProgramaticActionsRegistry.nodes self)
       (ProgramaticActionsRegistry.counter self)
       (add_tags id (ProgramaticActionsRegistry.tags_to_nodes self) tags), Ok tt).
Proof.
  unfold add_tags. revert self. induction tags as [|tag tags IH]; intros self.
  - by destruct self.
  - simpl. unfold bind at 1. unfold modify at 1. by rewrite IH.
Qed.

Lemma AIActionsRegistry_tag_loop_eq (id : string) (tags : list string)
    (self : AIActionsRegistry.t) :
  for_each tags (λ tag,
    modify (AIActionsRegistry.set_tags_to_nodes
              (λ index, add_tag id index tag))) self
  = (AIActionsRegistry.mk (AIActionsRegistry.nodes self)
       (AIActionsRegistry.counter self)
       (add_tags id (AIActionsRegistry.tags_to_nodes self) tags), Ok tt).
Proof.
  unfold add_tags. revert self. induction tags as [|tag tags IH]; intros self.
  - by destruct self.
  - simpl. unfold bind at 1. unfold modify at 1. by rewrite IH.
Qed.

(** ** Registration of a model *)

Lemma ModelRegistry_register_fresh_eq (fn : PyFunc)
    (collection_name model_id description : string) (tags : list string)
    (self : ModelRegistry.t) :
  ModelRegistry.models self !! model_id = None →
  ModelRegistry_register fn collection_name model_id description tags self
  = (ModelRegistry.mk
       (<[model_id := Model.mk collection_name model_id fn description
                        (func_to_vars fn) tags]> (ModelRegistry.models self))
       (ModelRegistry.counter self)
       (add_tags model_id (ModelRegistry.tags_to_models self) tags), Ok tt).
Proof.
  intros Hfresh. unfold ModelRegistry_register.
  unfold bind at 1. unfold get_state at 1.
  rewrite bool_decide_eq_false_2 by (rewrite Hfresh; apply is_Some_None).
  unfold bind at 1. unfold modify at 1.
  by rewrite ModelRegistry_tag_loop.
Qed.
Lemma elem_of_map_keys {A : Type} (m : gmap string A) (k : string) :
  k ∈ (map_to_list m).*1 ↔ is_Some (m !! k).
Proof.
  rewrite list_elem_of_fmap. split.
  - intros ([k' a] & -> & Hin). apply elem_of_map_to_list in Hin. by exists a.
  - intros [a Ha]. exists (k, a). split; [done|]. by apply elem_of_map_to_list.
Qed.

Lemma add_tags_is_Some (ident tag : string) (tags : list string)
    (index : gmap string (list string)) :
  is_Some (add_tags ident index tags !! tag)
  ↔ is_Some (index !! tag) ∨ tag ∈ tags.
Proof.
  rewrite add_tags_lookup. case_decide as Hin.
  - split; [by right|by eexists].
  - split; [by left|]. by intros [?|?].
Qed.

(** A model registered under a fresh id is in the table with the field
    descriptors of its function, a lookup gives it back, the other entries
    and the usage counters are as they were. *)
Theorem registered_model_is_retrievable (fn : PyFunc)
    (collection_name model_id description : string) (tags : list string)
    (self : ModelRegistry.t) :
  ModelRegistry.models self !! model_id = None →
  ∃ s1,
    ModelRegistry_register fn collection_name model_id description tags self
    = (s1, Ok tt) ∧
    ModelRegistry_has model_id s1 = true ∧
    (ModelRegistry_get model_id s1).2
    = Ok (Model.mk collection_name model_id fn description (func_to_vars fn) tags) ∧
    (∀ other, other ≠ model_id →
              ModelRegistry.models s1 !! other = ModelRegistry.models self !! other) ∧
    ModelRegistry.counter s1 = ModelRegistry.counter self ∧
    size (ModelRegistry.models s1) = S (size (ModelRegistry.models self)).
Proof.
  intros Hfresh. eexists. split; [by apply ModelRegistry_register_fresh_eq|].
  split_and!.
  - unfold ModelRegistry_has. simpl. rewrite lookup_insert_eq.
    by apply bool_decide_eq_true_2.
  - rewrite ModelRegistry_get_eq. simpl. by rewrite lookup_insert_eq.
  - intros other Hne. simpl. by rewrite lookup_insert_ne.
  - done.
  - simpl. by apply map_size_insert_None.
Qed.

(** The tag index after the registration of a model: the id is appended to
    the list of a tag once for every occurrence of the tag among the tags of
    the call, the lists of the other tags are untouched; the tags listed by
    [get_tags] are those listed before and those of the call, each once. *)
Theorem model_registration_tags (fn : PyFunc)
    (collection_name model_id description : string) (tags : list string)
    (self : ModelRegistry.t) (tag : string) :
  ModelRegistry.models self !! model_id = None →
  ∃ s1,
    ModelRegistry_register fn collection_name model_id description tags self
    = (s1, Ok tt) ∧
    ModelRegistry.tags_to_models s1 !! tag
    = (if decide (tag ∈ tags)
       then Some (default [] (ModelRegistry.tags_to_models self !! tag)
                    ++ replicate (occurrences tag tags) model_id)
       else ModelRegistry.tags_to_models self !! tag) ∧
    (tag ∈ ModelRegistry_get_tags s1
     ↔ tag ∈ ModelRegistry_get_tags self ∨ tag ∈ tags) ∧
    NoDup (ModelRegistry_get_tags s1).
Proof.
  intros Hfresh. eexists. split; [by apply ModelRegistry_register_fresh_eq|].
  split_and!.
  - simpl. apply add_tags_lookup.
  - unfold ModelRegistry_get_tags. simpl.
    rewrite !elem_of_map_keys. apply add_tags_is_Some.
  - apply NoDup_fst_map_to_list.
Qed.

Lemma registered_model_is_retrievable_witness :
  ∃ s1,
    ModelRegistry_register echo_fn "demo" "echo" "echoes" ["chat"; "text"]
      ModelRegistry.init = (s1, Ok tt) ∧
    ModelRegistry_has "echo" s1 = true ∧
    (ModelRegistry_get "echo" s1).2
    = Ok (Model.mk "demo" "echo" echo_fn "echoes" (func_to_vars echo_fn)
            ["chat"; "text"]) ∧
    (∀ other, other ≠ "echo" →
              ModelRegistry.models s1 !! other
              = ModelRegistry.models ModelRegistry.init !! other) ∧
    ModelRegistry.counter s1 = ModelRegistry.counter ModelRegistry.init ∧
    size (ModelRegistry.models s1)
    = S (size (ModelRegistry.models ModelRegistry.init)).
Proof.
  apply (registered_model_is_retrievable echo_fn "demo" "echo" "echoes"
           ["chat"; "text"] ModelRegistry.init).
  reflexivity.
Defined.

Lemma model_registration_tags_witness :
  ∃ s1,
    ModelRegistry_register echo_fn "demo" "echo" "echoes" ["chat"; "chat"]
      ModelRegistry.init = (s1, Ok tt) ∧
    ModelRegistry.tags_to_models s1 !! "chat"
    = (if decide ("chat" ∈ ["chat"; "chat"])
       then Some (default [] (ModelRegistry.tags_to_models ModelRegistry.init !! "chat")
                    ++ replicate (occurrences "chat" ["chat"; "chat"]) "echo")
       else ModelRegistry.tags_to_models ModelRegistry.init !! "chat") ∧
    ("chat" ∈ ModelRegistry_get_tags s1
     ↔ "chat" ∈ ModelRegistry_get_tags ModelRegistry.init
       ∨ "chat" ∈ ["chat"; "chat"]) ∧
    NoDup (ModelRegistry_get_tags s1).
Proof.
  apply (model_registration_tags echo_fn "demo" "echo" "echoes"
           ["chat"; "chat"] ModelRegistry.init "chat").
  reflexivity.
Defined.
(** ** Lookups are counted *)

Lemma ModelRegistry_gets_cons (id : string) (ids : list string)
    (self : ModelRegistry.t) :
  ModelRegistry_gets (id :: ids) self
  = ModelRegistry_gets ids (ModelRegistry_get id self).1.
Proof. done. Qed.

Lemma ModelRegistry_gets_spec (ids : list string) (self : ModelRegistry.t)
    (id : string) :
  ModelRegistry_get_count_for_model id (ModelRegistry_gets ids self)
  = (ModelRegistry_get_count_for_model id self + occurrences id ids)%nat ∧
  ModelRegistry.models (ModelRegistry_gets ids self) = ModelRegistry.models self ∧
  ModelRegistry.tags_to_models (ModelRegistry_gets ids self)
  = ModelRegistry.tags_to_models self.
Proof.
  revert self. induction ids as [|i ids IH]; intros self.
  - unfold occurrences. simpl. split_and!; [lia|done|done].
  - rewrite ModelRegistry_gets_cons, occurrences_cons.
    destruct (IH (ModelRegistry_get i self).1) as (-> & -> & ->).
    rewrite ModelRegistry_get_eq. simpl. split_and!; [|done|done].
    unfold ModelRegistry_get_count_for_model. simpl.
    case_decide as Hi.
    + subst. rewrite lookup_insert_eq. simpl. lia.
    + by rewrite lookup_insert_ne.
Qed.

Lemma ProgramaticActionsRegistry_gets_cons (id : string) (ids : list string)
    (self : ProgramaticActionsRegistry.t) :
  ProgramaticActionsRegistry_gets (id :: ids) self
  = ProgramaticActionsRegistry_gets ids (ProgramaticActionsRegistry_get id self).1.
Proof. done. Qed.

Lemma ProgramaticActionsRegistry_gets_spec (ids : list string) (self : ProgramaticActionsRegistry.t)
    (id : string) :
  ProgramaticActionsRegistry_get_count_for_nodes id (ProgramaticActionsRegistry_gets ids self)
  = (ProgramaticActionsRegistry_get_count_for_nodes id self + occurrences id ids)%nat ∧
  ProgramaticActionsRegistry.nodes (ProgramaticActionsRegistry_gets ids self) = ProgramaticActionsRegistry.nodes self ∧
  ProgramaticActionsRegistry.tags_to_nodes (ProgramaticActionsRegistry_gets ids self)
  = ProgramaticActionsRegistry.tags_to_nodes self.
Proof.
  revert self. induction ids as [|i ids IH]; intros self.
  - unfold occurrences. simpl. split_and!; [lia|done|done].
  - rewrite ProgramaticActionsRegistry_gets_cons, occurrences_cons.
    destruct (IH (ProgramaticActionsRegistry_get i self).1) as (-> & -> & ->).
    rewrite ProgramaticActionsRegistry_get_eq. simpl. split_and!; [|done|done].
    unfold ProgramaticActionsRegistry_get_count_for_nodes. simpl.
    case_decide as Hi.
    + subst. rewrite lookup_insert_eq. simpl. lia.
    + by rewrite lookup_insert_ne.
Qed.

Lemma AIActionsRegistry_gets_cons (id : string) (ids : list string)
    (self : AIActionsRegistry.t) :
  AIActionsRegistry_gets (id :: ids) self
  = AIActionsRegistry_gets ids (AIActionsRegistry_get id self).1.
Proof. done. Qed.

Lemma AIActionsRegistry_gets_spec (ids : list string) (self : AIActionsRegistry.t)
    (id : string) :
  AIActionsRegistry_get_count_for_nodes id (AIActionsRegistry_gets ids self)
  = (AIActionsRegistry_get_count_for_nodes id self + occurrences id ids)%nat ∧
  AIActionsRegistry.nodes (AIActionsRegistry_gets ids self) = AIActionsRegistry.nodes self ∧
  AIActionsRegistry.tags_to_nodes (AIActionsRegistry_gets ids self)
  = AIActionsRegistry.tags_to_nodes self.
Proof.
  revert self. induction ids as [|i ids IH]; intros self.
  - unfold occurrences. simpl. split_and!; [lia|done|done].
  - rewrite AIActionsRegistry_gets_cons, occurrences_cons.
    destruct (IH (AIActionsRegistry_get i self).1) as (-> & -> & ->).
    rewrite AIActionsRegistry_get_eq. simpl. split_and!; [|done|done].
    unfold AIActionsRegistry_get_count_for_nodes. simpl.
    case_decide as Hi.
    + subst. rewrite lookup_insert_eq. simpl. lia.
    + by rewrite lookup_insert_ne.
Qed.

(** In each registry the usage counter of an id, after any sequence of
    lookups, is what it was plus the number of lookups of that id in the
    sequence, found or not; the lookups leave the table and the tag index
    as they were. *)
Theorem lookups_are_counted
    (mr : ModelRegistry.t) (pr : ProgramaticActionsRegistry.t)
    (ar : AIActionsRegistry.t) (ids : list string) (id : string) :
  (ModelRegistry_get_count_for_model id (ModelRegistry_gets ids mr)
   = (ModelRegistry_get_count_for_model id mr + occurrences id ids)%nat ∧
   ModelRegistry.models (ModelRegistry_gets ids mr) = ModelRegistry.models mr ∧
   ModelRegistry.tags_to_models (ModelRegistry_gets ids mr)
   = ModelRegistry.tags_to_models mr) ∧
  (ProgramaticActionsRegistry_get_count_for_nodes id
     (ProgramaticActionsRegistry_gets ids pr)
   = (ProgramaticActionsRegistry_get_count_for_nodes id pr + occurrences id ids)%nat ∧
   ProgramaticActionsRegistry.nodes (ProgramaticActionsRegistry_gets ids pr)
   = ProgramaticActionsRegistry.nodes pr ∧
   ProgramaticActionsRegistry.tags_to_nodes (ProgramaticActionsRegistry_gets ids pr)
   = ProgramaticActionsRegistry.tags_to_nodes pr) ∧
  (AIActionsRegistry_get_count_for_nodes id (AIActionsRegistry_gets ids ar)
   = (AIActionsRegistry_get_count_for_nodes id ar + occurrences id ids)%nat ∧
   AIActionsRegistry.nodes (AIActionsRegistry_gets ids ar)
   = AIActionsRegistry.nodes ar ∧
   AIActionsRegistry.tags_to_nodes (AIActionsRegistry_gets ids ar)
   = AIActionsRegistry.tags_to_nodes ar).
Proof.
  split; [apply ModelRegistry_gets_spec|].
  split; [apply ProgramaticActionsRegistry_gets_spec|].
  apply AIActionsRegistry_gets_spec.
Qed.

(** ** Duplicate ids in the model and programmatic registries *)

(** The model registry and the programmatic-action registry reject the
    registration of an id they hold, whatever the other arguments are, and
    keep their state: table, counters and tag index. *)
Theorem duplicate_id_rejected_state_kept
    (func_to_return_vars : callable → list (string * list key) → list Var.t)
    (fn : PyFunc) (collection_name model_id node_id description : string)
    (returns : list string) (outputs : option (list (string * list key)))
    (tags : list string)
    (mr : ModelRegistry.t) (pr : ProgramaticActionsRegistry.t) :
  is_Some (ModelRegistry.models mr !! model_id) →
  is_Some (ProgramaticActionsRegistry.nodes pr !! node_id) →
  ModelRegistry_register fn collection_name model_id description tags mr
  = (mr, Raise (Exception ("Model " +:+ model_id +:+ " already registered"))) ∧
  ProgramaticActionsRegistry_register func_to_return_vars fn node_id description
    returns outputs tags pr
  = (pr, Raise (Exception ("Node '" +:+ node_id +:+ "' already registered"))).
Proof.
  intros Hm Hp. split.
  - by apply ModelRegistry_register_duplicate.
  - by apply ProgramaticActionsRegistry_register_duplicate.
Qed.

Lemma duplicate_id_rejected_state_kept_witness :
  ModelRegistry_register shout_fn "other" "echo" "again" ["chat"]
    (model_registry world3)
  = (model_registry world3, Raise (Exception "Model echo already registered")) ∧
  ProgramaticActionsRegistry_register simple_return_vars shout_fn "shout" "again"
    [] None ["chat"] (programatic_actions_registry world3)
  = (programatic_actions_registry world3,
     Raise (Exception "Node 'shout' already registered")).
Proof.
  apply (duplicate_id_rejected_state_kept simple_return_vars).
  - vm_compute. by eexists.
  - vm_compute. by eexists.
Defined.
(** ** Registration of a programmatic action *)

Lemma ProgramaticActionsRegistry_register_fresh_eq
    (func_to_return_vars : callable → list (string * list key) → list Var.t)
    (fn : PyFunc) (node_id description : string) (returns : list string)
    (outputs : option (list (string * list key))) (tags : list string)
    (self : ProgramaticActionsRegistry.t) :
  ProgramaticActionsRegistry.nodes self !! node_id = None →
  ProgramaticActionsRegistry_register func_to_return_vars fn node_id description
    returns outputs tags self
  = match declared_outputs returns outputs with
    | None =>
        (self, Raise (AssertionError
                        "If outputs is not provided then returns must be provided"))
    | Some outs =>
        let node := Node.mk node_id PROGRAMATIC (CFunction fn) description
                      (func_to_vars fn)
                      (OutFields (func_to_return_vars (CFunction fn) outs)) in
        (ProgramaticActionsRegistry.mk
           (<[node_id := node]> (ProgramaticActionsRegistry.nodes self))
           (ProgramaticActionsRegistry.counter self)
           (add_tags node_id (ProgramaticActionsRegistry.tags_to_nodes self) tags),
         Ok node)
    end.
Proof.
  intros Hfresh. unfold ProgramaticActionsRegistry_register.
  unfold bind at 1. unfold get_state at 1.
  rewrite bool_decide_eq_false_2 by (rewrite Hfresh; apply is_Some_None).
  unfold bind at 1.
  assert (∀ outs : list (string * list key),
            (modify (ProgramaticActionsRegistry.set_nodes
               (insert node_id
                  (Node.mk node_id PROGRAMATIC (CFunction fn) description
                     (func_to_vars fn)
                     (OutFields (func_to_return_vars (CFunction fn) outs))))) ;;
             for_each tags (λ tag,
               modify (ProgramaticActionsRegistry.set_tags_to_nodes
                         (λ index, add_tag node_id index tag))) ;;
             let* self0 := get_state in
             match ProgramaticActionsRegistry.nodes self0 !! node_id with
             | Some n => ret n
             | None => raise (KeyError node_id)
             end) self
            = (ProgramaticActionsRegistry.mk
                 (<[node_id := Node.mk node_id PROGRAMATIC (CFunction fn) description
                                 (func_to_vars fn)
                                 (OutFields (func_to_return_vars (CFunction fn) outs))]>
                    (ProgramaticActionsRegistry.nodes self))
                 (ProgramaticActionsRegistry.counter self)
                 (add_tags node_id (ProgramaticActionsRegistry.tags_to_nodes self) tags),
               Ok (Node.mk node_id PROGRAMATIC (CFunction fn) description
                     (func_to_vars fn)
                     (OutFields (func_to_return_vars (CFunction fn) outs))))) as Hrest.
  { intros outs. unfold bind at 1. unfold modify at 1.
    unfold bind at 1. rewrite ProgramaticActionsRegistry_tag_loop.
    unfold bind, get_state. simpl. by rewrite lookup_insert_eq. }
  unfold declared_outputs.
  destruct outputs as [[|o os]|]; destruct returns as [|r rs];
    try done; unfold ret at 1; apply Hrest.
Qed.

(** A programmatic registration that gives neither outputs nor returned
    names fails on its assertion, after the check for a duplicate id, and
    writes nothing. *)
Theorem programatic_registration_needs_outputs
    (func_to_return_vars : callable → list (string * list key) → list Var.t)
    (fn : PyFunc) (node_id description : string)
    (outputs : option (list (string * list key))) (tags : list string)
    (self : ProgramaticActionsRegistry.t) :
  ProgramaticActionsRegistry.nodes self !! node_id = None →
  outputs = None ∨ outputs = Some [] →
  ProgramaticActionsRegistry_register func_to_return_vars fn node_id description
    [] outputs tags self
  = (self, Raise (AssertionError
                    "If outputs is not provided then returns must be provided")).
Proof.
  intros Hfresh Hout.
  rewrite ProgramaticActionsRegistry_register_fresh_eq by done.
  by destruct Hout as [-> | ->].
Qed.

Lemma programatic_registration_needs_outputs_witness :
  ProgramaticActionsRegistry_register simple_return_vars shout_fn "shout"
    "says it loud" [] (Some []) ["text"] ProgramaticActionsRegistry.init
  = (ProgramaticActionsRegistry.init,
     Raise (AssertionError
              "If outputs is not provided then returns must be provided")).
Proof.
  apply (programatic_registration_needs_outputs simple_return_vars shout_fn
           "shout" "says it loud" (Some []) ["text"]
           ProgramaticActionsRegistry.init).
  - reflexivity.
  - by right.
Defined.

(** A programmatic action registered under a fresh id with a return shape:
    the call returns the node it stores, a node of kind programmatic whose
    input fields are those of the function and whose outputs are derived
    from the return shape; a lookup gives the same node, the other entries
    and the counters are as they were. *)
Theorem registered_action_is_retrievable
    (func_to_return_vars : callable → list (string * list key) → list Var.t)
    (fn : PyFunc) (node_id description : string) (returns : list string)
    (outputs : option (list (string * list key))) (tags : list string)
    (self : ProgramaticActionsRegistry.t) (outs : list (string * list key)) :
  ProgramaticActionsRegistry.nodes self !! node_id = None →
  declared_outputs returns outputs = Some outs →
  ∃ s1 node,
    ProgramaticActionsRegistry_register func_to_return_vars fn node_id
      description returns outputs tags self = (s1, Ok node) ∧
    node = Node.mk node_id PROGRAMATIC (CFunction fn) description
             (func_to_vars fn)
             (OutFields (func_to_return_vars (CFunction fn) outs)) ∧
    (ProgramaticActionsRegistry_get node_id s1).2 = Ok node ∧
    (∀ other, other ≠ node_id →
       ProgramaticActionsRegistry.nodes s1 !! other
       = ProgramaticActionsRegistry.nodes self !! other) ∧
    ProgramaticActionsRegistry.counter s1 = ProgramaticActionsRegistry.counter self ∧
    ProgramaticActionsRegistry.tags_to_nodes s1
    = add_tags node_id (ProgramaticActionsRegistry.tags_to_nodes self) tags.
Proof.
  intros Hfresh Hout.
  rewrite ProgramaticActionsRegistry_register_fresh_eq, Hout by done.
  eexists _, _. split; [reflexivity|]. split; [reflexivity|]. split_and!.
  - rewrite ProgramaticActionsRegistry_get_eq. simpl. by rewrite lookup_insert_eq.
  - intros other Hne. simpl. by rewrite lookup_insert_ne.
  - done.
  - done.
Qed.

Lemma registered_action_is_retrievable_witness :
  ∃ s1 node,
    ProgramaticActionsRegistry_register simple_return_vars shout_fn "shout"
      "says it loud" ["loud"] None ["text"] ProgramaticActionsRegistry.init
    = (s1, Ok node) ∧
    node = Node.mk "shout" PROGRAMATIC (CFunction shout_fn) "says it loud"
             (func_to_vars shout_fn)
             (OutFields (simple_return_vars (CFunction shout_fn) [("loud", [])])) ∧
    (ProgramaticActionsRegistry_get "shout" s1).2 = Ok node ∧
    (∀ other, other ≠ "shout" →
       ProgramaticActionsRegistry.nodes s1 !! other
       = ProgramaticActionsRegistry.nodes ProgramaticActionsRegistry.init !! other) ∧
    ProgramaticActionsRegistry.counter s1
    = ProgramaticActionsRegistry.counter ProgramaticActionsRegistry.init ∧
    ProgramaticActionsRegistry.tags_to_nodes s1
    = add_tags "shout"
        (ProgramaticActionsRegistry.tags_to_nodes ProgramaticActionsRegistry.init)
        ["text"].
Proof.
  apply (registered_action_is_retrievable simple_return_vars shout_fn "shout"
           "says it loud" ["loud"] None ["text"] ProgramaticActionsRegistry.init
           [("loud", [])]).
  - reflexivity.
  - reflexivity.
Defined.

(** One more turn of the comprehension over [returns]. *)
Lemma returns_to_outputs_snoc (returns : list string) (x : string) :
  returns_to_outputs (returns ++ [x])
  = if bool_decide (x ∈ (returns_to_outputs returns).*1)
    then returns_to_outputs returns
    else returns_to_outputs returns ++ [(x, [])].
Proof. unfold returns_to_outputs. by rewrite foldl_app. Qed.

(** The return shape made from the names of [returns]: every name of
    [returns] has an entry, each name has one entry only, and every entry
    has the empty path. *)
Theorem default_outputs_from_returns (returns : list string) :
  NoDup (returns_to_outputs returns).*1 ∧
  (∀ x, x ∈ (returns_to_outputs returns).*1 ↔ x ∈ returns) ∧
  Forall (λ kl, kl.2 = []) (returns_to_outputs returns).
Proof.
  induction returns as [|x returns IH] using rev_ind.
  - split_and!; [constructor|done|constructor].
  - destruct IH as (Hnd & Hin & Hall). rewrite returns_to_outputs_snoc.
    case_bool_decide as Hx.
    + split_and!; [done| |done].
      intros y. rewrite Hin, elem_of_app, list_elem_of_singleton.
      split; [by left|]. intros [?| ->]; [done|]. by apply Hin.
    + split_and!.
      * rewrite fmap_app. apply NoDup_app. split_and!; [done| |apply NoDup_singleton].
        intros y Hy ->%list_elem_of_singleton. done.
      * intros y. rewrite fmap_app, !elem_of_app, Hin. simpl.
        by rewrite !list_elem_of_singleton.
      * apply Forall_app. split; [done|]. by repeat constructor.
Qed.
(** ** Registration of an AI-action *)

Lemma AIActionsRegistry_register_eq
    (jinja_fields : string → list Var.t)
    (func_to_return_vars : callable → list (string * list key) → list Var.t)
    (node_id model_id : string) (model_params : gmap string value) (fn : pyobj)
    (outputs : list (string * list key)) (description : string)
    (tags : list string) (w : World) :
  AIActionsRegistry_register jinja_fields func_to_return_vars node_id model_id
    model_params fn outputs description tags w
  = let mr := ModelRegistry.set_counter
                (λ counter, <[model_id := (default 0 (counter !! model_id) + 1)%nat]> counter)
                (model_registry w) in
    let w1 := mkWorld mr (programatic_actions_registry w) (ai_actions_registry w) in
    match ModelRegistry.models (model_registry w) !! model_id with
    | None => (w1, Raise (ValueError ("Model " +:+ model_id +:+ " not found")))
    | Some model =>
        match AIAction_init jinja_fields node_id model model_params fn outputs with
        | Raise e => (w1, Raise e)
        | Ok a =>
            let node :=
              Node.mk node_id AI (CAIAction a) description
                (AIAction.fields a ++ Model.vars model)
                match outputs with
                | [] => OutNested
                          [func_to_return_vars (CAIAction a) [("model_output", [])]]
                | _ => OutFields ((λ kl, Var_any kl.1 kl.2) <$> outputs)
                end in
            (mkWorld mr (programatic_actions_registry w)
               (AIActionsRegistry.mk
                  (<[node_id := node]> (AIActionsRegistry.nodes (ai_actions_registry w)))
                  (AIActionsRegistry.counter (ai_actions_registry w))
                  (add_tags node_id
                     (AIActionsRegistry.tags_to_nodes (ai_actions_registry w)) tags)),
             Ok node)
        end
    end.
Proof.
  unfold AIActionsRegistry_register.
  unfold bind at 1. unfold on_model_registry, zoom.
  rewrite ModelRegistry_get_eq.
  destruct (ModelRegistry.models (model_registry w) !! model_id) as [model|];
    [|done].
  unfold bind at 1. unfold new_AIAction.
  destruct (AIAction_init jinja_fields node_id model model_params fn outputs)
    as [a|e]; [|done].
  unfold ret at 1. unfold on_ai_actions_registry, zoom.
  unfold bind at 1. unfold modify at 1.
  unfold bind at 1. rewrite AIActionsRegistry_tag_loop_eq.
  unfold bind, get_state. simpl. by rewrite lookup_insert_eq.
Qed.

(** The registration of an AI-action over a model id that is not registered
    fails with the not-found error of the model registry. The AI-action
    registry and the programmatic registry are as they were, and the model
    registry has counted the lookup. *)
Theorem ai_registration_unknown_model
    (jinja_fields : string → list Var.t)
    (func_to_return_vars : callable → list (string * list key) → list Var.t)
    (node_id model_id : string) (model_params : gmap string value) (fn : pyobj)
    (outputs : list (string * list key)) (description : string)
    (tags : list string) (w : World) :
  ModelRegistry.models (model_registry w) !! model_id = None →
  ∃ w',
    AIActionsRegistry_register jinja_fields func_to_return_vars node_id model_id
      model_params fn outputs description tags w
    = (w', Raise (ValueError ("Model " +:+ model_id +:+ " not found"))) ∧
    ai_actions_registry w' = ai_actions_registry w ∧
    programatic_actions_registry w' = programatic_actions_registry w ∧
    ModelRegistry.models (model_registry w') = ModelRegistry.models (model_registry w) ∧
    ModelRegistry_get_count_for_model model_id (model_registry w')
    = (ModelRegistry_get_count_for_model model_id (model_registry w) + 1)%nat.
Proof.
  intros Hnone. rewrite AIActionsRegistry_register_eq. simpl. rewrite Hnone.
  eexists. split; [reflexivity|]. split_and!; try done.
  unfold ModelRegistry_get_count_for_model. simpl. by rewrite lookup_insert_eq.
Qed.

(** The registration of an AI-action whose construction fails raises the
    error of the construction. The AI-action registry is as it was, and the
    model registry has counted the lookup of the model. *)
Theorem ai_registration_failed_construction
    (jinja_fields : string → list Var.t)
    (func_to_return_vars : callable → list (string * list key) → list Var.t)
    (node_id model_id : string) (model_params : gmap string value) (fn : pyobj)
    (outputs : list (string * list key)) (description : string)
    (tags : list string) (w : World) (model : Model.t) (e : exn) :
  ModelRegistry.models (model_registry w) !! model_id = Some model →
  AIAction_init jinja_fields node_id model model_params fn outputs = Raise e →
  ∃ w',
    AIActionsRegistry_register jinja_fields func_to_return_vars node_id model_id
      model_params fn outputs description tags w = (w', Raise e) ∧
    ai_actions_registry w' = ai_actions_registry w ∧
    programatic_actions_registry w' = programatic_actions_registry w ∧
    ModelRegistry_get_count_for_model model_id (model_registry w')
    = (ModelRegistry_get_count_for_model model_id (model_registry w) + 1)%nat.
Proof.
  intros Hmodel Hinit. rewrite AIActionsRegistry_register_eq. simpl.
  rewrite Hmodel, Hinit.
  eexists. split; [reflexivity|]. split_and!; try done.
  unfold ModelRegistry_get_count_for_model. simpl. by rewrite lookup_insert_eq.
Qed.

(** A successful registration of an AI-action: the node returned is the
    node stored under the id, of kind AI, its callable is the action built
    from the arguments, and its input fields are the fields of the action
    followed by the fields of the model. A lookup gives the same node; the
    other entries of the registry and its counters are as they were; the
    model registry has counted one lookup of the model; the programmatic
    registry is untouched. *)
Theorem registered_ai_action_is_retrievable
    (jinja_fields : string → list Var.t)
    (func_to_return_vars : callable → list (string * list key) → list Var.t)
    (node_id model_id : string) (model_params : gmap string value) (fn : pyobj)
    (outputs : list (string * list key)) (description : string)
    (tags : list string) (w : World) (model : Model.t) (a : AIAction.t) :
  ModelRegistry.models (model_registry w) !! model_id = Some model →
  AIAction_init jinja_fields node_id model model_params fn outputs = Ok a →
  ∃ w' node,
    AIActionsRegistry_register jinja_fields func_to_return_vars node_id model_id
      model_params fn outputs description tags w = (w', Ok node) ∧
    Node.id node = node_id ∧ Node.type node = AI ∧
    Node.fn node = CAIAction a ∧
    Node.fields node = AIAction.fields a ++ Model.vars model ∧
    (AIActionsRegistry_get node_id (ai_actions_registry w')).2 = Ok node ∧
    (∀ other, other ≠ node_id →
       AIActionsRegistry.nodes (ai_actions_registry w') !! other
       = AIActionsRegistry.nodes (ai_actions_registry w) !! other) ∧
    AIActionsRegistry.counter (ai_actions_registry w')
    = AIActionsRegistry.counter (ai_actions_registry w) ∧
    AIActionsRegistry.tags_to_nodes (ai_actions_registry w')
    = add_tags node_id (AIActionsRegistry.tags_to_nodes (ai_actions_registry w)) tags ∧
    ModelRegistry_get_count_for_model model_id (model_registry w')
    = (ModelRegistry_get_count_for_model model_id (model_registry w) + 1)%nat ∧
    programatic_actions_registry w' = programatic_actions_registry w.
Proof.
  intros Hmodel Hinit. rewrite AIActionsRegistry_register_eq. simpl.
  rewrite Hmodel, Hinit.
  eexists _, _. split; [reflexivity|]. split_and!; try done.
  - rewrite AIActionsRegistry_get_eq. simpl. by rewrite lookup_insert_eq.
  - intros other Hne. simpl. by rewrite lookup_insert_ne.
  - unfold ModelRegistry_get_count_for_model. simpl. by rewrite lookup_insert_eq.
Qed.

Lemma ai_registration_unknown_model_witness :
  ∃ w',
    AIActionsRegistry_register simple_fields simple_return_vars "greet" "echo"
      ∅ greet_template [] "first" ["chat"] world0
    = (w', Raise (ValueError ("Model " +:+ "echo" +:+ " not found"))) ∧
    ai_actions_registry w' = ai_actions_registry world0 ∧
    programatic_actions_registry w' = programatic_actions_registry world0 ∧
    ModelRegistry.models (model_registry w')
    = ModelRegistry.models (model_registry world0) ∧
    ModelRegistry_get_count_for_model "echo" (model_registry w')
    = (ModelRegistry_get_count_for_model "echo" (model_registry world0) + 1)%nat.
Proof.
  apply (ai_registration_unknown_model simple_fields simple_return_vars
           "greet" "echo" ∅ greet_template [] "first" ["chat"] world0).
  reflexivity.
Defined.

Lemma ai_registration_failed_construction_witness :
  ∃ w',
    AIActionsRegistry_register simple_fields simple_return_vars "greet" "echo"
      {["temperature" := VInt 1]} greet_template [] "first" ["chat"] world1
    = (w', Raise not_a_subset) ∧
    ai_actions_registry w' = ai_actions_registry world1 ∧
    programatic_actions_registry w' = programatic_actions_registry world1 ∧
    ModelRegistry_get_count_for_model "echo" (model_registry w')
    = (ModelRegistry_get_count_for_model "echo" (model_registry world1) + 1)%nat.
Proof.
  apply (ai_registration_failed_construction simple_fields simple_return_vars
           "greet" "echo" {["temperature" := VInt 1]} greet_template [] "first"
           ["chat"] world1 echo not_a_subset).
  - vm_compute. reflexivity.
  - vm_compute. reflexivity.
Defined.

Lemma registered_ai_action_is_retrievable_witness :
  ∃ w' node,
    AIActionsRegistry_register simple_fields simple_return_vars "greet" "echo"
      ∅ greet_template [] "first" ["chat"] world1 = (w', Ok node) ∧
    Node.id node = "greet" ∧ Node.type node = AI ∧
    Node.fn node = CAIAction greet_action ∧
    Node.fields node = AIAction.fields greet_action ++ Model.vars echo ∧
    (AIActionsRegistry_get "greet" (ai_actions_registry w')).2 = Ok node ∧
    (∀ other, other ≠ "greet" →
       AIActionsRegistry.nodes (ai_actions_registry w') !! other
       = AIActionsRegistry.nodes (ai_actions_registry world1) !! other) ∧
    AIActionsRegistry.counter (ai_actions_registry w')
    = AIActionsRegistry.counter (ai_actions_registry world1) ∧
    AIActionsRegistry.tags_to_nodes (ai_actions_registry w')
    = add_tags "greet"
        (AIActionsRegistry.tags_to_nodes (ai_actions_registry world1)) ["chat"] ∧
    ModelRegistry_get_count_for_model "echo" (model_registry w')
    = (ModelRegistry_get_count_for_model "echo" (model_registry world1) + 1)%nat ∧
    programatic_actions_registry w' = programatic_actions_registry world1.
Proof.
  apply (registered_ai_action_is_retrievable simple_fields simple_return_vars
           "greet" "echo" ∅ greet_template [] "first" ["chat"] world1 echo
           greet_action).
  - vm_compute. reflexivity.
  - reflexivity.
Defined.
(** * Further properties of the AI-action *)

(** ** The field loop *)

Lemma split_fields_raises (node_id : string) (fields : list Var.t)
    (data acc : gmap string value) (e : exn) :
  split_fields node_id fields data acc = Raise e →
  ∃ f, f ∈ fields ∧ Var.required f = true ∧ e = missing_field node_id f.
Proof.
  revert data acc. induction fields as [|f fs IH]; intros data acc; [done|].
  simpl. destruct (data !! Var.name f) as [v|].
  - intros (g & Hg & Hr & ->)%IH. exists g. split; [by right|done].
  - destruct (Var.required f) eqn:Hreq.
    + intros [= <-]. exists f. split; [by left|done].
    + intros (g & Hg & Hr & ->)%IH. exists g. split; [by right|done].
Qed.

Lemma split_fields_ok_iff (node_id : string) (fields : list Var.t)
    (data acc : gmap string value) :
  (∃ d _d, split_fields node_id fields data acc = Ok (d, _d))
  ↔ fields_accepted fields data.
Proof.
  revert data acc. induction fields as [|f fs IH]; intros data acc.
  - split; [|by eexists _, _]. intros _ i f. by rewrite lookup_nil.
  - simpl. destruct (data !! Var.name f) as [v|] eqn:Hf.
    + rewrite IH. split.
      * intros Hacc [|i] g Hg Hreq; simpl in *.
        -- injection Hg as <-. split; [by eexists|apply not_elem_of_nil].
        -- destruct (Hacc i g Hg Hreq) as [[x Hx] Hnin].
           apply lookup_delete_Some in Hx as [Hne Hx].
           split; [by eexists|]. rewrite not_elem_of_cons. by split.
      * intros Hacc i g Hg Hreq.
        destruct (Hacc (S i) g Hg Hreq) as [[x Hx] Hnin]. simpl in Hnin.
        apply not_elem_of_cons in Hnin as [Hne Hnin].
        split; [|done]. exists x. by rewrite lookup_delete_ne.
    + destruct (Var.required f) eqn:Hreq.
      * split; [by intros (? & ? & ?)|].
        intros Hacc. destruct (Hacc 0%nat f eq_refl Hreq) as [[x Hx] _].
        congruence.
      * rewrite IH. split.
        -- intros Hacc [|i] g Hg Hreq'; simpl in *.
           ++ injection Hg as <-. congruence.
           ++ destruct (Hacc i g Hg Hreq') as [[x Hx] Hnin].
              split; [by eexists|]. rewrite not_elem_of_cons. split; [|done].
              intros Heq. rewrite Heq in Hx. congruence.
        -- intros Hacc i g Hg Hreq'.
           destruct (Hacc (S i) g Hg Hreq') as [Hx Hnin]. simpl in Hnin.
           apply not_elem_of_cons in Hnin as [Hne Hnin]. by split.
Qed.

(** An invocation raises the missing-field exception exactly when the
    payload does not pass the field loop: some required field is not in the
    payload, or its name was already taken out of the payload by a field
    listed before it. The exception then names a required field of the
    action. *)
Theorem missing_field_raised_iff_not_accepted
    (jinja_render : string → gmap string value → string)
    (Model_call : Model.t → gmap string value → value * option exn)
    (self : AIAction.t) (payload : gmap string value) :
  (¬ fields_accepted (AIAction.fields self) payload →
   ∃ f, f ∈ AIAction.fields self ∧ Var.required f = true ∧
        AIAction_call jinja_render Model_call self payload
        = Raise (missing_field (AIAction.node_id self) f)) ∧
  (fields_accepted (AIAction.fields self) payload →
   ∀ msg, AIAction_call jinja_render Model_call self payload
          ≠ Raise (Exception msg)).
Proof.
  unfold AIAction_call.
  destruct (split_fields (AIAction.node_id self) (AIAction.fields self) payload ∅)
    as [[data _data]|e] eqn:Hs.
  - split.
    + intros Hna. exfalso. apply Hna.
      apply (split_fields_ok_iff (AIAction.node_id self) _ _ ∅). by eexists _, _.
    + intros _ msg. unfold produce_request.
      destruct (AIAction.action_source self), (AIAction.fn self) as [v|f];
        try done.
      * destruct (render_templates _ _ _ _) as [[]|]; try done.
        by destruct (Model_call _ _) as [out [err|]].
      * destruct (pf_call f _data) as [[]|]; try done.
        by destruct (Model_call _ _) as [out [err|]].
  - apply split_fields_raises in Hs as Hf. destruct Hf as (f & Hin & Hreq & ->).
    split.
    + intros _. by exists f.
    + intros Hacc. exfalso.
      apply (split_fields_ok_iff (AIAction.node_id self) _ _ ∅) in Hacc
        as (d & _d & Hok). congruence.
Qed.

(** Where the field loop puts the entry of a key. *)
Lemma split_fields_entries (node_id : string) (fields : list Var.t)
    (payload data _data : gmap string value) (k : string) :
  split_fields node_id fields payload ∅ = Ok (data, _data) →
  data !! k
  = (if bool_decide (k ∈ Var.name <$> fields) then None else payload !! k) ∧
  _data !! k
  = (if bool_decide (k ∈ Var.name <$> fields) then payload !! k else None).
Proof.
  intros Hs. destruct (split_fields_lookup _ _ _ _ _ _ Hs k) as [-> ->].
  split; [done|]. case_bool_decide; [|done]. by destruct (payload !! k).
Qed.

(** The field loop splits the payload: the entries whose key is the name of
    a field go to the own fields, all the others stay for the model;
    nothing is lost and nothing is in both. *)
Theorem field_loop_partitions_payload (node_id : string) (fields : list Var.t)
    (payload data _data : gmap string value) :
  split_fields node_id fields payload ∅ = Ok (data, _data) →
  data ∪ _data = payload ∧ data ##ₘ _data ∧
  (∀ k, is_Some (_data !! k)
        ↔ is_Some (payload !! k) ∧ k ∈ Var.name <$> fields) ∧
  (∀ k, is_Some (data !! k)
        ↔ is_Some (payload !! k) ∧ k ∉ Var.name <$> fields).
Proof.
  intros Hs.
  pose proof (λ k, split_fields_entries node_id fields payload data _data k Hs)
    as Hk.
  split_and!.
  - apply map_eq. intros k. rewrite lookup_union.
    destruct (Hk k) as [-> ->]. case_bool_decide; by destruct (payload !! k).
  - apply map_disjoint_spec. intros k x y Hx Hy.
    destruct (Hk k) as [Hd H_d]. rewrite Hx in Hd. rewrite Hy in H_d.
    by case_bool_decide.
  - intros k. destruct (Hk k) as [_ ->]. case_bool_decide.
    + tauto.
    + split; [by intros [? ?]|tauto].
  - intros k. destruct (Hk k) as [-> _]. case_bool_decide.
    + split; [by intros [? ?]|tauto].
    + tauto.
Qed.

Lemma field_loop_partitions_payload_witness :
  {["tone" := VStr "warm"; "say" := VStr "payload"]} ∪ hi_payload = tone_payload ∧
  ({["tone" := VStr "warm"; "say" := VStr "payload"]} : gmap string value)
    ##ₘ hi_payload ∧
  (∀ k, is_Some (hi_payload !! k)
        ↔ is_Some (tone_payload !! k)
          ∧ k ∈ Var.name <$> AIAction.fields tone_action) ∧
  (∀ k, is_Some (({["tone" := VStr "warm"; "say" := VStr "payload"]}
                    : gmap string value) !! k)
        ↔ is_Some (tone_payload !! k)
          ∧ k ∉ Var.name <$> AIAction.fields tone_action).
Proof.
  apply (field_loop_partitions_payload "greet" (AIAction.fields tone_action)
           tone_payload).
  vm_compute. reflexivity.
Defined.

(** ** Function mode *)



(** * Further properties of the client *)

(** ** Urls *)

Lemma append_cons (c : Ascii.ascii) (s t : string) :
  String c s +:+ t = String c (s +:+ t).
Proof. reflexivity. Qed.

Lemma append_nil_l (t : string) : "" +:+ t = t.
Proof. reflexivity. Qed.

Lemma append_nil_r (s : string) : s +:+ "" = s.
Proof. induction s as [|c s IH]; [done|]. by rewrite append_cons, IH. Qed.

Lemma append_assoc (a b c : string) : (a +:+ b) +:+ c = a +:+ (b +:+ c).
Proof. induction a as [|x a IH]; [done|]. by rewrite !append_cons, IH. Qed.

Lemma rstrip_slash_cons (c : Ascii.ascii) (s : string) :
  rstrip_slash (String c s)
  = match rstrip_slash s with
    | EmptyString => if Ascii.eqb c slash then EmptyString else String c EmptyString
    | r => String c r
    end.
Proof. done. Qed.


Lemma rstrip_slash_no_slash (s : string) :
  has_slash s = false → rstrip_slash s = s.
Proof.
  induction s as [|c s IH]; [done|]. simpl.
  intros [Hc Hs]%orb_false_elim. rewrite (IH Hs).
  destruct s; [|done]. by rewrite Hc.
Qed.

Lemma rstrip_slash_app (a b : string) :
  rstrip_slash b ≠ "" → rstrip_slash (a +:+ b) = a +:+ rstrip_slash b.
Proof.
  intros Hb. induction a as [|c a IH]; [done|].
  rewrite !append_cons, rstrip_slash_cons, IH.
  destruct (a +:+ rstrip_slash b) eqn:Hab; [|done].
  destruct a; [|done]. rewrite append_nil_l in Hab. done.
Qed.

Lemma rstrip_slash_segment (u p : string) :
  p ≠ "" → has_slash p = false →
  rstrip_slash (u +:+ "/" +:+ p) = u +:+ "/" +:+ p.
Proof.
  intros Hp Hs.
  assert (rstrip_slash ("/" +:+ p) = "/" +:+ p) as Hseg.
  { change ("/" +:+ p) with (String slash p).
    rewrite rstrip_slash_cons, (rstrip_slash_no_slash p Hs). by destruct p. }
  rewrite rstrip_slash_app; rewrite Hseg; [done|]. done.
Qed.

Lemma split_slash_nonempty (s : string) : split_slash s ≠ [].
Proof.
  induction s as [|c s IH]; [done|]. simpl.
  destruct (Ascii.eqb c slash); [done|]. by destruct (split_slash s).
Qed.

Lemma split_slash_no_slash (s : string) :
  Forall (λ p, has_slash p = false) (split_slash s).
Proof.
  induction s as [|c s IH]; [by repeat constructor|]. simpl.
  destruct (Ascii.eqb c slash) eqn:Hc; [by constructor|].
  destruct (split_slash s) as [|p ps].
  - repeat constructor. simpl. by rewrite Hc.
  - apply Forall_cons in IH as [Hp Hps]. constructor; [|done].
    simpl. by rewrite Hc, Hp.
Qed.

(** The segments of a string, each after a slash, give the string after a
    slash: [split] loses nothing. *)
Lemma path_of_split_slash (s : string) :
  path_of (split_slash s) = String slash s.
Proof.
  induction s as [|c s IH]; [done|]. simpl.
  destruct (Ascii.eqb_spec c slash) as [->|Hne].
  - simpl. by rewrite append_nil_l, IH.
  - destruct (split_slash s) as [|p ps] eqn:Hsplit.
    + by apply split_slash_nonempty in Hsplit.
    + simpl in *. injection IH as <-. by rewrite append_cons.
Qed.

Lemma foldl_getattr (segments : list string) (u token : string) :
  Forall (λ p, p ≠ "") segments →
  Forall (λ p, has_slash p = false) segments →
  foldl Subway.getattr (Subway.mk u token) segments
  = Subway.mk (u +:+ path_of segments) token.
Proof.
  revert u. induction segments as [|p ps IH]; intros u Hne Hns.
  - simpl. by rewrite append_nil_r.
  - apply Forall_cons in Hne as [Hp Hne]. apply Forall_cons in Hns as [Hs Hns].
    simpl. unfold Subway.getattr at 2. unfold Subway.init. simpl.
    rewrite rstrip_slash_segment by done. rewrite IH by done.
    f_equal. rewrite !append_assoc. done.
Qed.




(** ** The client *)

Lemma str_truthy_true (s : string) : str_truthy s = true ↔ s ≠ "".
Proof.
  unfold str_truthy. destruct (String.eqb_spec s ""); split; try done.
Qed.

Lemma get_client_eq (CF_URL CF_TOKEN prefix url token : string) :
  get_client CF_URL CF_TOKEN prefix url token
  = if str_truthy (str_or url CF_URL) then
      if str_truthy (str_or token CF_TOKEN) then
        Ok (foldl Subway.getattr
              (Subway.init (str_or url CF_URL) (str_or token CF_TOKEN))
              (split_slash prefix))
      else Raise (ValueError "No token provided, please set CF_TOKEN environment variable or pass token as argument")
    else Raise (ValueError "No url provided, please set CF_URL environment variable or pass url as argument").
Proof.
  unfold get_client, str_or.
  destruct (str_truthy (if str_truthy url then url else CF_URL)); [|done].
  by destruct (str_truthy (if str_truthy token then token else CF_TOKEN)).
Qed.

Lemma foldl_getattr_session (segments : list string) (s : Subway.t) :
  Subway._session (foldl Subway.getattr s segments) = Subway._session s.
Proof.
  revert s. induction segments as [|p ps IH]; intros s; [done|].
  simpl. by rewrite IH.
Qed.

(** The body of [get_client] on a prefix of ordinary segments: a stub is
    made exactly when there is a url and a token. *)
Lemma get_client_ok_iff (CF_URL CF_TOKEN prefix url token : string) :
  ((∃ stub, get_client CF_URL CF_TOKEN prefix url token = Ok stub)
   ↔ str_or url CF_URL ≠ "" ∧ str_or token CF_TOKEN ≠ "") ∧
  (str_or url CF_URL = "" →
   get_client CF_URL CF_TOKEN prefix url token
   = Raise (ValueError "No url provided, please set CF_URL environment variable or pass url as argument")) ∧
  (url ≠ "" → str_or url CF_URL = url) ∧
  (token ≠ "" → str_or token CF_TOKEN = token) ∧
  (∀ stub, get_client CF_URL CF_TOKEN prefix url token = Ok stub →
           Subway._session stub = str_or token CF_TOKEN).
Proof.
  rewrite get_client_eq. split_and!.
  - rewrite <- !str_truthy_true.
    destruct (str_truthy (str_or url CF_URL)),
             (str_truthy (str_or token CF_TOKEN)); split.
    + done.
    + intros _. by eexists.
    + by intros [? [=]].
    + by intros [_ [=]].
    + by intros [? [=]].
    + by intros [[=] _].
    + by intros [? [=]].
    + by intros [[=] _].
  - intros Hurl.
    destruct (str_truthy (str_or url CF_URL)) eqn:Ht; [|done].
    by apply str_truthy_true in Ht.
  - intros Hurl. unfold str_or. by rewrite (proj2 (str_truthy_true url) Hurl).
  - intros Htok. unfold str_or. by rewrite (proj2 (str_truthy_true token) Htok).
  - intros stub.
    destruct (str_truthy (str_or url CF_URL)); [|done].
    destruct (str_truthy (str_or token CF_TOKEN)); [|done].
    intros [= <-]. by rewrite foldl_getattr_session.
Qed.

(** The body of [get_client] on a prefix of ordinary segments, none of
    them empty. *)
Lemma get_client_clean_prefix (CF_URL CF_TOKEN prefix url token : string) :
  str_or url CF_URL ≠ "" → str_or token CF_TOKEN ≠ "" →
  clean_prefix prefix →
  get_client CF_URL CF_TOKEN prefix url token
  = Ok (Subway.mk (rstrip_slash (str_or url CF_URL) +:+ "/" +:+ prefix)
          (str_or token CF_TOKEN)).
Proof.
  intros Hurl Htok Hclean. rewrite get_client_eq.
  rewrite (proj2 (str_truthy_true _) Hurl), (proj2 (str_truthy_true _) Htok).
  unfold Subway.init.
  rewrite foldl_getattr; [|done|apply split_slash_no_slash].
  by rewrite path_of_split_slash.
Qed.

(** ** Resolution of the nodes of a fetched chain *)

Lemma lookup_ai_eq (cf_id : string) (c : Client) :
  lookup_ai cf_id c
  = (count_ai cf_id c,
     Ok (AIActionsRegistry.nodes (ai_actions_registry (world c)) !! cf_id)).
Proof.
  unfold lookup_ai, try_except, bind, on_world, on_ai_actions_registry, zoom.
  rewrite AIActionsRegistry_get_eq. unfold count_ai.
  by destruct (AIActionsRegistry.nodes (ai_actions_registry (world c)) !! cf_id).
Qed.

Lemma lookup_programatic_eq (cf_id : string) (c : Client) :
  lookup_programatic cf_id c
  = (count_programatic cf_id c,
     Ok (ProgramaticActionsRegistry.nodes
           (programatic_actions_registry (world c)) !! cf_id)).
Proof.
  unfold lookup_programatic, try_except, bind, on_world,
    on_programatic_actions_registry, zoom.
  rewrite ProgramaticActionsRegistry_get_eq. unfold count_programatic.
  by destruct (ProgramaticActionsRegistry.nodes
                 (programatic_actions_registry (world c)) !! cf_id).
Qed.

Section resolve.
Variable remote : list request → request → value * bool.
Variable Node_from_dict : value → result Node.t.

Lemma lookup_remote_eq (stub : Subway.t) (cf_id : string) (c : Client) :
  lookup_remote remote Node_from_dict stub cf_id c
  = (sent (action_request stub cf_id) c,
     match remote (requests c) (action_request stub cf_id) with
     | (action, false) =>
         match Node_from_dict action with
         | Ok n => Ok n
         | Raise _ => Raise (action_not_found cf_id)
         end
     | (_, true) => Raise (action_not_found cf_id)
     end).
Proof.
  unfold lookup_remote, try_except, bind, Subway_call, action_request, sent.
  destruct (remote _ _) as [action [|]]; [done|].
  unfold lift_result. by destruct (Node_from_dict action).
Qed.

(** One turn of the loop over the nodes of the dag. *)
Lemma resolve_nodes_cons (stub : Subway.t) (node : FENode.t)
    (rest : list FENode.t) (actions_map : gmap string Node.t)
    (nodes : list Node.t) (c : Client) :
  resolve_nodes remote Node_from_dict stub (node :: rest) actions_map nodes c
  = let cf_id := FENode.cf_id node in
    let next n am c' :=
      resolve_nodes remote Node_from_dict stub rest am
        (nodes ++ [set_id (FENode.id node) n]) c' in
    if negb (str_truthy cf_id) && negb (truthy (FENode.cf_data node)) then
      (c, Raise (ValueError ("Action " +:+ FENode.id node
                               +:+ " has no cf_id or cf_data")))
    else if truthy (FENode.cf_data node) then
      match Node_from_dict (FENode.cf_data node) with
      | Ok n => next n actions_map c
      | Raise e => (c, Raise e)
      end
    else
      match actions_map !! cf_id with
      | Some n => next n actions_map c
      | None =>
          match AIActionsRegistry.nodes (ai_actions_registry (world c)) !! cf_id with
          | Some n => next n actions_map (count_ai cf_id c)
          | None =>
              match ProgramaticActionsRegistry.nodes
                      (programatic_actions_registry (world c)) !! cf_id with
              | Some n =>
                  next n actions_map (count_programatic cf_id (count_ai cf_id c))
              | None =>
                  let c3 := sent (action_request stub cf_id)
                              (count_programatic cf_id (count_ai cf_id c)) in
                  match remote (requests c) (action_request stub cf_id) with
                  | (action, false) =>
                      match Node_from_dict action with
                      | Ok n => next n (<[cf_id := n]> actions_map) c3
                      | Raise _ => (c3, Raise (action_not_found cf_id))
                      end
                  | (_, true) => (c3, Raise (action_not_found cf_id))
                  end
              end
          end
      end.
Proof.
  cbn [resolve_nodes]. cbv zeta.
  destruct (negb (str_truthy (FENode.cf_id node))
            && negb (truthy (FENode.cf_data node))); [done|].
  unfold bind at 1.
  destruct (truthy (FENode.cf_data node)).
  - unfold bind at 1. unfold lift_result.
    destruct (Node_from_dict (FENode.cf_data node)) as [n|e]; [|done].
    done.
  - unfold ret at 1.
    destruct (actions_map !! FENode.cf_id node) as [n|]; [done|].
    unfold bind at 1. rewrite lookup_ai_eq.
    destruct (AIActionsRegistry.nodes (ai_actions_registry (world c))
                !! FENode.cf_id node) as [n|]; [done|].
    unfold bind at 1. rewrite lookup_programatic_eq.
    change (programatic_actions_registry (world (count_ai (FENode.cf_id node) c)))
      with (programatic_actions_registry (world c)).
    destruct (ProgramaticActionsRegistry.nodes
                (programatic_actions_registry (world c)) !! FENode.cf_id node)
      as [n|]; [done|].
    unfold bind at 1. unfold bind at 1. rewrite lookup_remote_eq.
    change (requests (count_programatic (FENode.cf_id node)
                        (count_ai (FENode.cf_id node) c)))
      with (requests c).
    destruct (remote (requests c) (action_request stub (FENode.cf_id node)))
      as [action [|]]; [done|].
    by destruct (Node_from_dict action).
Qed.
End resolve.
Section resolve_theorems.
Variable remote : list request → request → value * bool.
Variable Node_from_dict : value → result Node.t.

(** Nodes that come with their body are resolved from it alone: no registry
    is looked up and no request is sent. *)
Lemma resolve_nodes_inline (stub : Subway.t)
    (dag_nodes : list FENode.t) (actions_map : gmap string Node.t)
    (acc : list Node.t) (c : Client) :
  Forall (λ node, truthy (FENode.cf_data node) = true) dag_nodes →
  (resolve_nodes remote Node_from_dict stub dag_nodes actions_map acc c).1 = c.
Proof.
  revert acc. induction dag_nodes as [|node rest IH]; intros acc Hall; [done|].
  apply Forall_cons in Hall as [Hnode Hall].
  rewrite resolve_nodes_cons. cbv zeta. rewrite Hnode.
  rewrite andb_false_r.
  destruct (Node_from_dict (FENode.cf_data node)); [by apply IH|done].
Qed.
End resolve_theorems.

Section chain.
Variable CF_URL CF_TOKEN : string.
Variable remote : list request → request → value * bool.
Variable Node_from_dict : value → result Node.t.
Variable Edge : Type.
Variable Edge_from_dict : DagEdge.t → result Edge.
Variable Chain : Type.
Variable Chain_init :
  list Node.t → list Edge → list (string * value) → string → string →
  result Chain.

Lemma get_chain_from_id_eq (id : string) (c : Client) :
  get_chain_from_id CF_URL CF_TOKEN remote Node_from_dict Edge Edge_from_dict
    Chain Chain_init id c
  = match get_client CF_URL CF_TOKEN "api/v1" "" "" with
    | Raise e => (c, Raise e)
    | Ok stub =>
        let c1 := sent (chain_request stub id) c in
        match remote (requests c) (chain_request stub id) with
        | (_, true) =>
            (c1, Raise (ValueError ("Could not get chain with id " +:+ id)))
        | (chain, false) =>
            match get_item chain (KStr "dag") with
            | None => (c1, Raise (KeyError "dag"))
            | Some (VDict d) =>
                match Dag_parse d with
                | Raise e => (c1, Raise e)
                | Ok dag =>
                    if negb (truthy (VDict (Dag.sample dag))) then
                      (c1, Raise (ValueError "Dag has no sample"))
                    else if negb (str_truthy (Dag.main_in dag)) then
                      (c1, Raise (ValueError "Dag has no main_in"))
                    else if negb (str_truthy (Dag.main_out dag)) then
                      (c1, Raise (ValueError "Dag has no main_out"))
                    else
                      match resolve_nodes remote Node_from_dict stub
                              (Dag.nodes dag) ∅ [] c1 with
                      | (c2, Raise e) => (c2, Raise e)
                      | (c2, Ok nodes) =>
                          (c2,
                           result_bind (build_edges Edge Edge_from_dict (Dag.edges dag) [])
                             (λ edges, Chain_init nodes edges (Dag.sample dag)
                                         (Dag.main_in dag) (Dag.main_out dag)))
                      end
                end
            | Some _ => (c1, Raise (TypeError "argument after ** must be a mapping"))
            end
        end
    end.
Proof.
  unfold get_chain_from_id.
  destruct (get_client CF_URL CF_TOKEN "api/v1" "" "") as [stub|e]; [|done].
  unfold bind at 1. unfold lift_result at 1, ret at 1.
  unfold bind at 1. unfold Subway_call at 1.
  fold (chain_request stub id). fold (sent (chain_request stub id) c).
  destruct (remote (requests c) (chain_request stub id)) as [chain [|]]; [done|].
  unfold bind at 1.
  destruct (get_item chain (KStr "dag")) as [[| | | | |d]|]; try done.
  unfold lift_result at 1.
  destruct (Dag_parse d) as [dag|e]; [|done]. unfold ret at 1.
  destruct (negb (truthy (VDict (Dag.sample dag)))); [done|].
  destruct (negb (str_truthy (Dag.main_in dag))); [done|].
  destruct (negb (str_truthy (Dag.main_out dag))); [done|].
  unfold bind at 1.
  destruct (resolve_nodes _ _ _ _ _ _ _) as [c2 [nodes|e]]; [|done].
  unfold bind, lift_result, result_bind.
  destruct (build_edges Edge Edge_from_dict (Dag.edges dag) []) as [edges|e];
    [|done].
  unfold ret at 1. by destruct (Chain_init _ _ _ _ _).
Qed.

(** Without a url or a token no request is sent; when the service answers
    the request for the chain with an error, the load fails after that one
    request, and nothing else has happened. *)
Theorem chain_not_fetched (id : string) (c : Client) :
  (∀ e, get_client CF_URL CF_TOKEN "api/v1" "" "" = Raise e →
        get_chain_from_id CF_URL CF_TOKEN remote Node_from_dict Edge
          Edge_from_dict Chain Chain_init id c = (c, Raise e)) ∧
  (∀ stub body,
     get_client CF_URL CF_TOKEN "api/v1" "" "" = Ok stub →
     remote (requests c) (chain_request stub id) = (body, true) →
     get_chain_from_id CF_URL CF_TOKEN remote Node_from_dict Edge
       Edge_from_dict Chain Chain_init id c
     = (sent (chain_request stub id) c,
        Raise (ValueError ("Could not get chain with id " +:+ id)))).
Proof.
  split.
  - intros e He. by rewrite get_chain_from_id_eq, He.
  - intros stub body Hstub Hremote.
    rewrite get_chain_from_id_eq, Hstub. cbv zeta. by rewrite Hremote.
Qed.

(** A chain whose nodes all come with their body is loaded with the one
    request for the chain: no registry is looked up, no action is asked
    for. *)
Theorem inline_chain_needs_no_lookup (id : string) (c : Client)
    (stub : Subway.t) (chain : value) (d : list (string * value))
    (dag : Dag.t) :
  get_client CF_URL CF_TOKEN "api/v1" "" "" = Ok stub →
  remote (requests c) (chain_request stub id) = (chain, false) →
  get_item chain (KStr "dag") = Some (VDict d) →
  Dag_parse d = Ok dag →
  Forall (λ node, truthy (FENode.cf_data node) = true) (Dag.nodes dag) →
  (get_chain_from_id CF_URL CF_TOKEN remote Node_from_dict Edge Edge_from_dict
     Chain Chain_init id c).1
  = sent (chain_request stub id) c.
Proof.
  intros Hstub Hremote Hdag Hparse Hinline.
  rewrite get_chain_from_id_eq, Hstub. cbv zeta. rewrite Hremote, Hdag, Hparse.
  destruct (negb (truthy (VDict (Dag.sample dag)))); [done|].
  destruct (negb (str_truthy (Dag.main_in dag))); [done|].
  destruct (negb (str_truthy (Dag.main_out dag))); [done|].
  pose proof (resolve_nodes_inline remote Node_from_dict stub (Dag.nodes dag)
                ∅ [] (sent (chain_request stub id) c) Hinline) as Hres.
  by destruct (resolve_nodes _ _ _ _ _ _ _) as [c2 [nodes|e]].
Qed.
End chain.

Section fallback.
Variable remote : list request → request → value * bool.
Variable Node_from_dict : value → result Node.t.

(** An action that no registry has and that the service does not give (it
    answers with an error, or with something that is not a node) ends the
    load with the not-found error, after the lookups and the request. *)
Theorem unknown_action_rejected (stub : Subway.t) (node : FENode.t)
    (rest : list FENode.t) (actions_map : gmap string Node.t)
    (acc : list Node.t) (c : Client) (body : value) (err : bool) :
  truthy (FENode.cf_data node) = false → FENode.cf_id node ≠ "" →
  actions_map !! FENode.cf_id node = None →
  AIActionsRegistry.nodes (ai_actions_registry (world c)) !! FENode.cf_id node
  = None →
  ProgramaticActionsRegistry.nodes (programatic_actions_registry (world c))
    !! FENode.cf_id node = None →
  remote (requests c) (action_request stub (FENode.cf_id node)) = (body, err) →
  err = true ∨ (∃ e, Node_from_dict body = Raise e) →
  resolve_nodes remote Node_from_dict stub (node :: rest) actions_map acc c
  = (sent (action_request stub (FENode.cf_id node))
       (count_programatic (FENode.cf_id node) (count_ai (FENode.cf_id node) c)),
     Raise (action_not_found (FENode.cf_id node))).
Proof.
  intros Hdata Hid Hcache Hai Hprog Hremote Hbad.
  apply str_truthy_true in Hid.
  rewrite resolve_nodes_cons. cbv zeta.
  rewrite Hdata, Hid, Hcache, Hai, Hprog, Hremote. simpl.
  destruct err; [done|]. destruct Hbad as [[=]|[e ->]]. done.
Qed.
End fallback.

(** ** The edges of a fetched chain *)

Section edges.
Variable Edge : Type.
Variable Edge_from_dict : DagEdge.t → result Edge.

Lemma build_edges_ok_iff (dag_edges : list DagEdge.t) (acc edges : list Edge) :
  build_edges Edge Edge_from_dict dag_edges acc = Ok edges
  ↔ Forall (λ edge, valid_edge edge = true) dag_edges ∧
    ∃ l, result_map Edge_from_dict dag_edges = Ok l ∧ edges = acc ++ l.
Proof.
  revert acc. induction dag_edges as [|edge rest IH]; intros acc.
  - simpl. split.
    + intros [= <-]. split; [constructor|]. exists []. by rewrite app_nil_r.
    + intros (_ & l & [= <-] & ->). by rewrite app_nil_r.
  - simpl. fold (valid_edge edge). rewrite Forall_cons.
    destruct (valid_edge edge); simpl.
    + unfold result_bind at 1.
      destruct (Edge_from_dict edge) as [e|err]; simpl.
      * rewrite IH. split.
        -- intros (Hall & l & Hl & ->). split; [done|].
           exists (e :: l). rewrite Hl. simpl. by rewrite <- app_assoc.
        -- intros ([_ Hall] & l & Hl & ->). split; [done|].
           destruct (result_map Edge_from_dict rest) as [l'|]; [|done].
           simpl in Hl. injection Hl as <-. exists l'.
           by rewrite <- app_assoc.
      * split; [done|]. by intros (_ & l & [=] & _).
    + split; [done|]. by intros ([[=] _] & _).
Qed.

(** The edges of a chain are built exactly when every edge of the dag has
    a source, a target and both handles, and every one converts; there is
    then one edge for each edge of the dag, in the order of the dag. *)
Theorem edges_built_in_order (dag_edges : list DagEdge.t) (edges : list Edge) :
  (build_edges Edge Edge_from_dict dag_edges [] = Ok edges
   ↔ Forall (λ edge, valid_edge edge = true) dag_edges ∧
     result_map Edge_from_dict dag_edges = Ok edges) ∧
  (build_edges Edge Edge_from_dict dag_edges [] = Ok edges →
   length edges = length dag_edges).
Proof.
  assert (∀ l : list Edge, result_map Edge_from_dict dag_edges = Ok l →
                           length l = length dag_edges) as Hlen.
  { induction dag_edges as [|edge rest IH]; intros l; simpl.
    - by intros [= <-].
    - unfold result_bind.
      destruct (Edge_from_dict edge); [|done].
      destruct (result_map Edge_from_dict rest) as [l'|]; [|done].
      intros [= <-]. simpl. by rewrite (IH l'). }
  rewrite build_edges_ok_iff. split.
  - split.
    + by intros (Hall & l & Hl & ->).
    + intros [Hall Hl]. split; [done|]. by exists edges.
  - intros (_ & l & Hl & ->). by apply Hlen.
Qed.
End edges.

(** *** The examples *)

Lemma inline_chain_needs_no_lookup_witness :
  (get_chain_from_id "http://localhost:8000" "token" remote_inline
     far_Node_from_dict unit (λ _, Ok tt) unit (λ _ _ _ _ _, Ok tt)
     "inline" client3).1
  = sent (chain_request stub0 "inline") client3.
Proof.
  apply (inline_chain_needs_no_lookup "http://localhost:8000" "token"
           remote_inline far_Node_from_dict unit (λ _, Ok tt) unit
           (λ _ _ _ _ _, Ok tt) "inline" client3 stub0 inline_chain
           inline_dag_items inline_dag).
  - reflexivity.
  - reflexivity.
  - reflexivity.
  - reflexivity.
  - repeat constructor.
Defined.

Lemma unknown_action_rejected_witness :
  resolve_nodes remote_down far_Node_from_dict stub0 [node_far1] ∅ [] client3
  = (sent (action_request stub0 "far")
       (count_programatic "far" (count_ai "far" client3)),
     Raise (action_not_found "far")).
Proof.
  apply (unknown_action_rejected remote_down far_Node_from_dict stub0
           node_far1 [] ∅ [] client3 (VStr "Internal Server Error") true);
    try reflexivity; try discriminate; try (by left); vm_compute; reflexivity.
Defined.

(** * Publishing a chain *)

Section publish_facts.
Variable CF_URL CF_TOKEN : string.
Variable remote_json : list request → request → option value → value * bool.
Variable repr : value → string.

(** The loop over the nodes sends one request for every node it gets
    through when actions are created, none otherwise, and does not touch
    the registries; when it ends well there is one wrapper for every
    node. *)
Lemma publish_nodes_requests (stub : Subway.t) (create_actions : bool)
    (nodes : list value) (i : nat) (acc : list value) (c c' : Client)
    (r : result (list value)) :
  publish_nodes remote_json stub create_actions nodes i acc c = (c', r) →
  world c' = world c ∧
  ∃ k, requests c' = requests c ++ replicate k (action_post stub) ∧
       (k ≤ if create_actions then length nodes else 0)%nat ∧
       (∀ dag_nodes, r = Ok dag_nodes →
          k = (if create_actions then length nodes else 0)%nat ∧
          length dag_nodes = (length acc + length nodes)%nat).
Proof.
  revert i acc c. induction nodes as [|node rest IH]; intros i acc c.
  - simpl. intros [= <- <-]. split; [done|]. exists 0%nat.
    rewrite app_nil_r. split; [done|]. split; [by destruct create_actions|].
    intros ? [= <-]. split; [by destruct create_actions|lia].
  - cbn [publish_nodes]. unfold bind at 1. unfold lift_result at 1.
    destruct (subscript node "id") as [id|e].
    2:{ intros [= <- <-]. split; [done|]. exists 0%nat. rewrite app_nil_r.
        split; [done|]. split; [destruct create_actions; simpl; lia|done]. }
    unfold ret at 1. unfold bind at 1.
    destruct create_actions.
    + unfold bind at 1. unfold lift_result at 1.
      destruct (action_json node) as [json|e].
      2:{ intros [= <- <-]. split; [done|]. exists 0%nat. rewrite app_nil_r.
          split; [done|]. split; [simpl; lia|done]. }
      unfold ret at 1. unfold bind at 1. unfold Subway_request at 1.
      fold (action_post stub).
      destruct (remote_json (requests c) (action_post stub) _) as [out [|]].
      { intros [= <- <-]. split; [done|]. exists 1%nat.
        split; [done|]. split; [simpl; lia|done]. }
      unfold bind at 1. unfold lift_result at 1.
      destruct (subscript out "id") as [out_id|e].
      2:{ intros [= <- <-]. split; [done|]. exists 1%nat.
          split; [done|]. split; [simpl; lia|done]. }
      unfold ret at 1. intros Hrest.
      apply IH in Hrest as (Hw & k & Hreq & Hle & Hok). simpl in *.
      split; [done|]. exists (S k). split; [|split; [lia|]].
      * rewrite Hreq, <- app_assoc. done.
      * intros dag_nodes Hr. destruct (Hok _ Hr) as [-> ->].
        rewrite length_app. simpl. split; lia.
    + unfold ret at 1. intros Hrest.
      apply IH in Hrest as (Hw & k & Hreq & Hle & Hok).
      split; [done|]. exists k. split; [done|]. split; [done|].
      intros dag_nodes Hr. destruct (Hok _ Hr) as [-> ->].
      rewrite length_app. simpl. split; lia.
Qed.

(** A publication changes no registry.  It sends one request for every
    node it gets through when the actions are created, none otherwise,
    then at most the request that creates the chain; it ends well only
    after all of them. *)
Theorem publication_requests (name : string) (chain_dict nodes_v : value)
    (nodes : list value) (stub : Subway.t) (create_actions : bool)
    (c c' : Client) (r : result value) :
  get_client CF_URL CF_TOKEN "api/v1" "" "" = Ok stub →
  subscript chain_dict "nodes" = Ok nodes_v →
  iterate nodes_v = Ok nodes →
  create_new_chain CF_URL CF_TOKEN remote_json repr name chain_dict
    create_actions c = (c', r) →
  world c' = world c ∧
  ∃ (k : nat) (posted : bool),
    requests c'
    = requests c ++ replicate k (action_post stub)
        ++ (if posted then [chain_post stub] else []) ∧
    (k ≤ if create_actions then length nodes else 0)%nat ∧
    (posted = true → k = (if create_actions then length nodes else 0)%nat) ∧
    (∀ out, r = Ok out → posted = true).
Proof.
  intros Hstub Hnodes Hiter. unfold create_new_chain.
  unfold bind at 1. rewrite Hstub. unfold lift_result at 1, ret at 1.
  unfold bind at 1. rewrite Hnodes. unfold lift_result at 1, ret at 1.
  unfold bind at 1. rewrite Hiter. unfold lift_result at 1, ret at 1.
  unfold bind at 1.
  destruct (publish_nodes remote_json stub create_actions nodes 0 [] c)
    as [c1 r1] eqn:Hloop.
  apply publish_nodes_requests in Hloop as (Hw & k & Hreq & Hle & Hok).
  destruct r1 as [dag_nodes|e].
  2:{ intros [= <- <-]. split; [done|]. exists k, false.
      rewrite app_nil_r. split; [done|]. split; [done|]. split; done. }
  destruct (Hok _ eq_refl) as [Hk _].
  destruct chain_dict as [| | | | |cd]; try discriminate.
  unfold bind at 1. unfold lift_result at 1.
  destruct (with_edge_ids repr _) as [cd'|e]; [unfold ret at 1|].
  2:{ intros [= <- <-]. split; [done|]. exists k, false.
      rewrite app_nil_r. split; [done|]. split; [done|]. split; done. }
  unfold bind at 1. unfold Subway_request at 1. fold (chain_post stub).
  destruct (remote_json (requests c1) (chain_post stub) _) as [out [|]].
  - intros [= <- <-]. split; [done|]. exists k, true. simpl.
    split; [by rewrite Hreq, <- app_assoc|]. split; [done|]. split; done.
  - intros [= <- <-]. split; [done|]. exists k, true. simpl.
    split; [by rewrite Hreq, <- app_assoc|]. split; [done|]. split; done.
Qed.

Lemma dict_get_set_ne (k k' : string) (v : value) (d : list (string * value)) :
  k ≠ k' → dict_get k (dict_set k' v d) = dict_get k d.
Proof.
  intros Hne. induction d as [|[k0 v0] d IH]; simpl.
  - by destruct (String.eqb_spec k k').
  - destruct (String.eqb_spec k' k0) as [->|Hne0]; simpl.
    + by destruct (String.eqb_spec k k0).
    + destruct (String.eqb_spec k k0); [done|]. apply IH.
Qed.

(** Without the creation of actions the loop over the nodes sends nothing:
    it wraps every node, whole, at the place its number gives. *)
Lemma publish_nodes_inline (stub : Subway.t) (nodes ids : list value)
    (i : nat) (acc : list value) (c : Client) :
  result_map (λ node, subscript node "id") nodes = Ok ids →
  publish_nodes remote_json stub false nodes i acc c
  = (c, Ok (acc ++ inline_nodes i nodes ids)).
Proof.
  revert ids i acc. induction nodes as [|node rest IH]; intros ids i acc.
  - simpl. intros [= <-]. by rewrite app_nil_r.
  - cbn [result_map publish_nodes]. unfold result_bind at 1.
    destruct (subscript node "id") as [id|e]; [|done].
    unfold result_bind at 1.
    destruct (result_map _ rest) as [ids'|e] eqn:Hrest; [|done].
    intros [= <-]. unfold bind at 1. unfold lift_result at 1, ret at 1.
    unfold bind at 1. unfold ret at 1.
    rewrite (IH ids' (S i) _ eq_refl). by rewrite <- app_assoc.
Qed.

(** A chain published with its actions inline costs one request, the one
    that creates the chain.  Its body is the chain's mapping with every
    node replaced by a wrapper that holds the node whole, placed on the
    diagonal in steps of 100, and every edge given its id; the answer of
    the service is returned, or its refusal raised. *)
Theorem inline_publication (name : string) (cd : list (string * value))
    (nodes ids edges edges' : list value) (stub : Subway.t) (c : Client) :
  get_client CF_URL CF_TOKEN "api/v1" "" "" = Ok stub →
  dict_get "nodes" cd = Some (VList nodes) →
  dict_get "edges" cd = Some (VList edges) →
  result_map (λ node, subscript node "id") nodes = Ok ids →
  result_map (edge_with_id repr) edges = Ok edges' →
  create_new_chain CF_URL CF_TOKEN remote_json repr name (VDict cd) false c
  = (sent (chain_post stub) c,
     let dag := dict_set "edges" (VList edges')
                  (dict_set "nodes" (VList (inline_nodes 0 nodes ids)) cd) in
     let data := VDict [("name", VStr name); ("dag", VDict dag);
                        ("engine", VStr "fury")] in
     match remote_json (requests c) (chain_post stub) (Some data) with
     | (out, false) => Ok out
     | (_, true) => Raise (ValueError "Could not create chain")
     end).
Proof.
  intros Hstub Hnodes Hedges Hids Hes. unfold create_new_chain.
  unfold bind at 1. rewrite Hstub. unfold lift_result at 1, ret at 1.
  unfold bind at 1. unfold subscript at 1. rewrite Hnodes.
  unfold lift_result at 1, ret at 1. unfold bind at 1. unfold iterate at 1.
  unfold lift_result at 1, ret at 1. unfold bind at 1.
  rewrite (publish_nodes_inline stub nodes ids 0 [] c Hids).
  rewrite app_nil_l. unfold bind at 1. unfold with_edge_ids.
  unfold subscript at 1. rewrite dict_get_set_ne by done. rewrite Hedges.
  unfold result_bind at 1. rewrite Hes. unfold result_bind at 1.
  unfold lift_result at 1, ret at 1. unfold bind at 1. unfold Subway_request at 1.
  fold (chain_post stub). unfold sent. cbn [truthy]. cbv zeta.
  by destruct (remote_json _ _ _) as [out [|]].
Qed.

(** When the service refuses the action of a node, the publication stops
    there with a [ValueError], whatever nodes follow: the request for that
    action is the last one sent. *)
Theorem refused_action_stops_the_loop (stub : Subway.t) (node id json out : value)
    (rest : list value) (i : nat) (acc : list value) (c : Client) :
  subscript node "id" = Ok id →
  action_json node = Ok json →
  remote_json (requests c) (action_post stub) (Some json) = (out, true) →
  publish_nodes remote_json stub true (node :: rest) i acc c
  = (sent (action_post stub) c, Raise (ValueError "Could not create node")).
Proof.
  intros Hid Hjson Hremote. cbn [publish_nodes].
  unfold bind at 1. rewrite Hid. unfold lift_result at 1, ret at 1.
  unfold bind at 1. unfold bind at 1. rewrite Hjson. unfold lift_result at 1, ret at 1.
  unfold bind at 1. unfold Subway_request at 1. fold (action_post stub).
  assert (truthy json = true) as ->.
  { unfold action_json, result_bind in Hjson.
    repeat match type of Hjson with
           | match ?x with _ => _ end = _ => destruct x; [|discriminate]
           end.
    by injection Hjson as <-. }
  by rewrite Hremote.
Qed.

End publish_facts.
Lemma publication_requests_witness :
  let out := create_new_chain "http://localhost:8000" "token" service_creates
               no_repr "demo" (VDict chain_dict0) true client0 in
  world out.1 = world client0 ∧
  ∃ (k : nat) (posted : bool),
    requests out.1
    = requests client0 ++ replicate k (action_post stub0)
        ++ (if posted then [chain_post stub0] else []) ∧
    (k ≤ 1)%nat ∧ (posted = true → k = 1%nat) ∧
    (∀ v, out.2 = Ok v → posted = true).
Proof.
  apply (publication_requests "http://localhost:8000" "token" service_creates
           no_repr "demo" (VDict chain_dict0) (VList [node_dict]) [node_dict]
           stub0 true client0).
  - vm_compute; reflexivity.
  - reflexivity.
  - reflexivity.
  - apply surjective_pairing.
Defined.

Lemma inline_publication_witness :
  create_new_chain "http://localhost:8000" "token" service_creates no_repr
    "demo" (VDict chain_dict0) false client0
  = (sent (chain_post stub0) client0,
     let dag := dict_set "edges"
                  (VList [VDict [("source", VStr "n1"); ("sourceHandle", VStr "out");
                                 ("target", VStr "n2"); ("targetHandle", VStr "in");
                                 ("id", VStr "n1/out-n2in")]])
                  (dict_set "nodes"
                     (VList (inline_nodes 0 [node_dict] [VStr "n1"])) chain_dict0) in
     let data := VDict [("name", VStr "demo"); ("dag", VDict dag);
                        ("engine", VStr "fury")] in
     match service_creates (requests client0) (chain_post stub0) (Some data) with
     | (out, false) => Ok out
     | (_, true) => Raise (ValueError "Could not create chain")
     end).
Proof.
  apply (inline_publication "http://localhost:8000" "token" service_creates
           no_repr "demo" chain_dict0 [node_dict] [VStr "n1"] [edge_dict]).
  - vm_compute; reflexivity.
  - reflexivity.
  - reflexivity.
  - reflexivity.
  - vm_compute; reflexivity.
Defined.

Lemma refused_action_stops_the_loop_witness :
  publish_nodes service_refuses stub0 true [node_dict; node_dict] 0 [] client0
  = (sent (action_post stub0) client0, Raise (ValueError "Could not create node")).
Proof.
  apply (refused_action_stops_the_loop service_refuses stub0 node_dict
           (VStr "n1")
           (VDict [("name", VStr "greet"); ("description", VStr "");
                   ("fn", VDict [("model_id", VStr "tone");
                                 ("model_params", VDict []);
                                 ("fn", VDict [("text", VStr "Hi")])]);
                   ("outputs", VList [])])
           (VStr "Bad Request") [node_dict] 0 [] client0).
  - reflexivity.
  - reflexivity.
  - reflexivity.
Defined.

(** * Node objects during a load *)

Section objects_facts.
Variable remote : list request → request → value * bool.
Variable Node_from_dict : value → result Node.t.

(** One turn of the loop over the nodes of the dag, on references. *)
Lemma resolve_node_objects_cons (stub : Subway.t) (node : FENode.t)
    (rest : list FENode.t) (actions_map : gmap string node_ref)
    (nodes : list node_ref) (o : Objects) :
  resolve_node_objects remote Node_from_dict stub (node :: rest) actions_map
    nodes o
  = let cf_id := FENode.cf_id node in
    let next r am o' :=
      resolve_node_objects remote Node_from_dict stub rest am (nodes ++ [r])
        (write_id r (FENode.id node) o') in
    if negb (str_truthy cf_id) && negb (truthy (FENode.cf_data node)) then
      (o, Raise (ValueError ("Action " +:+ FENode.id node
                               +:+ " has no cf_id or cf_data")))
    else if truthy (FENode.cf_data node) then
      match Node_from_dict (FENode.cf_data node) with
      | Ok n => next (FromDict (length (made o))) actions_map (with_new n o)
      | Raise e => (o, Raise e)
      end
    else
      match actions_map !! cf_id with
      | Some r => next r actions_map o
      | None =>
          match deref (InAIRegistry cf_id) o with
          | Some _ => next (InAIRegistry cf_id) actions_map (counted_ai cf_id o)
          | None =>
              match deref (InProgramaticRegistry cf_id) o with
              | Some _ =>
                  next (InProgramaticRegistry cf_id) actions_map
                    (counted_programatic cf_id (counted_ai cf_id o))
              | None =>
                  let o3 := sent_by (action_request stub cf_id)
                              (counted_programatic cf_id (counted_ai cf_id o)) in
                  match remote (requests (the_client o))
                          (action_request stub cf_id) with
                  | (action, false) =>
                      match Node_from_dict action with
                      | Ok n =>
                          next (FromDict (length (made o)))
                            (<[cf_id := FromDict (length (made o))]> actions_map)
                            (with_new n o3)
                      | Raise _ => (o3, Raise (action_not_found cf_id))
                      end
                  | (_, true) => (o3, Raise (action_not_found cf_id))
                  end
              end
          end
      end.
Proof.
  cbn [resolve_node_objects]. cbv zeta.
  destruct (negb (str_truthy (FENode.cf_id node))
            && negb (truthy (FENode.cf_data node))); [done|].
  unfold bind at 1.
  destruct (truthy (FENode.cf_data node)).
  - unfold bind at 1. unfold lift_result.
    destruct (Node_from_dict (FENode.cf_data node)) as [n|e]; [|done].
    done.
  - unfold ret at 1.
    destruct (actions_map !! FENode.cf_id node) as [r|]; [done|].
    unfold bind at 1. unfold bind at 1. unfold on_client at 1, zoom at 1.
    rewrite lookup_ai_eq. unfold deref.
    destruct (AIActionsRegistry.nodes (ai_actions_registry (world (the_client o)))
                !! FENode.cf_id node) as [n|]; [done|].
    unfold ret at 1.
    unfold bind at 1. unfold bind at 1. unfold on_client at 1, zoom at 1.
    rewrite lookup_programatic_eq.
    change (programatic_actions_registry
              (world (the_client (mkObjects (count_ai (FENode.cf_id node) (the_client o)) (made o)))))
      with (programatic_actions_registry (world (the_client o))).
    cbn [the_client].
    change (programatic_actions_registry (world (count_ai (FENode.cf_id node) (the_client o))))
      with (programatic_actions_registry (world (the_client o))).
    destruct (ProgramaticActionsRegistry.nodes
                (programatic_actions_registry (world (the_client o)))
                !! FENode.cf_id node) as [n|]; [done|].
    unfold ret at 1.
    unfold bind at 1. unfold bind at 1. unfold bind at 1.
    unfold on_client at 1, zoom at 1. cbn [the_client made].
    rewrite lookup_remote_eq.
    change (requests (count_programatic (FENode.cf_id node)
                        (count_ai (FENode.cf_id node) (the_client o))))
      with (requests (the_client o)).
    destruct (remote (requests (the_client o))
                (action_request stub (FENode.cf_id node)))
      as [action [|]]; [done|].
    by destruct (Node_from_dict action).
Qed.


Lemma resolve_node_objects_turn (stub : Subway.t) (node : FENode.t)
    (rest : list FENode.t) (actions_map : gmap string node_ref)
    (nodes : list node_ref) (o : Objects) :
  resolve_node_objects remote Node_from_dict stub (node :: rest) actions_map
    nodes o
  = match turn remote Node_from_dict stub node actions_map o with
    | (o1, Ok (r, am1)) =>
        resolve_node_objects remote Node_from_dict stub rest am1 (nodes ++ [r])
          (write_id r (FENode.id node) o1)
    | (o1, Raise e) => (o1, Raise e)
    end.
Proof.
  rewrite resolve_node_objects_cons. unfold turn. cbv zeta.
  destruct (negb (str_truthy (FENode.cf_id node))
            && negb (truthy (FENode.cf_data node))); [done|].
  destruct (truthy (FENode.cf_data node)).
  { by destruct (Node_from_dict (FENode.cf_data node)). }
  destruct (actions_map !! FENode.cf_id node); [done|].
  destruct (deref (InAIRegistry (FENode.cf_id node)) o); [done|].
  destruct (deref (InProgramaticRegistry (FENode.cf_id node)) o); [done|].
  destruct (remote _ _) as [action [|]]; [done|].
  by destruct (Node_from_dict action).
Qed.

End objects_facts.

(** ** What the steps of a turn do to the objects *)

Lemma deref_counted_ai (r : node_ref) (cf_id : string) (o : Objects) :
  deref r (counted_ai cf_id o) = deref r o.
Proof. by destruct r. Qed.

Lemma deref_counted_programatic (r : node_ref) (cf_id : string) (o : Objects) :
  deref r (counted_programatic cf_id o) = deref r o.
Proof. by destruct r. Qed.

Lemma deref_sent_by (r : node_ref) (req : request) (o : Objects) :
  deref r (sent_by req o) = deref r o.
Proof. by destruct r. Qed.

Lemma deref_with_new (r : node_ref) (n : Node.t) (o : Objects) :
  r ≠ FromDict (length (made o)) → deref r (with_new n o) = deref r o.
Proof.
  destruct r as [k|k|i]; try done. simpl. intros Hi.
  destruct (decide (i < length (made o))%nat).
  - by rewrite lookup_app_l.
  - rewrite !lookup_ge_None_2; [done|lia|].
    rewrite length_app. simpl. assert (i ≠ length (made o)) by congruence. lia.
Qed.

Lemma is_Some_deref_ne (r : node_ref) (o : Objects) :
  is_Some (deref r o) → r ≠ FromDict (length (made o)).
Proof.
  intros Hr ->. simpl in Hr. apply lookup_lt_is_Some in Hr. lia.
Qed.

Lemma deref_with_new_last (n : Node.t) (o : Objects) :
  deref (FromDict (length (made o))) (with_new n o) = Some n.
Proof. simpl. by rewrite lookup_app_r, Nat.sub_diag. Qed.

Lemma deref_write_id (r : node_ref) (id : string) (o : Objects) :
  deref r (write_id r id o) = set_id id <$> deref r o.
Proof.
  destruct r as [k|k|i]; simpl.
  - by rewrite lookup_alter_eq.
  - by rewrite lookup_alter_eq.
  - by rewrite list_lookup_alter_eq.
Qed.

Lemma deref_write_id_ne (r r' : node_ref) (id : string) (o : Objects) :
  r ≠ r' → deref r' (write_id r id o) = deref r' o.
Proof.
  intros Hne. destruct r as [k|k|i], r' as [k'|k'|i']; simpl; try done.
  - rewrite lookup_alter_ne; [done|congruence].
  - rewrite lookup_alter_ne; [done|congruence].
  - rewrite list_lookup_alter_ne; [done|congruence].
Qed.

Lemma deref_write_id_is_Some (r r' : node_ref) (id : string) (o : Objects) :
  is_Some (deref r' (write_id r id o)) ↔ is_Some (deref r' o).
Proof.
  destruct (decide (r = r')) as [->|Hne].
  - rewrite deref_write_id. by rewrite fmap_is_Some.
  - by rewrite deref_write_id_ne.
Qed.

Lemma changes_ids_only_refl (o : Objects) : changes_ids_only o o.
Proof.
  unfold changes_ids_only. cbv zeta. split_and!; try done.
  - exists []. by rewrite app_nil_r.
  - exists []. by rewrite app_nil_r.
Qed.

Lemma changes_ids_only_trans (o1 o2 o3 : Objects) :
  changes_ids_only o1 o2 → changes_ids_only o2 o3 → changes_ids_only o1 o3.
Proof.
  unfold changes_ids_only. cbv zeta.
  intros (H1 & H2 & H3 & H4 & H5 & H6 & H7 & [m Hm] & [l Hl])
         (G1 & G2 & G3 & G4 & G5 & G6 & G7 & [m' Hm'] & [l' Hl']).
  split_and!.
  - congruence.
  - intros k. etrans; [apply G2|apply H2].
  - congruence.
  - intros k. etrans; [apply H4|apply G4].
  - intros k. etrans; [apply G5|apply H5].
  - congruence.
  - intros k. etrans; [apply H7|apply G7].
  - exists (m ++ m'). by rewrite Hm', Hm, app_assoc.
  - exists (l ++ l'). by rewrite Hl', Hl, app_assoc.
Qed.

Lemma changes_ids_only_counted_ai (cf_id : string) (o : Objects) :
  changes_ids_only o (counted_ai cf_id o).
Proof.
  unfold changes_ids_only. cbv zeta. split_and!; try done.
  - intros k. unfold AIActionsRegistry_get_count_for_nodes. simpl.
    destruct (decide (k = cf_id)) as [->|Hne].
    + rewrite lookup_insert_eq. simpl. lia.
    + by rewrite lookup_insert_ne.
  - exists []. by rewrite app_nil_r.
  - exists []. by rewrite app_nil_r.
Qed.

Lemma changes_ids_only_counted_programatic (cf_id : string) (o : Objects) :
  changes_ids_only o (counted_programatic cf_id o).
Proof.
  unfold changes_ids_only. cbv zeta. split_and!; try done.
  - intros k. unfold ProgramaticActionsRegistry_get_count_for_nodes. simpl.
    destruct (decide (k = cf_id)) as [->|Hne].
    + rewrite lookup_insert_eq. simpl. lia.
    + by rewrite lookup_insert_ne.
  - exists []. by rewrite app_nil_r.
  - exists []. by rewrite app_nil_r.
Qed.

Lemma changes_ids_only_sent_by (req : request) (o : Objects) :
  changes_ids_only o (sent_by req o).
Proof.
  unfold changes_ids_only. cbv zeta. split_and!; try done.
  - by exists [req].
  - exists []. by rewrite app_nil_r.
Qed.

Lemma changes_ids_only_with_new (n : Node.t) (o : Objects) :
  changes_ids_only o (with_new n o).
Proof.
  unfold changes_ids_only. cbv zeta. split_and!; try done.
  - exists []. by rewrite app_nil_r.
  - exists [unnamed n]. simpl. by rewrite fmap_app.
Qed.

Lemma changes_ids_only_write_id (r : node_ref) (id : string) (o : Objects) :
  changes_ids_only o (write_id r id o).
Proof.
  unfold changes_ids_only. cbv zeta.
  destruct r as [k0|k0|i]; simpl; split_and!; try done;
    try (exists []; by rewrite app_nil_r).
  - intros k. destruct (decide (k = k0)) as [->|Hne].
    + rewrite lookup_alter_eq. by destruct (_ !! k0).
    + by rewrite lookup_alter_ne.
  - intros k. destruct (decide (k = k0)) as [->|Hne].
    + rewrite lookup_alter_eq. by destruct (_ !! k0).
    + by rewrite lookup_alter_ne.
  - exists []. rewrite app_nil_r. apply list_eq. intros j.
    rewrite !list_lookup_fmap. destruct (decide (j = i)) as [->|Hne].
    + rewrite list_lookup_alter_eq. by destruct (made o !! i).
    + by rewrite list_lookup_alter_ne.
Qed.

Section turn_facts.
Variable remote : list request → request → value * bool.
Variable Node_from_dict : value → result Node.t.

Lemma turn_changes_ids_only (stub : Subway.t) (node : FENode.t)
    (actions_map : gmap string node_ref) (o : Objects) :
  changes_ids_only o (turn remote Node_from_dict stub node actions_map o).1.
Proof.
  pose proof (changes_ids_only_counted_ai (FENode.cf_id node) o) as H1.
  pose proof (changes_ids_only_trans _ _ _ H1
                (changes_ids_only_counted_programatic (FENode.cf_id node) _)) as H2.
  pose proof (changes_ids_only_trans _ _ _ H2
                (changes_ids_only_sent_by (action_request stub (FENode.cf_id node)) _))
    as H3.
  unfold turn. cbv zeta.
  destruct (negb (str_truthy (FENode.cf_id node))
            && negb (truthy (FENode.cf_data node)));
    [apply changes_ids_only_refl|].
  destruct (truthy (FENode.cf_data node)).
  { destruct (Node_from_dict (FENode.cf_data node));
      [apply changes_ids_only_with_new|apply changes_ids_only_refl]. }
  destruct (actions_map !! FENode.cf_id node); [apply changes_ids_only_refl|].
  destruct (deref (InAIRegistry (FENode.cf_id node)) o); [exact H1|].
  destruct (deref (InProgramaticRegistry (FENode.cf_id node)) o); [exact H2|].
  destruct (remote _ _) as [action [|]]; [exact H3|].
  destruct (Node_from_dict action); [|exact H3].
  eapply changes_ids_only_trans; [exact H3|apply changes_ids_only_with_new].
Qed.

Lemma resolve_node_objects_changes_ids_only (stub : Subway.t)
    (dag_nodes : list FENode.t) (actions_map : gmap string node_ref)
    (nodes : list node_ref) (o : Objects) :
  changes_ids_only o
    (resolve_node_objects remote Node_from_dict stub dag_nodes actions_map
       nodes o).1.
Proof.
  revert actions_map nodes o.
  induction dag_nodes as [|node rest IH]; intros actions_map nodes o.
  - apply changes_ids_only_refl.
  - rewrite resolve_node_objects_turn.
    pose proof (turn_changes_ids_only stub node actions_map o) as Hturn.
    destruct (turn remote Node_from_dict stub node actions_map o)
      as [o1 [[r am1]|e]]; [|exact Hturn].
    eapply changes_ids_only_trans; [exact Hturn|].
    eapply changes_ids_only_trans; [apply changes_ids_only_write_id|apply IH].
Qed.

(** A turn keeps the objects there are, as they are. *)
Lemma turn_deref (stub : Subway.t) (node : FENode.t)
    (actions_map : gmap string node_ref) (o : Objects) (r : node_ref) :
  r ≠ FromDict (length (made o)) →
  deref r (turn remote Node_from_dict stub node actions_map o).1 = deref r o.
Proof.
  intros Hr. unfold turn. cbv zeta.
  destruct (negb (str_truthy (FENode.cf_id node))
            && negb (truthy (FENode.cf_data node))); [done|].
  destruct (truthy (FENode.cf_data node)).
  { destruct (Node_from_dict (FENode.cf_data node)); [|done].
    by apply deref_with_new. }
  destruct (actions_map !! FENode.cf_id node); [done|].
  destruct (deref (InAIRegistry (FENode.cf_id node)) o);
    [apply deref_counted_ai|].
  destruct (deref (InProgramaticRegistry (FENode.cf_id node)) o);
    [simpl; by rewrite deref_counted_programatic, deref_counted_ai|].
  assert (deref r (sent_by (action_request stub (FENode.cf_id node))
                     (counted_programatic (FENode.cf_id node)
                        (counted_ai (FENode.cf_id node) o))) = deref r o) as H3.
  { by rewrite deref_sent_by, deref_counted_programatic, deref_counted_ai. }
  destruct (remote _ _) as [action [|]]; [exact H3|].
  destruct (Node_from_dict action); [|exact H3].
  simpl. rewrite deref_with_new; [exact H3|done].
Qed.

(** The object a turn finds is there, and so are the objects of
    [actions_map], when they were before. *)
Lemma turn_valid (stub : Subway.t) (node : FENode.t)
    (actions_map am1 : gmap string node_ref) (o o1 : Objects) (r : node_ref) :
  turn remote Node_from_dict stub node actions_map o = (o1, Ok (r, am1)) →
  (∀ k r', actions_map !! k = Some r' → is_Some (deref r' o)) →
  is_Some (deref r o1) ∧
  (∀ k r', am1 !! k = Some r' → is_Some (deref r' o1)).
Proof.
  intros Hturn Hvalid.
  assert (∀ k r', actions_map !! k = Some r' → is_Some (deref r' o1)) as Hkeep.
  { intros k r' Hk. pose proof (Hvalid _ _ Hk) as Hr'.
    pose proof (turn_deref stub node actions_map o r'
                  (is_Some_deref_ne _ _ Hr')) as Heq.
    rewrite Hturn in Heq. simpl in Heq. by rewrite Heq. }
  revert Hturn. unfold turn. cbv zeta.
  destruct (negb (str_truthy (FENode.cf_id node))
            && negb (truthy (FENode.cf_data node))); [done|].
  destruct (truthy (FENode.cf_data node)).
  { destruct (Node_from_dict (FENode.cf_data node)); [|done].
    intros [= <- <- <-]. split; [|done].
    rewrite deref_with_new_last. by eexists. }
  destruct (actions_map !! FENode.cf_id node) as [r0|] eqn:Hcache.
  { intros [= <- <- <-]. split; [by eapply Hvalid|done]. }
  destruct (deref (InAIRegistry (FENode.cf_id node)) o) eqn:Hai.
  { intros [= <- <- <-]. split; [|done].
    rewrite deref_counted_ai, Hai. by eexists. }
  destruct (deref (InProgramaticRegistry (FENode.cf_id node)) o) eqn:Hprog.
  { intros [= <- <- <-]. split; [|done].
    rewrite deref_counted_programatic, deref_counted_ai, Hprog. by eexists. }
  destruct (remote _ _) as [action [|]]; [done|].
  destruct (Node_from_dict action) as [n|]; [|done].
  intros [= <- <- <-].
  assert (is_Some (deref (FromDict (length (made o)))
            (with_new n (sent_by (action_request stub (FENode.cf_id node))
               (counted_programatic (FENode.cf_id node)
                  (counted_ai (FENode.cf_id node) o)))))) as Hnew.
  { simpl. rewrite lookup_app_r, Nat.sub_diag by done. by eexists. }
  split; [exact Hnew|].
  intros k r'. destruct (decide (k = FENode.cf_id node)) as [->|Hne].
  - rewrite lookup_insert_eq. by intros [= <-].
  - rewrite lookup_insert_ne by done. apply Hkeep.
Qed.

End turn_facts.

(** ** Which object a node of the dag gets *)

Lemma resolution_same_registries (actions_map : gmap string node_ref)
    (o o1 : Objects) (k : string) :
  (is_Some (deref (InAIRegistry k) o1) ↔ is_Some (deref (InAIRegistry k) o)) →
  (is_Some (deref (InProgramaticRegistry k) o1)
   ↔ is_Some (deref (InProgramaticRegistry k) o)) →
  resolution actions_map o1 k = resolution actions_map o k.
Proof.
  intros Hai Hprog. unfold resolution.
  destruct (actions_map !! k); [done|].
  destruct (deref (InAIRegistry k) o1) eqn:H1,
           (deref (InAIRegistry k) o) eqn:H2; try done.
  - destruct Hai as [Hai _]. destruct Hai as [? [=]]. by eexists.
  - destruct Hai as [_ Hai]. destruct Hai as [? [=]]. by eexists.
  - destruct (deref (InProgramaticRegistry k) o1) eqn:H3,
             (deref (InProgramaticRegistry k) o) eqn:H4; try done.
    + destruct Hprog as [Hp _]. destruct Hp as [? [=]]. by eexists.
    + destruct Hprog as [_ Hp]. destruct Hp as [? [=]]. by eexists.
Qed.

Lemma resolution_write_id (actions_map : gmap string node_ref)
    (r : node_ref) (id : string) (o : Objects) (k : string) :
  resolution actions_map (write_id r id o) k = resolution actions_map o k.
Proof. apply resolution_same_registries; apply deref_write_id_is_Some. Qed.

Section resolution_facts.
Variable remote : list request → request → value * bool.
Variable Node_from_dict : value → result Node.t.

(** What was found for an id before a turn is found after it, and a node
    without a body gets what is found for its id. *)
Lemma turn_resolution (stub : Subway.t) (node : FENode.t)
    (actions_map am1 : gmap string node_ref) (o o1 : Objects) (r : node_ref) :
  turn remote Node_from_dict stub node actions_map o = (o1, Ok (r, am1)) →
  (∀ k r', resolution actions_map o k = Some r' →
           resolution am1 o1 k = Some r') ∧
  (truthy (FENode.cf_data node) = false →
   resolution am1 o1 (FENode.cf_id node) = Some r ∧
   ∀ r', resolution actions_map o (FENode.cf_id node) = Some r' → r = r').
Proof.
  intros Hturn.
  assert (∀ k, resolution actions_map o1 k = resolution actions_map o k) as Hsame.
  { intros k. apply resolution_same_registries.
    - pose proof (turn_deref remote Node_from_dict stub node actions_map o
                    (InAIRegistry k) ltac:(done)) as H.
      rewrite Hturn in H. cbn [fst] in H. by rewrite H.
    - pose proof (turn_deref remote Node_from_dict stub node actions_map o
                    (InProgramaticRegistry k) ltac:(done)) as H.
      rewrite Hturn in H. cbn [fst] in H. by rewrite H. }
  revert Hturn Hsame. unfold turn. cbv zeta.
  destruct (negb (str_truthy (FENode.cf_id node))
            && negb (truthy (FENode.cf_data node))); [done|].
  destruct (truthy (FENode.cf_data node)).
  { destruct (Node_from_dict (FENode.cf_data node)); [|done].
    intros [= <- <- <-] Hsame. split; [|done]. intros k r'. by rewrite Hsame. }
  destruct (actions_map !! FENode.cf_id node) as [r0|] eqn:Hcache.
  { intros [= <- <- <-] Hsame. split; [done|]. intros _.
    unfold resolution. rewrite Hcache. split; [done|]. by intros r' [= <-]. }
  destruct (deref (InAIRegistry (FENode.cf_id node)) o) eqn:Hai.
  { intros [= <- <- <-] Hsame. split; [intros k r'; by rewrite Hsame|].
    intros _. rewrite Hsame. unfold resolution. rewrite Hcache, Hai.
    split; [done|]. by intros r' [= <-]. }
  destruct (deref (InProgramaticRegistry (FENode.cf_id node)) o) eqn:Hprog.
  { intros [= <- <- <-] Hsame. split; [intros k r'; by rewrite Hsame|].
    intros _. rewrite Hsame. unfold resolution. rewrite Hcache, Hai, Hprog.
    split; [done|]. by intros r' [= <-]. }
  destruct (remote _ _) as [action [|]]; [done|].
  destruct (Node_from_dict action) as [n|]; [|done].
  intros [= <- <- <-] Hsame.
  assert (resolution actions_map o (FENode.cf_id node) = None) as Hnone.
  { unfold resolution. by rewrite Hcache, Hai, Hprog. }
  split.
  - intros k r' Hk. destruct (decide (k = FENode.cf_id node)) as [->|Hne].
    + congruence.
    + rewrite <- Hsame in Hk. revert Hk. unfold resolution.
      by rewrite lookup_insert_ne.
  - intros _. split; [|intros r'; congruence].
    unfold resolution. by rewrite lookup_insert_eq.
Qed.

Lemma resolve_node_objects_resolution (stub : Subway.t)
    (dag_nodes : list FENode.t) (actions_map : gmap string node_ref)
    (nodes : list node_ref) (o o' : Objects) (refs : list node_ref) :
  resolve_node_objects remote Node_from_dict stub dag_nodes actions_map nodes o
  = (o', Ok refs) →
  ∃ new, refs = nodes ++ new ∧
    ∀ j nj, dag_nodes !! j = Some nj → truthy (FENode.cf_data nj) = false →
      (∀ r, resolution actions_map o (FENode.cf_id nj) = Some r →
            new !! j = Some r) ∧
      (∀ i ni, (i < j)%nat → dag_nodes !! i = Some ni →
               truthy (FENode.cf_data ni) = false →
               FENode.cf_id ni = FENode.cf_id nj → new !! i = new !! j).
Proof.
  revert actions_map nodes o.
  induction dag_nodes as [|node rest IH]; intros actions_map nodes o.
  - simpl. intros [= <- <-]. exists []. by rewrite app_nil_r.
  - rewrite resolve_node_objects_turn.
    destruct (turn remote Node_from_dict stub node actions_map o)
      as [o1 [[r0 am1]|e]] eqn:Hturn; [|done].
    intros Hrest. apply IH in Hrest as (new & -> & Hnew).
    destruct (turn_resolution _ _ _ _ _ _ _ Hturn) as [Hmono Hnode].
    exists (r0 :: new). split; [by rewrite <- app_assoc|].
    intros [|j] nj Hj Hdata.
    + injection Hj as <-. destruct (Hnode Hdata) as [_ Hsame].
      split; [|intros; lia]. intros r Hr. by rewrite (Hsame _ Hr).
    + simpl in Hj. destruct (Hnew j nj Hj Hdata) as [Hfound Hbefore]. split.
      * intros r Hr. simpl. apply Hfound. rewrite resolution_write_id.
        by apply Hmono.
      * intros [|i] ni Hlt Hi Hdatai Hsame.
        -- injection Hi as <-. simpl. symmetry. apply Hfound.
           rewrite resolution_write_id, <- Hsame. by apply Hnode.
        -- simpl in *. apply (Hbefore i ni); [lia|done..].
Qed.

(** The ids of the objects after the loop. *)
Lemma resolve_node_objects_ids (stub : Subway.t)
    (dag_nodes : list FENode.t) (actions_map : gmap string node_ref)
    (nodes : list node_ref) (o o' : Objects) (refs : list node_ref) :
  (∀ k r, actions_map !! k = Some r → is_Some (deref r o)) →
  resolve_node_objects remote Node_from_dict stub dag_nodes actions_map nodes o
  = (o', Ok refs) →
  ∃ new, refs = nodes ++ new ∧ length new = length dag_nodes ∧
    (∀ r, r ∉ new → is_Some (deref r o) → deref r o' = deref r o) ∧
    (∀ j r, new !! j = Some r →
       ∃ n j' node',
         deref r o' = Some n ∧ (j ≤ j')%nat ∧ new !! j' = Some r ∧
         dag_nodes !! j' = Some node' ∧ Node.id n = FENode.id node' ∧
         ∀ j'', (j' < j'')%nat → new !! j'' ≠ Some r).
Proof.
  revert actions_map nodes o.
  induction dag_nodes as [|node rest IH]; intros actions_map nodes o Hvalid.
  - simpl. intros [= <- <-]. exists []. rewrite app_nil_r.
    split_and!; try done.
  - rewrite resolve_node_objects_turn.
    destruct (turn remote Node_from_dict stub node actions_map o)
      as [o1 [[r0 am1]|e]] eqn:Hturn; [|done].
    destruct (turn_valid _ _ _ _ _ _ _ _ _ Hturn Hvalid) as [Hr0 Hvalid1].
    intros Hrest. apply IH in Hrest as (new & -> & Hlen & Hframe & Hids).
    2:{ intros k r Hk. apply deref_write_id_is_Some. by eapply Hvalid1. }
    assert (∀ r, is_Some (deref r o) → deref r o1 = deref r o) as Hkeep.
    { intros r Hr.
      pose proof (turn_deref remote Node_from_dict stub node actions_map o r
                    (is_Some_deref_ne _ _ Hr)) as H.
      by rewrite Hturn in H. }
    exists (r0 :: new). split; [by rewrite <- app_assoc|].
    split; [simpl; by rewrite Hlen|]. split.
    + intros r Hnin Hr. apply not_elem_of_cons in Hnin as [Hne Hnin].
      rewrite Hframe; [|done|].
      * rewrite deref_write_id_ne by done. by apply Hkeep.
      * apply deref_write_id_is_Some. by rewrite Hkeep.
    + assert (∀ j r, new !! j = Some r →
                ∃ n j' node',
                  deref r o' = Some n ∧ (S j ≤ j')%nat ∧
                  (r0 :: new) !! j' = Some r ∧
                  (node :: rest) !! j' = Some node' ∧
                  Node.id n = FENode.id node' ∧
                  ∀ j'', (j' < j'')%nat → (r0 :: new) !! j'' ≠ Some r) as Hshift.
      { intros j r Hj.
        destruct (Hids j r Hj) as (n & j' & node' & Hn & Hle & Hj' & Hd & Hid & Hlast).
        exists n, (S j'), node'. split_and!; try done; [lia|].
        intros [|j''] Hlt; [lia|]. simpl. apply Hlast. lia. }
      intros [|j] r Hj.
      * injection Hj as <-. destruct (decide (r0 ∈ new)) as [Hin|Hnin].
        -- apply list_elem_of_lookup in Hin as [j Hj].
           destruct (Hshift j r0 Hj) as (n & j' & node' & Hn & Hle & Hrest).
           exists n, j', node'. split; [done|]. split; [lia|done].
        -- destruct Hr0 as [n1 Hn1].
           exists (set_id (FENode.id node) n1), 0%nat, node.
           split_and!; try done.
           ++ rewrite Hframe; [|done|].
              ** by rewrite deref_write_id, Hn1.
              ** apply deref_write_id_is_Some. by eexists.
           ++ intros [|j''] Hlt; [lia|]. simpl. intros Hj''.
              apply Hnin. by eapply list_elem_of_lookup_2.
      * simpl in Hj. destruct (Hshift j r Hj) as (n & j' & node' & Hn & Hle & Hrest).
        exists n, j', node'. split; [done|]. split; [lia|done].
Qed.

End resolution_facts.

(** ** The requests of the loop *)

Section requests_facts.
Variable remote : list request → request → value * bool.
Variable Node_from_dict : value → result Node.t.

Lemma turn_requests (stub : Subway.t) (node : FENode.t)
    (actions_map : gmap string node_ref) (o : Objects) :
  let out := turn remote Node_from_dict stub node actions_map o in
  (requests (the_client out.1) = requests (the_client o) ∧
   ∀ r am1, out.2 = Ok (r, am1) → am1 = actions_map) ∨
  (requests (the_client out.1)
   = requests (the_client o) ++ [action_request stub (FENode.cf_id node)] ∧
   resolution actions_map o (FENode.cf_id node) = None ∧
   truthy (FENode.cf_data node) = false ∧
   ∀ r am1, out.2 = Ok (r, am1) → am1 = <[FENode.cf_id node := r]> actions_map).
Proof.
  unfold turn. cbv zeta.
  destruct (negb (str_truthy (FENode.cf_id node))
            && negb (truthy (FENode.cf_data node))); [by left|].
  destruct (truthy (FENode.cf_data node)) eqn:Hdata.
  { destruct (Node_from_dict (FENode.cf_data node)); [|by left].
    left. split; [done|]. by intros r am1 [= _ <-]. }
  destruct (actions_map !! FENode.cf_id node) as [r0|] eqn:Hcache.
  { left. split; [done|]. by intros r am1 [= _ <-]. }
  destruct (deref (InAIRegistry (FENode.cf_id node)) o) eqn:Hai.
  { left. split; [done|]. by intros r am1 [= _ <-]. }
  destruct (deref (InProgramaticRegistry (FENode.cf_id node)) o) eqn:Hprog.
  { left. split; [done|]. by intros r am1 [= _ <-]. }
  assert (resolution actions_map o (FENode.cf_id node) = None) as Hnone.
  { unfold resolution. by rewrite Hcache, Hai, Hprog. }
  right. destruct (remote _ _) as [action [|]]; [done|].
  destruct (Node_from_dict action) as [n|]; [|done].
  split_and!; try done. by intros r am1 [= <- <-].
Qed.

Lemma resolve_node_objects_requests (stub : Subway.t)
    (dag_nodes : list FENode.t) (actions_map : gmap string node_ref)
    (nodes : list node_ref) (o : Objects) :
  ∃ ks,
    requests (the_client
                (resolve_node_objects remote Node_from_dict stub dag_nodes
                   actions_map nodes o).1)
    = requests (the_client o) ++ (action_request stub <$> ks) ∧
    NoDup ks ∧
    ∀ k, k ∈ ks →
         resolution actions_map o k = None ∧
         ∃ node, node ∈ dag_nodes ∧ FENode.cf_id node = k ∧
                 truthy (FENode.cf_data node) = false.
Proof.
  revert actions_map nodes o.
  induction dag_nodes as [|node rest IH]; intros actions_map nodes o.
  - exists []. simpl. rewrite app_nil_r. split; [done|]. split; [constructor|].
    intros k Hk. by apply elem_of_nil in Hk.
  - rewrite resolve_node_objects_turn.
    pose proof (turn_requests stub node actions_map o) as Hreq. cbv zeta in Hreq.
    destruct (turn remote Node_from_dict stub node actions_map o)
      as [o1 [[r0 am1]|e]] eqn:Hturn; cbn [fst snd] in Hreq.
    2:{ destruct Hreq as [[Hreq _]|(Hreq & Hnone & Hdata & _)].
        - exists []. simpl. rewrite app_nil_r. split; [done|].
          split; [constructor|]. intros k Hk. by apply elem_of_nil in Hk.
        - exists [FENode.cf_id node]. split; [done|].
          split; [apply NoDup_singleton|].
          intros k Hk. apply list_elem_of_singleton in Hk as ->.
          split; [done|]. exists node. split; [by left|done]. }
    destruct (turn_resolution _ _ _ _ _ _ _ _ _ Hturn) as [Hmono _].
    destruct (IH am1 (nodes ++ [r0]) (write_id r0 (FENode.id node) o1))
      as (ks & Hks & Hnodup & Hin).
    assert (requests (the_client (write_id r0 (FENode.id node) o1))
            = requests (the_client o1)) as Hw by (by destruct r0).
    assert (∀ k, k ∈ ks →
              resolution actions_map o k = None ∧
              ∃ node0, node0 ∈ node :: rest ∧ FENode.cf_id node0 = k ∧
                       truthy (FENode.cf_data node0) = false) as Hin'.
    { intros k Hk. destruct (Hin k Hk) as (Hnone & node0 & Hn0 & Hrest).
      split; [|exists node0; split; [by right|done]].
      destruct (resolution actions_map o k) as [r'|] eqn:Hres; [|done].
      apply Hmono in Hres. rewrite resolution_write_id in Hnone. congruence. }
    destruct Hreq as [[Hreq Ham]|(Hreq & Hnone & Hdata & Ham)].
    + exists ks. rewrite Hks, Hw, Hreq. done.
    + exists (FENode.cf_id node :: ks). rewrite Hks, Hw, Hreq, <- app_assoc.
      split; [done|]. split.
      * apply NoDup_cons. split; [|done]. intros Hk.
        destruct (Hin _ Hk) as [Hres _]. revert Hres.
        rewrite resolution_write_id, (Ham _ _ eq_refl). unfold resolution.
        by rewrite lookup_insert_eq.
      * intros k Hk. apply elem_of_cons in Hk as [->|Hk]; [|by apply Hin'].
        split; [done|]. exists node. split; [by left|done].
Qed.

(** *** The loop, as the source starts it *)

(** Whatever the dag and the service are, and however the loop ends, it
    changes no object but for its id: the registries hold the same ids,
    the same nodes apart from their ids, the same tags and the same models,
    and their counters have not gone down. *)
Theorem load_changes_ids_only (stub : Subway.t) (dag_nodes : list FENode.t)
    (o : Objects) :
  changes_ids_only o
    (resolve_node_objects remote Node_from_dict stub dag_nodes ∅ [] o).1.
Proof. apply resolve_node_objects_changes_ids_only. Qed.

(** After the loop a node of the chain has the id of the last node of the
    dag that was resolved to the same object, which is its own node of the
    dag only when no later one shares the object. *)
Theorem node_takes_id_of_last_dag_node (stub : Subway.t)
    (dag_nodes : list FENode.t) (o o' : Objects) (refs : list node_ref) :
  resolve_node_objects remote Node_from_dict stub dag_nodes ∅ [] o
  = (o', Ok refs) →
  length refs = length dag_nodes ∧
  ∀ j r, refs !! j = Some r →
    ∃ n j' node',
      deref r o' = Some n ∧ (j ≤ j')%nat ∧ refs !! j' = Some r ∧
      dag_nodes !! j' = Some node' ∧ Node.id n = FENode.id node' ∧
      ∀ j'', (j' < j'')%nat → refs !! j'' ≠ Some r.
Proof.
  intros Hres. apply resolve_node_objects_ids in Hres
    as (new & -> & Hlen & _ & Hids); [|by intros k r; rewrite lookup_empty].
  done.
Qed.

(** Two nodes of the dag that refer to the same action by its id get the
    same object. With pairwise distinct ids in the dag, the first of the
    two does not have its own id in the chain. *)
Theorem shared_action_is_one_object (stub : Subway.t)
    (dag_nodes : list FENode.t) (o o' : Objects) (refs : list node_ref)
    (i j : nat) (ni nj : FENode.t) :
  resolve_node_objects remote Node_from_dict stub dag_nodes ∅ [] o
  = (o', Ok refs) →
  (i < j)%nat → dag_nodes !! i = Some ni → dag_nodes !! j = Some nj →
  truthy (FENode.cf_data ni) = false → truthy (FENode.cf_data nj) = false →
  FENode.cf_id ni = FENode.cf_id nj →
  NoDup (FENode.id <$> dag_nodes) →
  ∃ r n, refs !! i = Some r ∧ refs !! j = Some r ∧ deref r o' = Some n ∧
         Node.id n ≠ FENode.id ni.
Proof.
  intros Hres Hlt Hi Hj Hdi Hdj Hsame Hnodup.
  pose proof Hres as Hres'.
  apply resolve_node_objects_resolution in Hres as (new & -> & Hnew).
  apply resolve_node_objects_ids in Hres'
    as (new' & Heq & Hlen & _ & Hids); [|by intros k r; rewrite lookup_empty].
  simpl in Heq. subst new'. simpl.
  destruct (Hnew j nj Hj Hdj) as [_ Hbefore].
  pose proof (Hbefore i ni Hlt Hi Hdi Hsame) as Hij.
  destruct (lookup_lt_is_Some_2 new j) as [r Hr].
  { rewrite Hlen. by eapply lookup_lt_Some. }
  destruct (Hids j r Hr) as (n & j' & node' & Hn & Hle & _ & Hnode' & Hid & _).
  exists r, n. split_and!; try done; [congruence|].
  rewrite Hid. intros Heq.
  assert (j' = i); [|lia].
  eapply (NoDup_lookup (FENode.id <$> dag_nodes)); [done| |].
  - by rewrite list_lookup_fmap, Hnode'.
  - rewrite list_lookup_fmap, Hi. simpl. by rewrite Heq.
Qed.

(** A node of the dag that refers to a registered action gets the object
    the registry holds. After the loop the registry holds it under the
    same key, unchanged but for its id, which is now the id of a node of
    the dag. *)
Theorem loading_renames_registered_action (stub : Subway.t)
    (dag_nodes : list FENode.t) (o o' : Objects) (refs : list node_ref)
    (j : nat) (nj : FENode.t) (r : node_ref) (n0 : Node.t) :
  resolve_node_objects remote Node_from_dict stub dag_nodes ∅ [] o
  = (o', Ok refs) →
  dag_nodes !! j = Some nj → truthy (FENode.cf_data nj) = false →
  resolution ∅ o (FENode.cf_id nj) = Some r →
  deref r o = Some n0 →
  refs !! j = Some r ∧
  (r = InAIRegistry (FENode.cf_id nj)
   ∨ r = InProgramaticRegistry (FENode.cf_id nj)) ∧
  ∃ n node',
    deref r o' = Some n ∧ unnamed n = unnamed n0 ∧
    node' ∈ dag_nodes ∧ Node.id n = FENode.id node'.
Proof.
  intros Hres Hj Hdata Hfound Hn0.
  pose proof (resolve_node_objects_changes_ids_only remote Node_from_dict stub
                dag_nodes ∅ [] o) as Hch.
  rewrite Hres in Hch. cbn [fst] in Hch.
  pose proof Hres as Hres'.
  apply resolve_node_objects_resolution in Hres as (new & -> & Hnew).
  apply resolve_node_objects_ids in Hres'
    as (new' & Heq & Hlen & _ & Hids); [|by intros k r'; rewrite lookup_empty].
  simpl in Heq. subst new'. simpl.
  destruct (Hnew j nj Hj Hdata) as [Hr _]. specialize (Hr r Hfound).
  split; [done|].
  assert (r = InAIRegistry (FENode.cf_id nj)
          ∨ r = InProgramaticRegistry (FENode.cf_id nj)) as Hreg.
  { revert Hfound. unfold resolution. rewrite lookup_empty.
    destruct (deref (InAIRegistry _) o); [intros [= <-]; by left|].
    destruct (deref (InProgramaticRegistry _) o); [intros [= <-]; by right|done]. }
  split; [done|].
  destruct (Hids j r Hr) as (n & j' & node' & Hn & _ & _ & Hnode' & Hid & _).
  exists n, node'. split_and!; try done.
  - unfold changes_ids_only in Hch. cbv zeta in Hch.
    destruct Hch as (_ & Hai & _ & _ & Hprog & _).
    destruct Hreg as [-> | ->]; simpl in Hn, Hn0.
    + specialize (Hai (FENode.cf_id nj)). rewrite Hn, Hn0 in Hai.
      simpl in Hai. congruence.
    + specialize (Hprog (FENode.cf_id nj)). rewrite Hn, Hn0 in Hprog.
      simpl in Hprog. congruence.
  - by eapply list_elem_of_lookup_2.
Qed.

(** The service is asked for an action at most once in a load, and only
    for the action of a node without a body that neither registry has. *)
Theorem service_asked_once_for_an_action (stub : Subway.t)
    (dag_nodes : list FENode.t) (o : Objects) :
  ∃ ks,
    requests (the_client
                (resolve_node_objects remote Node_from_dict stub dag_nodes
                   ∅ [] o).1)
    = requests (the_client o) ++ (action_request stub <$> ks) ∧
    NoDup ks ∧
    ∀ k, k ∈ ks →
         deref (InAIRegistry k) o = None ∧
         deref (InProgramaticRegistry k) o = None ∧
         ∃ node, node ∈ dag_nodes ∧ FENode.cf_id node = k ∧
                 truthy (FENode.cf_data node) = false.
Proof.
  destruct (resolve_node_objects_requests stub dag_nodes ∅ [] o)
    as (ks & Hks & Hnodup & Hin).
  exists ks. split; [done|]. split; [done|].
  intros k Hk. destruct (Hin k Hk) as [Hnone Hnode].
  revert Hnone. unfold resolution. rewrite lookup_empty.
  destruct (deref (InAIRegistry k) o); [done|].
  destruct (deref (InProgramaticRegistry k) o); [done|]. done.
Qed.

End requests_facts.

Lemma node_takes_id_of_last_dag_node_witness :
  length [InAIRegistry "greet"; FromDict 0; FromDict 0] = length dag3 ∧
  ∀ j r, [InAIRegistry "greet"; FromDict 0; FromDict 0] !! j = Some r →
    ∃ n j' node',
      deref r loaded3 = Some n ∧ (j ≤ j')%nat ∧
      [InAIRegistry "greet"; FromDict 0; FromDict 0] !! j' = Some r ∧
      dag3 !! j' = Some node' ∧ Node.id n = FENode.id node' ∧
      ∀ j'', (j' < j'')%nat →
             [InAIRegistry "greet"; FromDict 0; FromDict 0] !! j'' ≠ Some r.
Proof.
  apply (node_takes_id_of_last_dag_node remote_far far_Node_from_dict stub0
           dag3 objects3 loaded3).
  vm_compute. reflexivity.
Defined.

Lemma shared_action_is_one_object_witness :
  ∃ r n,
    [InAIRegistry "greet"; FromDict 0; FromDict 0] !! 1%nat = Some r ∧
    [InAIRegistry "greet"; FromDict 0; FromDict 0] !! 2%nat = Some r ∧
    deref r loaded3 = Some n ∧ Node.id n ≠ FENode.id node_far1.
Proof.
  apply (shared_action_is_one_object remote_far far_Node_from_dict stub0
           dag3 objects3 loaded3 _ 1 2 node_far1 node_far2).
  - vm_compute. reflexivity.
  - lia.
  - reflexivity.
  - reflexivity.
  - reflexivity.
  - reflexivity.
  - reflexivity.
  - apply (bool_decide_unpack _). vm_compute. exact I.
Defined.

Lemma loading_renames_registered_action_witness :
  [InAIRegistry "greet"; FromDict 0; FromDict 0] !! 0%nat
  = Some (InAIRegistry "greet") ∧
  (InAIRegistry "greet" = InAIRegistry (FENode.cf_id node_greet)
   ∨ InAIRegistry "greet" = InProgramaticRegistry (FENode.cf_id node_greet)) ∧
  ∃ n node',
    deref (InAIRegistry "greet") loaded3 = Some n ∧
    unnamed n = unnamed greet_node ∧
    node' ∈ dag3 ∧ Node.id n = FENode.id node'.
Proof.
  apply (loading_renames_registered_action remote_far far_Node_from_dict stub0
           dag3 objects3 loaded3 _ 0 node_greet).
  - vm_compute. reflexivity.
  - reflexivity.
  - reflexivity.
  - vm_compute. reflexivity.
  - vm_compute. reflexivity.
Defined.

(** * [get_client] behind its cache *)

Section cached_facts.
Variable Object : Type.
Variable class_attribute : Subway.t → string → option Object.
Variable Object_getattr :
  attribute_value Object → string → result (attribute_value Object).

Lemma getattr_path_ordinary (self : Subway.t) (path : list string) :
  Forall (ordinary Object class_attribute) path →
  getattr_path Object class_attribute Object_getattr (Stub self) path
  = Ok (Stub (foldl Subway.getattr self path)).
Proof.
  revert self. induction path as [|p path IH]; intros self Hpath; [done|].
  apply Forall_cons in Hpath as [Hp Hpath].
  cbn [getattr_path py_getattr]. rewrite (Hp self). simpl. by apply IH.
Qed.

(** On a prefix of ordinary segments the body gives what [get_client]
    gives. *)
Lemma get_client_body_ordinary (CF_URL CF_TOKEN prefix url token : string) :
  Forall (ordinary Object class_attribute) (split_slash prefix) →
  get_client_body Object class_attribute Object_getattr CF_URL CF_TOKEN prefix
    url token
  = match get_client CF_URL CF_TOKEN prefix url token with
    | Ok stub => Ok (Stub stub)
    | Raise e => Raise e
    end.
Proof.
  intros Hpath. unfold get_client_body, get_client.
  destruct (negb (str_truthy (if str_truthy url then url else CF_URL))); [done|].
  destruct (negb (str_truthy (if str_truthy token then token else CF_TOKEN)));
    [done|].
  by apply getattr_path_ordinary.
Qed.

(** A call that the cache does not answer runs the body. *)
Lemma get_client_cached_miss (CF_URL CF_TOKEN : string) (c : call)
    (cache : Cache Object) (prefix url token : string) :
  bind_arguments c = Ok (prefix, url, token) →
  (∀ v, cache ≠ Some (c, v)) →
  get_client_cached Object class_attribute Object_getattr CF_URL CF_TOKEN c cache
  = match get_client_body Object class_attribute Object_getattr CF_URL CF_TOKEN
            prefix url token with
    | Ok v => (Some (c, v), Ok v)
    | Raise e => (cache, Raise e)
    end.
Proof.
  intros Hbind Hmiss. unfold get_client_cached. rewrite Hbind. simpl.
  destruct cache as [[c0 v]|]; [|done].
  destruct (decide (c0 = c)) as [->|]; [|done]. by destruct (Hmiss v).
Qed.

(** A call that the cache does not answer, with a prefix of ordinary
    segments, returns a client exactly when there is a url and a token,
    each given as an argument or else by the environment; an argument goes
    before the environment, and a missing url is reported before a missing
    token. What the call returns is then a stub whose session carries the
    token, and the cache holds it for this call; when the call raises, the
    cache is as it was. *)
Theorem get_client_needs_url_and_token (CF_URL CF_TOKEN : string) (c : call)
    (cache : Cache Object) (prefix url token : string) :
  bind_arguments c = Ok (prefix, url, token) →
  (∀ v, cache ≠ Some (c, v)) →
  Forall (ordinary Object class_attribute) (split_slash prefix) →
  let out := get_client_cached Object class_attribute Object_getattr
               CF_URL CF_TOKEN c cache in
  ((∃ stub, out.2 = Ok (Stub stub))
   ↔ str_or url CF_URL ≠ "" ∧ str_or token CF_TOKEN ≠ "") ∧
  (str_or url CF_URL = "" →
   out = (cache, Raise (ValueError "No url provided, please set CF_URL environment variable or pass url as argument"))) ∧
  (url ≠ "" → str_or url CF_URL = url) ∧
  (token ≠ "" → str_or token CF_TOKEN = token) ∧
  (∀ v, out.2 = Ok v →
        ∃ stub, v = Stub stub ∧ Subway._session stub = str_or token CF_TOKEN ∧
                out.1 = Some (c, v)) ∧
  (∀ e, out.2 = Raise e → out.1 = cache).
Proof.
  intros Hbind Hmiss Hpath. cbv zeta.
  rewrite (get_client_cached_miss _ _ _ _ _ _ _ Hbind Hmiss).
  rewrite get_client_body_ordinary by done.
  destruct (get_client_ok_iff CF_URL CF_TOKEN prefix url token)
    as (Hiff & Hnourl & Hurl & Htok & Hsession).
  destruct (get_client CF_URL CF_TOKEN prefix url token) as [stub|e] eqn:Hget;
    cbn [fst snd].
  - split_and!; try done.
    + rewrite <- Hiff. split; intros _; by eexists.
    + intros Hno. by specialize (Hnourl Hno).
    + intros v [= <-]. exists stub. split; [done|]. split; [|done].
      by apply Hsession.
  - split_and!; try done.
    + rewrite <- Hiff. split; [by intros [? [=]]|by intros [? [=]]].
    + intros Hno. specialize (Hnourl Hno). by injection Hnourl as ->.
Qed.

(** A call that the cache does not answer, with a url and a token and a
    prefix of ordinary segments, none of them empty: the client has the
    base url without the slashes at its end, a slash, and the prefix. *)
Theorem get_client_url (CF_URL CF_TOKEN : string) (c : call)
    (cache : Cache Object) (prefix url token : string) :
  bind_arguments c = Ok (prefix, url, token) →
  (∀ v, cache ≠ Some (c, v)) →
  Forall (ordinary Object class_attribute) (split_slash prefix) →
  str_or url CF_URL ≠ "" → str_or token CF_TOKEN ≠ "" →
  clean_prefix prefix →
  let stub := Subway.mk (rstrip_slash (str_or url CF_URL) +:+ "/" +:+ prefix)
                (str_or token CF_TOKEN) in
  get_client_cached Object class_attribute Object_getattr CF_URL CF_TOKEN c cache
  = (Some (c, Stub stub), Ok (Stub stub)).
Proof.
  intros Hbind Hmiss Hpath Hurl Htok Hclean. cbv zeta.
  rewrite (get_client_cached_miss _ _ _ _ _ _ _ Hbind Hmiss).
  rewrite get_client_body_ordinary by done.
  by rewrite get_client_clean_prefix.
Qed.

(** What a call returns, the same call returns again, from the cache: the
    environment and the arguments are not looked at, so the same client
    comes back when the url and the token of the environment are gone or
    have changed. A call with other arguments that returns takes the place
    in the cache. *)
Theorem get_client_answers_from_cache (CF_URL CF_TOKEN : string) (c : call)
    (cache cache1 : Cache Object) (v : attribute_value Object) :
  get_client_cached Object class_attribute Object_getattr CF_URL CF_TOKEN c cache
  = (cache1, Ok v) →
  cache1 = Some (c, v) ∧
  (∀ CF_URL' CF_TOKEN',
     get_client_cached Object class_attribute Object_getattr CF_URL' CF_TOKEN'
       c cache1 = (cache1, Ok v)) ∧
  (∀ CF_URL' CF_TOKEN' c' cache2 v',
     c' ≠ c →
     get_client_cached Object class_attribute Object_getattr CF_URL' CF_TOKEN'
       c' cache1 = (cache2, Ok v') →
     cache2 = Some (c', v') ∧ ∀ w, cache2 ≠ Some (c, w)).
Proof.
  intros Hcall.
  assert (cache1 = Some (c, v)) as ->.
  { revert Hcall. unfold get_client_cached.
    destruct cache as [[c0 v0]|].
    - destruct (decide (c0 = c)) as [->|].
      + by intros [= <- <-].
      + destruct (result_bind _ _); [by intros [= <- <-]|done].
    - destruct (result_bind _ _); [by intros [= <- <-]|done]. }
  split; [done|]. split.
  - intros CF_URL' CF_TOKEN'. unfold get_client_cached.
    by rewrite decide_True.
  - intros CF_URL' CF_TOKEN' c' cache2 v' Hne. unfold get_client_cached.
    rewrite decide_False by done.
    destruct (result_bind _ _); [|done]. intros [= <- <-].
    split; [done|]. intros w [= ? _]. done.
Qed.

(** A prefix whose last segment is [_url] or [_session] does not give a
    client: the normal lookup finds the attribute of the stub made for the
    segments before it, and the call returns that url, or that session. *)
Theorem get_client_private_segment (CF_URL CF_TOKEN : string) (c : call)
    (cache : Cache Object) (prefix url token : string)
    (before : list string) (stub : Subway.t) :
  bind_arguments c = Ok (prefix, url, token) →
  (∀ v, cache ≠ Some (c, v)) →
  str_or url CF_URL ≠ "" → str_or token CF_TOKEN ≠ "" →
  Forall (ordinary Object class_attribute) before →
  stub = foldl Subway.getattr
           (Subway.init (str_or url CF_URL) (str_or token CF_TOKEN)) before →
  (split_slash prefix = before ++ ["_url"] →
   get_client_cached Object class_attribute Object_getattr CF_URL CF_TOKEN c
     cache
   = (Some (c, Str (Subway._url stub)), Ok (Str (Subway._url stub)))) ∧
  (split_slash prefix = before ++ ["_session"] →
   get_client_cached Object class_attribute Object_getattr CF_URL CF_TOKEN c
     cache
   = (Some (c, Session (str_or token CF_TOKEN)),
      Ok (Session (str_or token CF_TOKEN)))).
Proof.
  intros Hbind Hmiss Hurl Htok Hbefore ->.
  rewrite (get_client_cached_miss _ _ _ _ _ _ _ Hbind Hmiss).
  assert (∀ p, getattr_path Object class_attribute Object_getattr
                 (Stub (Subway.init (str_or url CF_URL) (str_or token CF_TOKEN)))
                 (before ++ [p])
               = py_getattr Object class_attribute Object_getattr
                   (Stub (foldl Subway.getattr
                            (Subway.init (str_or url CF_URL)
                               (str_or token CF_TOKEN)) before)) p) as Hlast.
  { intros p. generalize (Subway.init (str_or url CF_URL) (str_or token CF_TOKEN)).
    induction before as [|q before IH]; intros s.
    - cbn [app getattr_path foldl]. by destruct (py_getattr _ _ _ _ _).
    - apply Forall_cons in Hbefore as [Hq Hbefore].
      cbn [app getattr_path py_getattr foldl]. rewrite (Hq s). simpl.
      by apply IH. }
  unfold get_client_body. fold (str_or url CF_URL). fold (str_or token CF_TOKEN).
  rewrite (proj2 (str_truthy_true _) Hurl), (proj2 (str_truthy_true _) Htok).
  cbn [negb]. split; intros ->; rewrite Hlast.
  - done.
  - cbn [py_getattr Subway_getattribute String.eqb]. simpl.
    by rewrite foldl_getattr_session.
Qed.

End cached_facts.

Lemma api_v1_ordinary : Forall (ordinary unit u_only) (split_slash "api/v1").
Proof. repeat constructor. Qed.

Lemma get_client_needs_url_and_token_witness :
  let out := get_client_cached unit u_only no_attribute
               "http://localhost:8000//" "env-token" call_plain None in
  ((∃ stub, out.2 = Ok (Stub stub))
   ↔ str_or "" "http://localhost:8000//" ≠ "" ∧ str_or "" "env-token" ≠ "") ∧
  (str_or "" "http://localhost:8000//" = "" →
   out = (None, Raise (ValueError "No url provided, please set CF_URL environment variable or pass url as argument"))) ∧
  ("" ≠ "" → str_or "" "http://localhost:8000//" = "") ∧
  ("" ≠ "" → str_or "" "env-token" = "") ∧
  (∀ v, out.2 = Ok v →
        ∃ stub, v = Stub stub ∧ Subway._session stub = str_or "" "env-token" ∧
                out.1 = Some (call_plain, v)) ∧
  (∀ e, out.2 = Raise e → out.1 = None).
Proof.
  apply (get_client_needs_url_and_token unit u_only no_attribute
           "http://localhost:8000//" "env-token" call_plain None "api/v1" "" "").
  - reflexivity.
  - discriminate.
  - exact api_v1_ordinary.
Defined.

Lemma get_client_url_witness :
  get_client_cached unit u_only no_attribute "" "env-token" call_url None
  = (Some (call_url, Stub (Subway.mk "http://h/api/v1" "env-token")),
     Ok (Stub (Subway.mk "http://h/api/v1" "env-token"))).
Proof.
  apply (get_client_url unit u_only no_attribute "" "env-token" call_url None
           "api/v1" "http://h//" "").
  - reflexivity.
  - discriminate.
  - exact api_v1_ordinary.
  - discriminate.
  - discriminate.
  - repeat constructor; discriminate.
Defined.

Lemma get_client_answers_from_cache_witness :
  Some (call_plain, local_client) = Some (call_plain, local_client) ∧
  (∀ CF_URL' CF_TOKEN',
     get_client_cached unit u_only no_attribute CF_URL' CF_TOKEN' call_plain
       (Some (call_plain, local_client))
     = (Some (call_plain, local_client), Ok (local_client))) ∧
  (∀ CF_URL' CF_TOKEN' c' cache2 v',
     c' ≠ call_plain →
     get_client_cached unit u_only no_attribute CF_URL' CF_TOKEN' c'
       (Some (call_plain, local_client)) = (cache2, Ok v') →
     cache2 = Some (c', v') ∧ ∀ w, cache2 ≠ Some (call_plain, w)).
Proof.
  apply (get_client_answers_from_cache unit u_only no_attribute
           "http://localhost:8000//" "env-token" call_plain None).
  vm_compute. reflexivity.
Defined.

Lemma get_client_private_segment_witness :
  (split_slash "_url" = [] ++ ["_url"] →
   get_client_cached unit u_only no_attribute "http://localhost:8000//"
     "env-token" call_private None
   = (Some (call_private, Str "http://localhost:8000"),
      Ok (Str "http://localhost:8000"))) ∧
  (split_slash "_url" = [] ++ ["_session"] →
   get_client_cached unit u_only no_attribute "http://localhost:8000//"
     "env-token" call_private None
   = (Some (call_private, Session (str_or "" "env-token")),
      Ok (Session (str_or "" "env-token")))).
Proof.
  apply (get_client_private_segment unit u_only no_attribute
           "http://localhost:8000//" "env-token" call_private None "_url" "" ""
           [] (Subway.mk "http://localhost:8000" "env-token")).
  - reflexivity.
  - discriminate.
  - discriminate.
  - discriminate.
  - constructor.
  - reflexivity.
Defined.
